(** * share-files: the document preprocessing pipeline and its progress fan-out

    A shallow embedding of the Python sources under [claude_files/] (and the
    [my_files/] variants where they agree):

    - [preprocessing/chunkers/llama_chunker.py]   -> [Module LlamaChunker]
    - [preprocessing/embedders/patent_embedder.py] -> [Module PatentEmbedder]
    - [preprocessing/classifiers/domain_classifier.py] -> [Module DomainClassifier]
    - [api/documents/websocket.py]                 -> [Module ConnectionManager]
    - [preprocessing/pipeline.py]                  -> [Module Pipeline]

    Python values are modelled as the code uses them: [int] as [Z], [str] as
    [string] (code points below 256), [float] as a binary64 [spec_float],
    a [dict] read as a map as [gmap], a [dict] iterated in insertion order as
    an association list, a [set] as [gset], and a raising call as a value of
    [result]. *)

From Stdlib Require Import ZArith String Ascii List Lia.
From Stdlib Require Import Floats.SpecFloat.
From stdpp Require Import base option list gmap strings sorting.

Local Open Scope string_scope.
Local Open Scope list_scope.
Local Open Scope Z_scope.

(** ** Python: exceptions, results, loops, built-ins *)

Module Py.

(** An exception object: its class name and the text [str(e)] yields. *)
Record exn := Exn { exn_class : string; exn_msg : string }.

Definition str_of_exn (e : exn) : string := exn_msg e.

(** The outcome of a call: a returned value or a raised exception. *)
Inductive result (A : Type) : Type :=
| Ok (a : A)
| Raise (e : exn).
Arguments Ok {A} a.
Arguments Raise {A} e.

#[export] Instance result_ret : MRet result := fun A a => Ok a.
#[export] Instance result_bind : MBind result := fun A B f m =>
  match m with
  | Ok a => f a
  | Raise e => Raise e
  end.
#[export] Instance result_fmap : FMap result := fun A B f m =>
  match m with
  | Ok a => Ok (f a)
  | Raise e => Raise e
  end.

Definition is_ok {A} (r : result A) : bool :=
  match r with Ok _ => true | Raise _ => false end.

(** [for x in l: s = body(s, x)], where the body may raise. *)
Fixpoint for_each {A S : Type} (body : S -> A -> result S) (l : list A) (s : S)
  : result S :=
  match l with
  | [] => Ok s
  | x :: l' => s' ← body s x; for_each body l' s'
  end.

(** [enumerate(l)] from a given start index. *)
Fixpoint enumerate_from {A : Type} (i : Z) (l : list A) : list (Z * A) :=
  match l with
  | [] => []
  | x :: l' => (i, x) :: enumerate_from (i + 1) l'
  end.

Definition enumerate {A : Type} (l : list A) : list (Z * A) := enumerate_from 0 l.

(** [len(l)] as a Python int. *)
Definition len {A : Type} (l : list A) : Z := Z.of_nat (length l).

(** [range(start, stop, step)] for [step > 0]; [fuel] bounds the unrolling
    and [stop - start] steps always suffice.  [py_range] below is the
    built-in: it raises on a zero step and is empty when a positive step
    meets [stop <= start] or a negative one meets [stop >= start]. *)
Fixpoint range_up (fuel : nat) (i stop step : Z) : list Z :=
  match fuel with
  | O => []
  | S fuel' => if i <? stop then i :: range_up fuel' (i + step) stop step else []
  end.

Fixpoint range_down (fuel : nat) (i stop step : Z) : list Z :=
  match fuel with
  | O => []
  | S fuel' => if stop <? i then i :: range_down fuel' (i + step) stop step else []
  end.

Definition py_range (start stop step : Z) : result (list Z) :=
  if step =? 0 then Raise (Exn "ValueError" "range() arg 3 must not be zero")
  else if 0 <? step then Ok (range_up (Z.to_nat (stop - start)) start stop step)
  else Ok (range_down (Z.to_nat (start - stop)) start stop step).

(** [l[i:j]] for [0 <= i]: the slice is clipped to the list, never raises. *)
Definition slice {A : Type} (l : list A) (i j : Z) : list A :=
  take (Z.to_nat (Z.min j (len l)) - Z.to_nat i)%nat (drop (Z.to_nat i) l).

(** [str.isspace] on code points below 256. *)
Definition is_space (c : ascii) : bool :=
  let n := Z.of_nat (nat_of_ascii c) in
  ((9 <=? n) && (n <=? 13)) || ((28 <=? n) && (n <=? 32))
  || (n =? 133) || (n =? 160).

(** [s.split()]: the maximal runs of non-whitespace, in order. [word] is the
    run being read. *)
Fixpoint split_go (s : string) (word : string) : list string :=
  match s with
  | EmptyString => if decide (word = "") then [] else [word]
  | String c s' =>
      if is_space c
      then (if decide (word = "") then split_go s' "" else word :: split_go s' "")
      else split_go s' (String.append word (String c ""))
  end.

Definition split (s : string) : list string := split_go s "".

(** [sep.join(l)]. *)
Definition join (sep : string) (l : list string) : string := String.concat sep l.

Definition newline : ascii := ascii_of_nat 10.

(** Values stored in the free-form [Dict] metadata. *)
#[local] Unset Elimination Schemes.
Inductive pyval :=
| VNone
| VBool (b : bool)
| VInt (n : Z)
| VStr (s : string)
| VList (l : list pyval)
| VDict (d : list (string * pyval)).
#[local] Set Elimination Schemes.

End Py.
Import Py.

(** ** binary64 arithmetic, as far as [_estimate_tokens] needs it *)

Module Float64.

Definition prec : Z := 53.
Definition emax : Z := 1024.

(** [float(n)] for a Python int. *)
Definition of_int (n : Z) : spec_float := binary_normalize prec emax n 0 false.

Definition mul : spec_float -> spec_float -> spec_float := SFmul prec emax.
Definition div : spec_float -> spec_float -> spec_float := SFdiv prec emax.

(** The literal [1.33]: the double nearest to 133/100. *)
Definition c1_33 : spec_float := div (of_int 133) (of_int 100).

(** [int(x)]: truncation toward zero; raises on infinities and NaN. *)
Definition to_int (x : spec_float) : result Z :=
  match x with
  | S754_zero _ => Ok 0
  | S754_finite s m e => Ok (cond_Zopp s (Z.shiftl (Z.pos m) e))
  | S754_infinity _ =>
      Raise (Exn "OverflowError" "cannot convert float infinity to integer")
  | S754_nan => Raise (Exn "ValueError" "cannot convert float NaN to integer")
  end.

(** [round(x)]: the nearest integer, ties to the even one. *)
Definition round_half_even (m : Z) (e : Z) : Z :=
  if 0 <=? e then Z.shiftl m e
  else
    let q := Z.shiftr m (- e) in
    let r := m - Z.shiftl q (- e) in
    let half := Z.shiftl 1 (- e - 1) in
    if r <? half then q
    else if half <? r then q + 1
    else if Z.even q then q else q + 1.

Definition round (x : spec_float) : result Z :=
  match x with
  | S754_zero _ => Ok 0
  | S754_finite s m e => Ok (cond_Zopp s (round_half_even (Z.pos m) e))
  | S754_infinity _ =>
      Raise (Exn "OverflowError" "cannot convert float infinity to integer")
  | S754_nan => Raise (Exn "ValueError" "cannot convert float NaN to integer")
  end.

End Float64.

(** ** preprocessing/chunkers/llama_chunker.py

    The [my_files] variant of the chunker names the field [section] and
    leaves ['section_type'] out of a table chunk's metadata; the indices and
    the token counts are computed alike. *)

Module LlamaChunker.

Record Chunk := {
  text : string;
  chunk_index : Z;
  section_type : string;
  metadata : gmap string pyval;
  token_count : Z
}.

(** llama_index's [Document] and the nodes its [SentenceSplitter] returns. *)
Record LlamaDocument := {
  doc_text : string;
  doc_metadata : gmap string pyval
}.

Record Node := { node_text : string; node_id : string }.

(** [self]: the chunker owns its splitter, an external collaborator that may
    raise. *)
Record t := {
  get_nodes_from_documents : list LlamaDocument -> result (list Node)
}.

(** [int(len(text.split()) * 1.33)] *)
Definition _estimate_tokens (text : string) : result Z :=
  let words := len (split text) in
  Float64.to_int (Float64.mul (Float64.of_int words) Float64.c1_33).

(** The body of the inner loop of [chunk_sections]: one node becomes one
    chunk and the global counter advances. *)
Definition section_chunk_step (base_metadata : gmap string pyval)
    (section_name : string) (nodes : list Node)
    (st : list Chunk * Z) (item : Z * Node) : result (list Chunk * Z) :=
  let '(all_chunks, chunk_global_index) := st in
  let '(local_idx, node) := item in
  tokens ← _estimate_tokens (node_text node);
  let chunk := {|
    text := node_text node;
    chunk_index := chunk_global_index;
    section_type := section_name;
    metadata :=
      <["total_chunks_in_section" := VInt (len nodes)]>
        (<["local_chunk_index" := VInt local_idx]>
          (<["node_id" := VStr (node_id node)]>
            (<["section_type" := VStr section_name]> base_metadata)));
    token_count := tokens
  |} in
  Ok (all_chunks ++ [chunk], chunk_global_index + 1).

(** The [LlamaDocument] built for one section: its texts joined by a blank
    line, tagged with the section name. *)
Definition section_doc (base_metadata : gmap string pyval)
    (section_name : string) (section_texts : list string) : LlamaDocument :=
  let section_text := join (String newline (String newline "")) section_texts in
  {| doc_text := section_text;
     doc_metadata := <["section_type" := VStr section_name]> base_metadata |}.

(** The body of the outer loop: an empty section is skipped, any other is
    joined, split and turned into chunks. *)
Definition section_step (self : t) (base_metadata : gmap string pyval)
    (st : list Chunk * Z) (item : string * list string)
  : result (list Chunk * Z) :=
  let '(section_name, section_texts) := item in
  match section_texts with
  | [] => Ok st
  | _ =>
      let llama_doc := section_doc base_metadata section_name section_texts in
      nodes ← get_nodes_from_documents self [llama_doc];
      for_each (section_chunk_step base_metadata section_name nodes)
               (enumerate nodes) st
  end.

Definition chunk_sections (self : t) (sections : list (string * list string))
    (base_metadata : gmap string pyval) : result (list Chunk) :=
  st ← for_each (section_step self base_metadata) sections ([], 0);
  Ok (fst st).

(** [table['text']], which must be a [str] for [.split()] to exist. *)
Definition table_text (table : gmap string pyval) : result string :=
  match table !! "text" with
  | None => Raise (Exn "KeyError" "'text'")
  | Some (VStr s) => Ok s
  | Some _ => Raise (Exn "AttributeError" "object has no attribute 'split'")
  end.

Definition table_step (base_metadata : gmap string pyval)
    (table_chunks : list Chunk) (item : Z * gmap string pyval)
  : result (list Chunk) :=
  let '(idx, table) := item in
  txt ← table_text table;
  tokens ← _estimate_tokens txt;
  let chunk := {|
    text := txt;
    chunk_index := idx;
    section_type := "table";
    metadata :=
      <["table_metadata" := default (VDict []) (table !! "metadata")]>
        (<["table_index" := VInt idx]>
          (<["section_type" := VStr "table"]> base_metadata));
    token_count := tokens
  |} in
  Ok (table_chunks ++ [chunk]).

Definition chunk_tables (self : t) (tables : list (gmap string pyval))
    (base_metadata : gmap string pyval) : result (list Chunk) :=
  for_each (table_step base_metadata) (enumerate tables) [].

(** *** Vocabulary of the statements about the chunker *)

(** The indices of [chunks] are [start, start+1, ...] in list order. *)
Definition contiguous_from (start : Z) (chunks : list Chunk) : Prop :=
  map chunk_index chunks = seqZ start (len chunks).

Definition has_text (section_texts : list string) : bool :=
  match section_texts with [] => false | _ => true end.

(** [sp] is what the splitter returned for section [sec]. *)
Definition split_of (self : t) (base_metadata : gmap string pyval)
    (sec : string * list string) (sp : string * list Node) : Prop :=
  fst sp = fst sec /\
  get_nodes_from_documents self [section_doc base_metadata (fst sec) (snd sec)]
    = Ok (snd sp).

(** The pieces of the splits, in order, each with its section name. *)
Definition pieces (splits : list (string * list Node)) : list (string * string) :=
  flat_map (fun sp => map (fun n => (fst sp, node_text n)) (snd sp)) splits.

Definition labelled (c : Chunk) : string * string := (section_type c, text c).

(** The token count as the specification words it:
    [round(word_count * 1.33)]. *)
Definition round_estimate (text : string) : result Z :=
  let words := len (split text) in
  Float64.round (Float64.mul (Float64.of_int words) Float64.c1_33).

(** The chunk carries the token estimate of its own text. *)
Definition token_ok (c : Chunk) : Prop :=
  _estimate_tokens (text c) = Ok (token_count c).

(** The exact quotient the estimate approximates: 133 words per 100,
    rounded down. *)
Definition floor_estimate (words : Z) : Z := 133 * words / 100.

Definition words_checked : Z := 4096.

Definition estimate_agrees (words : Z) : bool :=
  match Float64.to_int (Float64.mul (Float64.of_int words) Float64.c1_33) with
  | Ok tokens => tokens =? floor_estimate words
  | Raise _ => false
  end.

(** A splitter that returns every document whole, as one node. *)
Definition whole_splitter : t :=
  {| get_nodes_from_documents docs :=
       Ok (map (fun d => {| node_text := doc_text d; node_id := "node-0" |}) docs) |}.

Definition one_section : list (string * list string) :=
  [("introduction", ["alpha beta"])].

Definition one_table : list (gmap string pyval) :=
  [ {[ "text" := VStr "gamma delta" ]} ].

End LlamaChunker.

(** ** preprocessing/embedders/patent_embedder.py *)

Module PatentEmbedder.

(** One embedding: [List[float]]. *)
Definition vector : Type := list spec_float.

(** The external embedding model; both of its calls may raise. *)
Record HuggingFaceEmbedding := {
  model_name : string;
  get_text_embedding_batch : list string -> result (list vector);
  get_text_embedding : string -> result vector
}.

Record t := {
  embed_model : HuggingFaceEmbedding;
  embedding_dim : Z
}.

Definition _get_embedding_dimension (model : HuggingFaceEmbedding) : result Z :=
  test_embedding ← get_text_embedding model "test";
  Ok (len test_embedding).

(** [__init__], given the loaded model. *)
Definition init (model : HuggingFaceEmbedding) : result t :=
  dim ← _get_embedding_dimension model;
  Ok {| embed_model := model; embedding_dim := dim |}.

Definition batch_step (self : t) (texts : list string) (batch_size : Z)
    (all_embeddings : list vector) (i : Z) : result (list vector) :=
  let batch := slice texts i (i + batch_size) in
  batch_embeddings ← get_text_embedding_batch (embed_model self) batch;
  Ok (all_embeddings ++ batch_embeddings).

Definition _generate_batch (self : t) (texts : list string) (batch_size : Z)
  : result (list vector) :=
  starts ← py_range 0 (len texts) batch_size;
  for_each (batch_step self texts batch_size) starts [].

Definition generate_embeddings (self : t) (texts : list string) (batch_size : Z)
  : result (list vector) :=
  match texts with
  | [] => Ok []
  | _ => _generate_batch self texts batch_size
  end.

Definition default_batch_size : Z := 32.

Definition generate_single_embedding (self : t) (text : string) : result vector :=
  get_text_embedding (embed_model self) text.

Definition dimension (self : t) : Z := embedding_dim self.

(** A model that embeds a text as the one-dimensional vector holding its
    length. *)
Definition length_vector (text : string) : vector :=
  [Float64.of_int (Z.of_nat (String.length text))].

Definition length_model : HuggingFaceEmbedding :=
  {| model_name := "AI-Growth-Lab/PatentSBERTa";
     get_text_embedding_batch batch := Ok (map length_vector batch);
     get_text_embedding text := Ok (length_vector text) |}.

Definition length_embedder : t :=
  {| embed_model := length_model; embedding_dim := 1 |}.

End PatentEmbedder.

(** ** preprocessing/classifiers/domain_classifier.py *)

Module DomainClassifier.

Definition TECH_DOMAINS : list (string * list string) := [
  ("software", [
    "algorithm"; "software"; "computer"; "processor"; "application";
    "program"; "code"; "data"; "server"; "database"; "interface";
    "api"; "network"; "cloud"; "machine learning"; "artificial intelligence"
  ]);
  ("mechanical", [
    "mechanism"; "device"; "apparatus"; "structure"; "assembly";
    "component"; "gear"; "motor"; "bearing"; "valve"; "actuator";
    "mechanical"; "engine"; "machine"; "tool"
  ]);
  ("electrical", [
    "circuit"; "electrical"; "electronic"; "signal"; "voltage";
    "current"; "power"; "transistor"; "semiconductor"; "microprocessor";
    "integrated circuit"; "pcb"; "conductor"; "capacitor"; "resistor"
  ]);
  ("chemical", [
    "compound"; "composition"; "reaction"; "molecule"; "chemical";
    "synthesis"; "catalyst"; "polymer"; "solvent"; "reagent";
    "formulation"; "mixture"; "solution"; "substance"
  ]);
  ("biotechnology", [
    "protein"; "gene"; "cell"; "biological"; "organism"; "dna";
    "rna"; "enzyme"; "antibody"; "bacteria"; "virus"; "genetic";
    "biotechnology"; "genome"; "peptide"
  ]);
  ("medical", [
    "treatment"; "diagnosis"; "therapeutic"; "patient"; "medical";
    "clinical"; "disease"; "therapy"; "pharmaceutical"; "drug";
    "medicine"; "surgical"; "healthcare"; "diagnostic"
  ]);
  ("telecommunications", [
    "wireless"; "communication"; "antenna"; "frequency"; "transmission";
    "receiver"; "transmitter"; "signal processing"; "modulation";
    "bandwidth"; "cellular"; "5g"; "radio"
  ]);
  ("optics", [
    "optical"; "laser"; "light"; "lens"; "photon"; "beam";
    "wavelength"; "spectrum"; "imaging"; "camera"; "display"
  ])
].

(** [str.lower] on code points below 256: A-Z and the accented capitals
    192-222 (215 is the multiplication sign) move up by 32. *)
Definition lower_char (c : ascii) : ascii :=
  let n := nat_of_ascii c in
  if ((65 <=? n) && (n <=? 90))%nat
     || ((192 <=? n) && (n <=? 222) && negb (n =? 215))%nat
  then ascii_of_nat (n + 32) else c.

Fixpoint lower (s : string) : string :=
  match s with
  | EmptyString => EmptyString
  | String c s' => String (lower_char c) (lower s')
  end.

(** [needle in hay] for strings. *)
Fixpoint contains (needle hay : string) : bool :=
  if String.prefix needle hay then true
  else match hay with
       | EmptyString => false
       | String _ hay' => contains needle hay'
       end.

(** [sum(1 for keyword in keywords if keyword in text_lower)] *)
Definition matches (keywords : list string) (text_lower : string) : Z :=
  len (List.filter (fun keyword => contains keyword text_lower) keywords).

(** [d[k] = v] on an insertion-ordered dict: an existing key keeps its
    place, a new one goes last. *)
Fixpoint dict_set {V : Type} (d : list (string * V)) (k : string) (v : V)
  : list (string * V) :=
  match d with
  | [] => [(k, v)]
  | (k', v') :: d' =>
      if decide (k' = k) then (k, v) :: d' else (k', v') :: dict_set d' k v
  end.

Definition score_step (text_lower : string) (min_keywords : Z)
    (domain_scores : list (string * Z)) (item : string * list string)
  : list (string * Z) :=
  let '(domain, keywords) := item in
  let n := matches keywords text_lower in
  if min_keywords <=? n then dict_set domain_scores domain n else domain_scores.

(** [sorted(items, key=lambda x: x[1], reverse=True)]: the stable sort by
    descending score; [insert_desc] puts an item ahead of everything that
    does not beat it, so that ties keep their original order. *)
Fixpoint insert_desc (x : string * Z) (l : list (string * Z)) : list (string * Z) :=
  match l with
  | [] => [x]
  | y :: l' => if snd x <? snd y then y :: insert_desc x l' else x :: l
  end.

Fixpoint sorted_desc (l : list (string * Z)) : list (string * Z) :=
  match l with
  | [] => []
  | x :: l' => insert_desc x (sorted_desc l')
  end.

Definition default_min_keywords : Z := 2.

Definition classify (text : string) (min_keywords : Z) : list string :=
  let text_lower := lower text in
  let domain_scores :=
    fold_left (score_step text_lower min_keywords) TECH_DOMAINS [] in
  let sorted_domains := sorted_desc domain_scores in
  let domains := map fst sorted_domains in
  match domains with
  | [] => ["general"]
  | _ => domains
  end.

(** [word.strip(chars)] *)
Fixpoint lstrip (chars : list ascii) (s : string) : string :=
  match s with
  | EmptyString => EmptyString
  | String c s' => if bool_decide (c ∈ chars) then lstrip chars s' else s
  end.

Fixpoint rstrip (chars : list ascii) (s : string) : string :=
  match s with
  | EmptyString => EmptyString
  | String c s' =>
      match rstrip chars s' with
      | EmptyString => if bool_decide (c ∈ chars) then EmptyString
                       else String c EmptyString
      | rest => String c rest
      end
  end.

Definition strip (chars : list ascii) (s : string) : string :=
  rstrip chars (lstrip chars s).

Definition punctuation : list ascii := list_ascii_of_string ".,;:!?()".

(** [c.isupper()] on code points below 256. *)
Definition isupper (c : ascii) : bool :=
  let n := nat_of_ascii c in
  (((65 <=? n) && (n <=? 90))
   || ((192 <=? n) && (n <=? 222) && negb (n =? 215)))%nat.

Fixpoint endswith_dot (s : string) : bool :=
  match s with
  | EmptyString => false
  | String c EmptyString => bool_decide (c = "."%char)
  | String _ s' => endswith_dot s'
  end.

(** The scan of [extract_technical_terms]; [prev] is [words[i-1]], absent at
    [i = 0]. *)
Fixpoint scan_terms (prev : option string) (words : list string) : list string :=
  match words with
  | [] => []
  | word :: rest =>
      let clean_word := strip punctuation word in
      let capitalised :=
        (2 <? Z.of_nat (String.length clean_word))
        && match clean_word with String c _ => isupper c | _ => false end in
      match prev with
      | Some before =>
          if capitalised && negb (endswith_dot before)
          then clean_word :: scan_terms (Some word) rest
          else scan_terms (Some word) rest
      | None => scan_terms (Some word) rest
      end
  end.

(** [list(dict.fromkeys(l))]: the first occurrence of each item, in order. *)
Definition unique_in_order (l : list string) : list string :=
  fold_left (fun seen x => if bool_decide (x ∈ seen) then seen else seen ++ [x]) l [].

(** [l[:n]] *)
Definition upto {A : Type} (l : list A) (n : Z) : list A :=
  if 0 <=? n then take (Z.to_nat n) l
  else take (length l - Z.to_nat (- n))%nat l.

Definition default_max_terms : Z := 20.

Definition extract_technical_terms (text : string) (max_terms : Z) : list string :=
  let words := split text in
  let technical_terms := scan_terms None words in
  let unique_terms := unique_in_order technical_terms in
  upto unique_terms max_terms.

(** [list(set(l))]: the interpreter fixes the order in which a set is
    iterated (it depends on the hash seed and on the insertions made); a
    [set_order] is any such choice: no item twice, the same items. *)
Record set_order := {
  list_of_set : list string -> list string;
  list_of_set_nodup : forall l, NoDup (list_of_set l);
  list_of_set_elem : forall l x, x ∈ list_of_set l <-> x ∈ l
}.

Definition cpc_mapping : gmap string (list string) :=
  list_to_map [
    ("software", ["G06F"]);
    ("mechanical", ["F16"]);
    ("electrical", ["H01"; "H02"]);
    ("chemical", ["C07"; "C08"]);
    ("biotechnology", ["C12"]);
    ("medical", ["A61"]);
    ("telecommunications", ["H04"]);
    ("optics", ["G02"])
  ].

Definition hint_step (cpc_hints : list string) (domain : string) : list string :=
  match cpc_mapping !! domain with
  | Some hints => cpc_hints ++ hints
  | None => cpc_hints
  end.

Definition get_cpc_hints (order : set_order) (domains : list string) : list string :=
  let cpc_hints := fold_left hint_step domains [] in
  list_of_set order cpc_hints.

(** *** Vocabulary of the statements about the classifier *)

(** The keyword-match count of a domain label on a text. *)
Definition score_of (text : string) (domain : string) : Z :=
  match List.find (fun item => bool_decide (fst item = domain)) TECH_DOMAINS with
  | Some (_, keywords) => matches keywords (lower text)
  | None => 0
  end.

(** The domains that reach the threshold, in table order. *)
Definition qualifying (text : string) (min_keywords : Z) : list string :=
  map fst (List.filter
             (fun item => min_keywords <=? matches (snd item) (lower text))
             TECH_DOMAINS).

(** The order on scored items that [sorted(..., reverse=True)] establishes. *)
Definition by_score (a b : string * Z) : Prop := snd b <= snd a.

(** The items of a domain table that reach the threshold, with their
    scores, in table order. *)
Definition scored (tl : string) (mk : Z) (doms : list (string * list string))
  : list (string * Z) :=
  map (fun item => (fst item, matches (snd item) tl))
      (List.filter (fun item => mk <=? matches (snd item) tl) doms).

Definition known (domain : string) : bool :=
  bool_decide (is_Some (cpc_mapping !! domain)).

End DomainClassifier.

(** ** api/documents/schemas.py: the progress update sent to observers *)

Module Schemas.

Record ProcessingProgressUpdate := {
  stage : string;
  progress : Z;
  error : option string
}.

End Schemas.

(** ** api/documents/websocket.py *)

Module ConnectionManager.

(** A connection object, known by its identity. *)
Definition WebSocket : Type := positive.

Definition data : Type := Schemas.ProcessingProgressUpdate.

(** What the sockets do when called: [accept] and [send_json] may raise
    (a closed connection, a handshake that fails). *)
Record Transport := {
  accept : WebSocket -> result unit;
  send_json : WebSocket -> data -> result unit
}.

(** [self]: document id -> set of connections. *)
Record t := { active_connections : gmap string (gset WebSocket) }.

Definition init : t := {| active_connections := ∅ |}.

Definition connect (net : Transport) (self : t) (websocket : WebSocket)
    (document_id : string) : result unit * t :=
  match accept net websocket with
  | Raise e => (Raise e, self)
  | Ok _ =>
      let conns := active_connections self in
      let conns :=
        match conns !! document_id with
        | None => <[document_id := ∅]> conns
        | Some _ => conns
        end in
      (Ok tt,
       {| active_connections := alter (fun s => s ∪ {[websocket]}) document_id conns |})
  end.

Definition disconnect (self : t) (websocket : WebSocket) (document_id : string) : t :=
  let conns := active_connections self in
  match conns !! document_id with
  | None => self
  | Some _ =>
      let conns := alter (fun s => s ∖ {[websocket]}) document_id conns in
      match conns !! document_id with
      | Some s =>
          if decide (s = ∅)
          then {| active_connections := delete document_id conns |}
          else {| active_connections := conns |}
      | None => {| active_connections := conns |}
      end
  end.

(** One call of [send_json], as the sender saw it. *)
Record Attempt := { to : WebSocket; payload : data; delivered : bool }.

(** The body of the loop of [send_progress]: a failed send is caught and the
    connection disconnected. *)
Definition send_step (net : Transport) (document_id : string) (d : data)
    (st : t * list Attempt) (connection : WebSocket) : t * list Attempt :=
  let '(self, log) := st in
  match send_json net connection d with
  | Ok _ =>
      (self, log ++ [{| to := connection; payload := d; delivered := true |}])
  | Raise e =>
      (disconnect self connection document_id,
       log ++ [{| to := connection; payload := d; delivered := false |}])
  end.

(** [send_progress] returns the outcome of the call, the manager afterwards
    and the sends attempted.  The copy of the set is iterated in the
    interpreter's order; [elements] stands for it. *)
Definition send_progress (net : Transport) (self : t) (document_id : string)
    (d : data) : result unit * t * list Attempt :=
  match active_connections self !! document_id with
  | None => (Ok tt, self, [])
  | Some s =>
      let connections := elements s in
      let '(self', log) :=
        fold_left (send_step net document_id d) connections (self, []) in
      (Ok tt, self', log)
  end.

Definition broadcast_step (net : Transport) (d : data)
    (st : t * list Attempt) (document_id : string) : t * list Attempt :=
  let '(self, log) := st in
  let '(_, self', log') := send_progress net self document_id d in
  (self', log ++ log').

Definition broadcast (net : Transport) (self : t) (d : data)
  : result unit * t * list Attempt :=
  let keys := map fst (map_to_list (active_connections self)) in
  let '(self', log) := fold_left (broadcast_step net d) keys (self, []) in
  (Ok tt, self', log).

(** *** Vocabulary of the statements about the registry *)

Definition registered (self : t) (document_id : string) (c : WebSocket) : Prop :=
  exists s, active_connections self !! document_id = Some s /\ c ∈ s.

(** Every document id present maps to a non-empty set. *)
Definition no_empty_entry (self : t) : Prop :=
  forall document_id s,
    active_connections self !! document_id = Some s -> s ≠ ∅.

Definition fails (net : Transport) (d : data) (c : WebSocket) : Prop :=
  is_ok (send_json net c d) = false.

(** The operations of the registry, each with the behaviour of the sockets
    while it runs. *)
Inductive operation :=
| Connect (net : Transport) (websocket : WebSocket) (document_id : string)
| Disconnect (websocket : WebSocket) (document_id : string)
| SendProgress (net : Transport) (document_id : string) (d : data)
| Broadcast (net : Transport) (d : data).

Definition apply_operation (self : t) (op : operation) : t :=
  match op with
  | Connect net websocket document_id => snd (connect net self websocket document_id)
  | Disconnect websocket document_id => disconnect self websocket document_id
  | SendProgress net document_id d => snd (fst (send_progress net self document_id d))
  | Broadcast net d => snd (fst (broadcast net self d))
  end.

Definition run (ops : list operation) : t := fold_left apply_operation ops init.

(** Sockets of which the odd-numbered ones are closed. *)
Definition odd_closed : Transport :=
  {| accept _ := Ok tt;
     send_json c _ :=
       match c with
       | xO _ => Ok tt
       | _ => Raise (Exn "RuntimeError" "connection closed")
       end |}.

Definition extracting_20 : data :=
  {| Schemas.stage := "extracting"; Schemas.progress := 20; Schemas.error := None |}.

Definition watchers : gset WebSocket := {[ 1%positive; 2%positive ]}.

Definition two_watchers : t :=
  {| active_connections := {[ "doc-1" := watchers ]} |}.

End ConnectionManager.

(** ** preprocessing/extractors/base.py *)

Module Extractors.

Record ExtractedContent := {
  sections : list (string * list string);
  tables : list (gmap string pyval);
  metadata : gmap string pyval;
  full_text : string;
  has_tables : bool
}.

(** [BaseExtractor]: the extraction capability; [extract] may raise. *)
Record t := {
  extract : string -> result ExtractedContent;
  supports_file_type : string -> bool
}.

End Extractors.

(** ** The persisted rows and the database session *)

Module Models.

(** Modelled from the spec: [src.models.document], which declares the
    [Document] and [DocumentChunk] rows, is not among the sources; the
    fields are those of section 3 of the specification that the pipeline
    reads or writes (the [lawgorithm] models declare the same columns). *)
Record Document := {
  id : string;
  project_id : string;
  storage_path : string;
  processing_status : string;
  processing_error : option string;
  metadata : gmap string pyval;
  processed_at : option Z
}.

Record DocumentChunk := {
  document_id : string;
  chunk_text : string;
  chunk_index : Z;
  embedding : PatentEmbedder.vector;
  section_type : string;
  token_count : Z;
  importance_score : spec_float;
  chunk_metadata : gmap string pyval
}.

(** Modelled from the spec: the SQLAlchemy [Session] the pipeline is handed
    ([self.db]), as a unit of work over the Store: the committed rows, the
    objects it has loaded (with their attribute writes not yet committed)
    and the objects added to it.  [query(...).first()] returns the session's
    own object for a row, so two queries for one id alias; [commit] makes
    the loaded objects and the added ones the committed rows.  The functions
    below say what a call does when the Store carries it out; whether it
    does is the [Store]'s part. *)
Record Session := {
  rows : gmap string Document;
  chunk_rows : list DocumentChunk;
  loaded : gmap string Document;
  added : list DocumentChunk
}.

(** Modelled from the spec: the uses of the session and of its objects that
    can reach the Store (section 6, [Store]: load and save by id, chunk
    insert). *)
Inductive StoreCall :=
| Query (document_id : string)
| Refresh (document_id : string)
| Write (document_id : string)
| Add (c : DocumentChunk)
| Commit.

(** Modelled from the spec: the Store behind the session, as far as its
    failures go (section 7, [StoreFailure]: a persistence call raised).  For
    a call made in a given state of the session it answers [None] when it
    carries the call out and [Some e] when the call raises [e]; a call that
    raises leaves the session as it was. *)
Definition Store : Type := Session -> StoreCall -> option exn.

Definition query_first (db : Session) (document_id : string)
  : option Document * Session :=
  match loaded db !! document_id with
  | Some d => (Some d, db)
  | None =>
      match rows db !! document_id with
      | Some d =>
          (Some d,
           {| rows := rows db; chunk_rows := chunk_rows db;
              loaded := <[document_id := d]> (loaded db); added := added db |})
      | None => (None, db)
      end
  end.

(** An attribute write on the session's object for [document_id]. *)
Definition write (upd : Document -> Document) (document_id : string) (db : Session)
  : Session :=
  {| rows := rows db; chunk_rows := chunk_rows db;
     loaded := alter upd document_id (loaded db); added := added db |}.

Definition add (c : DocumentChunk) (db : Session) : Session :=
  {| rows := rows db; chunk_rows := chunk_rows db;
     loaded := loaded db; added := added db ++ [c] |}.

(** Several [add]s in a row. *)
Definition add_list (cs : list DocumentChunk) (db : Session) : Session :=
  {| rows := rows db; chunk_rows := chunk_rows db;
     loaded := loaded db; added := added db ++ cs |}.

Definition commit (db : Session) : Session :=
  {| rows := loaded db ∪ rows db; chunk_rows := chunk_rows db ++ added db;
     loaded := loaded db; added := [] |}.

Definition set_processing_status (s : string) (d : Document) : Document :=
  {| id := id d; project_id := project_id d; storage_path := storage_path d;
     processing_status := s; processing_error := processing_error d;
     metadata := metadata d; processed_at := processed_at d |}.

Definition set_processing_error (e : option string) (d : Document) : Document :=
  {| id := id d; project_id := project_id d; storage_path := storage_path d;
     processing_status := processing_status d; processing_error := e;
     metadata := metadata d; processed_at := processed_at d |}.

Definition set_processed_at (t : option Z) (d : Document) : Document :=
  {| id := id d; project_id := project_id d; storage_path := storage_path d;
     processing_status := processing_status d;
     processing_error := processing_error d;
     metadata := metadata d; processed_at := t |}.

Definition set_metadata (m : gmap string pyval) (d : Document) : Document :=
  {| id := id d; project_id := project_id d; storage_path := storage_path d;
     processing_status := processing_status d;
     processing_error := processing_error d;
     metadata := m; processed_at := processed_at d |}.

End Models.

(** ** preprocessing/pipeline.py *)

Module Pipeline.
Import Schemas Models.

Inductive ProcessingStage :=
| EXTRACTING | CLASSIFYING | CHUNKING | EMBEDDING | STORING | COMPLETE | FAILED.

Definition value (s : ProcessingStage) : string :=
  match s with
  | EXTRACTING => "extracting"
  | CLASSIFYING => "classifying"
  | CHUNKING => "chunking"
  | EMBEDDING => "embedding"
  | STORING => "storing"
  | COMPLETE => "complete"
  | FAILED => "failed"
  end.

(** [self]: the collaborators built by [__init__], and the Store behind
    [self.db]; the state of the session itself is part of the [World]. *)
Record t := {
  store : Store;
  extractor : Extractors.t;
  chunker : LlamaChunker.t;
  embedder : PatentEmbedder.t;
  classifier : DomainClassifier.set_order
}.

(** The progress callback: an async callable taking the progress dict; it
    may raise. *)
Definition Callback : Type := ProcessingProgressUpdate -> result unit.

(** What a run acts on: the session, the events handed to the progress
    callback so far, and the clock read by [datetime.utcnow()]. *)
Record World := {
  db : Session;
  published : list ProcessingProgressUpdate;
  utcnow : Z
}.

Definition with_db (f : Session -> Session) (w : World) : World :=
  {| db := f (db w); published := published w; utcnow := utcnow w |}.

(** Code that acts on the world and returns or raises. *)
Definition M (A : Type) : Type := World -> result A * World.

#[export] Instance M_ret : MRet M := fun A a w => (Ok a, w).
#[export] Instance M_bind : MBind M := fun A B f m w =>
  match m w with
  | (Ok a, w') => f a w'
  | (Raise e, w') => (Raise e, w')
  end.

Definition raise {A : Type} (e : exn) : M A := fun w => (Raise e, w).

Definition lift {A : Type} (r : result A) : M A := fun w => (r, w).

(** [try: body  except Exception as e: handler] *)
Definition try_except {A : Type} (body : M A) (handler : exn -> M A) : M A :=
  fun w =>
    match body w with
    | (Ok a, w') => (Ok a, w')
    | (Raise e, w') => handler e w'
    end.

(** A step on the world. *)
Definition act {A : Type} (f : World -> result A * World) : M A := f.

(** A call that reaches the Store: it raises what the Store raises, the
    session staying as it is, and goes on otherwise. *)
Definition store_call (self : t) (c : StoreCall) : M unit :=
  fun w =>
    match store self (db w) c with
    | Some e => (Raise e, w)
    | None => (Ok tt, w)
    end.

(** [self.db.query(Document).filter(Document.id == document_id).first()] *)
Definition db_query_first (self : t) (document_id : string) : M (option Document) :=
  store_call self (Query document_id);;
  act (fun w =>
         (Ok (fst (query_first (db w) document_id)),
          with_db (fun db => snd (query_first db document_id)) w)).

(** [document.<attribute> = ...] *)
Definition db_write (self : t) (upd : Document -> Document) (document_id : string)
  : M unit :=
  store_call self (Write document_id);;
  act (fun w => (Ok tt, with_db (write upd document_id) w)).

(** [self.db.add(c)] *)
Definition db_add (self : t) (c : DocumentChunk) : M unit :=
  store_call self (Add c);;
  act (fun w => (Ok tt, with_db (add c) w)).

(** [self.db.commit()] *)
Definition db_commit (self : t) : M unit :=
  store_call self Commit;;
  act (fun w => (Ok tt, with_db commit w)).

(** The session's object for [document_id], as the local [document] sees
    it when one of its attributes is read. *)
Definition db_read (self : t) (document_id : string) : M Document :=
  store_call self (Refresh document_id);;
  act (fun w =>
         match loaded (db w) !! document_id with
         | Some d => (Ok d, w)
         | None => (Raise (Exn "ObjectDeletedError" "instance has been deleted"), w)
         end).

Definition datetime_utcnow : M Z := fun w => (Ok (utcnow w), w).

(** The dict handed to the callback. *)
Definition progress_event (stage : ProcessingStage) (progress : Z)
    (error : option string) : ProcessingProgressUpdate :=
  {| Schemas.stage := value stage;
     Schemas.progress := progress;
     Schemas.error := error |}.

Definition _update_progress (callback : option Callback) (stage : ProcessingStage)
    (progress : Z) (error : option string) : M unit :=
  match callback with
  | None => mret tt
  | Some call =>
      fun w =>
        let ev := progress_event stage progress error in
        (call ev,
         {| db := db w; published := published w ++ [ev]; utcnow := utcnow w |})
  end.

Definition db_chunk (document_id : string)
    (item : LlamaChunker.Chunk * PatentEmbedder.vector) : DocumentChunk :=
  let '(chunk, emb) := item in
  {| Models.document_id := document_id;
     chunk_text := LlamaChunker.text chunk;
     Models.chunk_index := LlamaChunker.chunk_index chunk;
     embedding := emb;
     Models.section_type := LlamaChunker.section_type chunk;
     Models.token_count := LlamaChunker.token_count chunk;
     importance_score := Float64.of_int 1;
     chunk_metadata := LlamaChunker.metadata chunk |}.

(** [for chunk, embedding in zip(all_chunks, embeddings): self.db.add(...)] *)
Fixpoint add_all (self : t) (document_id : string)
    (pairs : list (LlamaChunker.Chunk * PatentEmbedder.vector)) : M unit :=
  match pairs with
  | [] => mret tt
  | item :: rest =>
      db_add self (db_chunk document_id item);; add_all self document_id rest
  end.

Definition VStrs (l : list string) : pyval := VList (map VStr l).

(** The [base_metadata] dict of stage 3. *)
Definition base_metadata_of (document_id project_id : string) (is_primary : bool)
    (domains cpc_hints : list string) : gmap string pyval :=
  <["cpc_hints" := VStrs cpc_hints]>
    (<["technical_domains" := VStrs domains]>
      (<["is_primary" := VBool is_primary]>
        (<["project_id" := VStr project_id]>
          (<["document_id" := VStr document_id]> ∅)))).

(** [{**document.metadata, 'total_chunks': ..., ...}] *)
Definition merged_metadata (self : t) (extracted : Extractors.ExtractedContent)
    (domains technical_terms cpc_hints : list string)
    (all_chunks : list LlamaChunker.Chunk) (old : gmap string pyval)
  : gmap string pyval :=
  <["embedding_dimension" := VInt (PatentEmbedder.dimension (embedder self))]>
    (<["embedding_model" :=
         VStr (PatentEmbedder.model_name (PatentEmbedder.embed_model (embedder self)))]>
      (<["has_tables" := VBool (Extractors.has_tables extracted)]>
        (<["cpc_hints" := VStrs cpc_hints]>
          (<["technical_terms" := VStrs technical_terms]>
            (<["technical_domains" := VStrs domains]>
              (<["total_chunks" := VInt (len all_chunks)]> old)))))).

(** The dict a successful run returns. *)
Definition summary (document_id : string) (extracted : Extractors.ExtractedContent)
    (domains : list string) (all_chunks : list LlamaChunker.Chunk)
  : gmap string pyval :=
  <["has_tables" := VBool (Extractors.has_tables extracted)]>
    (<["domains" := VStrs domains]>
      (<["chunks_created" := VInt (len all_chunks)]>
        (<["document_id" := VStr document_id]>
          (<["status" := VStr "success"]> ∅)))).

(** [ValueError(f"Document {document_id} not found")] *)
Definition not_found (document_id : string) : exn :=
  Exn "ValueError"
      (String.append "Document " (String.append document_id " not found")).

(** The body of the [try] of [process_document]. *)
Definition process_document_body (self : t) (document_id file_path project_id : string)
    (is_primary : bool) (progress_callback : option Callback)
  : M (gmap string pyval) :=
  document ← db_query_first self document_id;
  match document with
  | None =>
      raise (not_found document_id)
  | Some _ =>
      db_write self (set_processing_status "processing") document_id;;
      db_commit self;;
      (* Stage 1: extract content *)
      _update_progress progress_callback EXTRACTING 20 None;;
      extracted ← lift (Extractors.extract (extractor self) file_path);
      (* Stage 2: classify domain *)
      _update_progress progress_callback CLASSIFYING 35 None;;
      let domains :=
        DomainClassifier.classify (Extractors.full_text extracted)
                                  DomainClassifier.default_min_keywords in
      let technical_terms :=
        DomainClassifier.extract_technical_terms
          (Extractors.full_text extracted) DomainClassifier.default_max_terms in
      let cpc_hints := DomainClassifier.get_cpc_hints (classifier self) domains in
      (* Stage 3: create chunks *)
      _update_progress progress_callback CHUNKING 50 None;;
      let base_metadata :=
        base_metadata_of document_id project_id is_primary domains cpc_hints in
      section_chunks ← lift (LlamaChunker.chunk_sections (chunker self)
                               (Extractors.sections extracted) base_metadata);
      table_chunks ← lift (LlamaChunker.chunk_tables (chunker self)
                             (Extractors.tables extracted) base_metadata);
      let all_chunks := section_chunks ++ table_chunks in
      (* Stage 4: generate embeddings *)
      _update_progress progress_callback EMBEDDING 70 None;;
      let chunk_texts := map LlamaChunker.text all_chunks in
      embeddings ← lift (PatentEmbedder.generate_embeddings (embedder self)
                           chunk_texts PatentEmbedder.default_batch_size);
      (* Stage 5: store in database *)
      _update_progress progress_callback STORING 85 None;;
      add_all self document_id (zip all_chunks embeddings);;
      db_write self (set_processing_status "completed") document_id;;
      now ← datetime_utcnow;
      db_write self (set_processed_at (Some now)) document_id;;
      current ← db_read self document_id;
      db_write self
        (set_metadata
           (merged_metadata self extracted domains technical_terms cpc_hints
                            all_chunks (metadata current)))
        document_id;;
      db_commit self;;
      (* Stage 6: complete *)
      _update_progress progress_callback COMPLETE 100 None;;
      mret (summary document_id extracted domains all_chunks)
  end.

(** The [except Exception as e] clause. *)
Definition process_document_handler (self : t) (document_id : string)
    (progress_callback : option Callback) (e : exn) : M (gmap string pyval) :=
  document ← db_query_first self document_id;
  match document with
  | Some _ =>
      db_write self (set_processing_status "failed") document_id;;
      db_write self (set_processing_error (Some (str_of_exn e))) document_id;;
      db_commit self
  | None => mret tt
  end;;
  _update_progress progress_callback FAILED 0 (Some (str_of_exn e));;
  raise e.

Definition process_document (self : t) (document_id file_path project_id : string)
    (is_primary : bool) (progress_callback : option Callback)
  : M (gmap string pyval) :=
  try_except
    (process_document_body self document_id file_path project_id is_primary
                           progress_callback)
    (process_document_handler self document_id progress_callback).

(** *** Vocabulary of the statements about a run *)

Definition progress_of (s : ProcessingStage) : Z :=
  match s with
  | EXTRACTING => 20
  | CLASSIFYING => 35
  | CHUNKING => 50
  | EMBEDDING => 70
  | STORING => 85
  | COMPLETE => 100
  | FAILED => 0
  end.

(** The event announcing a stage. *)
Definition announcement (s : ProcessingStage) : ProcessingProgressUpdate :=
  progress_event s (progress_of s) None.

Definition complete_event : ProcessingProgressUpdate :=
  progress_event COMPLETE 100 None.

Definition failed_event (e : exn) : ProcessingProgressUpdate :=
  progress_event FAILED 0 (Some (str_of_exn e)).

(** A terminal event is a [complete] or a [failed] one. *)
Definition is_terminal (ev : ProcessingProgressUpdate) : bool :=
  bool_decide (Schemas.stage ev = "complete")
  || bool_decide (Schemas.stage ev = "failed").

Definition terminal_events (evs : list ProcessingProgressUpdate)
  : list ProcessingProgressUpdate :=
  List.filter is_terminal evs.

(** The events that reach a callback: all of them, or none without one. *)
Definition emitted (callback : option Callback)
    (evs : list ProcessingProgressUpdate) : list ProcessingProgressUpdate :=
  match callback with
  | Some _ => evs
  | None => []
  end.

Definition returns_normally (callback : option Callback) : Prop :=
  forall call, callback = Some call -> forall ev, call ev = Ok tt.

(** What the stages produced. *)
Record Staged := {
  extracted : Extractors.ExtractedContent;
  domains : list string;
  technical_terms : list string;
  cpc_hints : list string;
  all_chunks : list LlamaChunker.Chunk;
  embeddings : list PatentEmbedder.vector
}.

(** The collaborators called in stage order: the stages entered, and what
    they produced or the exception of the first one that raised. *)
Definition run_stages (self : t) (document_id file_path project_id : string)
    (is_primary : bool) : list ProcessingStage * result Staged :=
  match Extractors.extract (extractor self) file_path with
  | Raise e => ([EXTRACTING], Raise e)
  | Ok extracted =>
      let domains :=
        DomainClassifier.classify (Extractors.full_text extracted)
                                  DomainClassifier.default_min_keywords in
      let technical_terms :=
        DomainClassifier.extract_technical_terms
          (Extractors.full_text extracted) DomainClassifier.default_max_terms in
      let cpc_hints := DomainClassifier.get_cpc_hints (classifier self) domains in
      let base_metadata :=
        base_metadata_of document_id project_id is_primary domains cpc_hints in
      match LlamaChunker.chunk_sections (chunker self)
              (Extractors.sections extracted) base_metadata with
      | Raise e => ([EXTRACTING; CLASSIFYING; CHUNKING], Raise e)
      | Ok section_chunks =>
          match LlamaChunker.chunk_tables (chunker self)
                  (Extractors.tables extracted) base_metadata with
          | Raise e => ([EXTRACTING; CLASSIFYING; CHUNKING], Raise e)
          | Ok table_chunks =>
              let all_chunks := section_chunks ++ table_chunks in
              match PatentEmbedder.generate_embeddings (embedder self)
                      (map LlamaChunker.text all_chunks)
                      PatentEmbedder.default_batch_size with
              | Raise e => ([EXTRACTING; CLASSIFYING; CHUNKING; EMBEDDING], Raise e)
              | Ok embeddings =>
                  ([EXTRACTING; CLASSIFYING; CHUNKING; EMBEDDING; STORING],
                   Ok {| extracted := extracted; domains := domains;
                         technical_terms := technical_terms;
                         cpc_hints := cpc_hints; all_chunks := all_chunks;
                         embeddings := embeddings |})
              end
          end
      end
  end.

(** The document as a query on the session sees it. *)
Definition current (db : Session) (document_id : string) : option Document :=
  fst (query_first db document_id).

(** What a query for the document answers: the Store may raise. *)
Definition queried (self : t) (db : Session) (document_id : string)
  : result (option Document) :=
  match store self db (Query document_id) with
  | Some e => Raise e
  | None => Ok (current db document_id)
  end.

(** A Store that carries out every call: none of them raises. *)
Definition healthy (self : t) : Prop :=
  forall db c, store self db c = None.

(** The seven keys the pipeline derives. *)
Definition pipeline_keys : list string :=
  ["total_chunks"; "technical_domains"; "technical_terms"; "cpc_hints";
   "has_tables"; "embedding_model"; "embedding_dimension"].

(** The session after the run marked the document as processing. *)
Definition db_processing (db : Session) (document_id : string) : Session :=
  commit (write (set_processing_status "processing") document_id
                (snd (query_first db document_id))).

(** The session after the [except] clause recorded the failure [e]. *)
Definition db_failed (db : Session) (document_id : string) (e : exn) : Session :=
  commit (write (set_processing_error (Some (str_of_exn e))) document_id
            (write (set_processing_status "failed") document_id db)).

(** The session after a run stored what the stages produced for the
    document found as [doc]. *)
Definition db_completed (self : t) (db : Session) (document_id : string)
    (doc : Document) (st : Staged) (now : Z) : Session :=
  commit
    (write (set_metadata
              (merged_metadata self (extracted st) (domains st)
                 (technical_terms st) (cpc_hints st) (all_chunks st)
                 (metadata doc)))
           document_id
       (write (set_processed_at (Some now)) document_id
          (write (set_processing_status "completed") document_id
             (add_list (map (db_chunk document_id)
                            (zip (all_chunks st) (embeddings st)))
                       (db_processing db document_id))))).

(** *** A small deployment to run the pipeline on *)

Definition first_seen : DomainClassifier.set_order :=
  {| DomainClassifier.list_of_set := remove_dups;
     DomainClassifier.list_of_set_nodup := NoDup_remove_dups;
     DomainClassifier.list_of_set_elem := elem_of_remove_dups |}.

Definition sample_content : Extractors.ExtractedContent :=
  {| Extractors.sections := LlamaChunker.one_section;
     Extractors.tables := LlamaChunker.one_table;
     Extractors.metadata := ∅;
     Extractors.full_text := "alpha beta gamma delta";
     Extractors.has_tables := true |}.

(** A Store that carries out every call. *)
Definition reliable_store : Store := fun _ _ => None.

Definition sample_pipeline : t :=
  {| store := reliable_store;
     extractor := {| Extractors.extract _ := Ok sample_content;
                     Extractors.supports_file_type _ := true |};
     chunker := LlamaChunker.whole_splitter;
     embedder := PatentEmbedder.length_embedder;
     classifier := first_seen |}.

Definition unreadable : exn := Exn "ValueError" "cannot partition file".

(** The same deployment with an extractor that raises. *)
Definition failing_pipeline : t :=
  {| store := reliable_store;
     extractor := {| Extractors.extract _ := Raise unreadable;
                     Extractors.supports_file_type _ := true |};
     chunker := LlamaChunker.whole_splitter;
     embedder := PatentEmbedder.length_embedder;
     classifier := first_seen |}.

(** The sample deployment on another Store. *)
Definition on_store (s : Store) : t :=
  {| store := s;
     extractor := extractor sample_pipeline;
     chunker := chunker sample_pipeline;
     embedder := embedder sample_pipeline;
     classifier := classifier sample_pipeline |}.

Definition store_down : exn := Exn "OperationalError" "connection to the store lost".

(** A Store on which no commit goes through. *)
Definition no_commit_store : Store :=
  fun _ c => match c with Commit => Some store_down | _ => None end.



Definition sample_document : Document :=
  {| id := "doc-1"; project_id := "proj-1"; storage_path := "/tmp/documents/a.pdf";
     processing_status := "pending"; processing_error := None;
     metadata := {[ "is_primary" := VBool false;
                    "original_filename" := VStr "a.pdf" ]};
     processed_at := None |}.

Definition sample_world : World :=
  {| db := {| rows := {[ "doc-1" := sample_document ]}; chunk_rows := [];
              loaded := ∅; added := [] |};
     published := [];
     utcnow := 1700000000 |}.



(** A callback that always returns. *)
Definition quiet_callback : Callback := fun _ => Ok tt.

(** A callback that raises when it is handed the [complete] event. *)
Definition late_failing_callback : Callback :=
  fun ev =>
    if bool_decide (Schemas.stage ev = "complete")
    then Raise (Exn "RuntimeError" "observer went away")
    else Ok tt.

End Pipeline.


(** ** Inputs for the statements about the embedder *)

Module PatentEmbedderInputs.
Import PatentEmbedder.

Definition too_long : exn := Exn "ValueError" "text exceeds the model's window".

(** A model that refuses any batch holding a text of more than two
    characters. *)
Definition short_only_model : HuggingFaceEmbedding :=
  {| model_name := "AI-Growth-Lab/PatentSBERTa";
     get_text_embedding_batch batch :=
       if forallb (fun text => (String.length text <=? 2)%nat) batch
       then Ok (map length_vector batch)
       else Raise too_long;
     get_text_embedding text := Ok (length_vector text) |}.

Definition short_only_embedder : t :=
  {| embed_model := short_only_model; embedding_dim := 1 |}.

End PatentEmbedderInputs.

(** ** Inputs for the statements about the chunker *)

Module LlamaChunkerInputs.
Import LlamaChunker.

(** A splitter that raises on every call. *)
Definition refusing_splitter : t :=
  {| get_nodes_from_documents docs := Raise (Exn "RuntimeError" "splitter failed") |}.

End LlamaChunkerInputs.

(** ** Vocabulary of the statements about chunk metadata *)

Module ChunkTags.
Import LlamaChunker.

(** The keys [chunk_sections] sets on top of the base metadata. *)
Definition section_keys : list string :=
  ["section_type"; "node_id"; "local_chunk_index"; "total_chunks_in_section"].

(** The keys [chunk_tables] sets on top of the base metadata. *)
Definition table_keys : list string :=
  ["section_type"; "table_index"; "table_metadata"].

Definition section_chunk_tagged (base : gmap string pyval) (c : Chunk) : Prop :=
  metadata c !! "section_type" = Some (VStr (section_type c)) /\
  (exists i n,
      metadata c !! "local_chunk_index" = Some (VInt i) /\
      metadata c !! "total_chunks_in_section" = Some (VInt n) /\
      0 <= i < n) /\
  forall k, k ∉ section_keys -> metadata c !! k = base !! k.

Definition table_chunk_tagged (base : gmap string pyval) (c : Chunk) : Prop :=
  section_type c = "table" /\
  metadata c !! "section_type" = Some (VStr "table") /\
  metadata c !! "table_index" = Some (VInt (chunk_index c)) /\
  forall k, k ∉ table_keys -> metadata c !! k = base !! k.

End ChunkTags.

(** ** Vocabulary of further statements about a run *)

Module PipelineOrder.
Import Pipeline.

(** The stages in the order a run enters them. *)
Definition stage_order : list ProcessingStage :=
  [EXTRACTING; CLASSIFYING; CHUNKING; EMBEDDING; STORING].

(** What [late_failing_callback] raises. *)
Definition observer_gone : exn := Exn "RuntimeError" "observer went away".

End PipelineOrder.

(** ** Publishing a sequence of events *)

Module Publishing.
Import ConnectionManager.

(** One [send_progress] after another, for the same document: the manager
    is threaded through and the attempted sends are collected in order. *)
Definition publish_step (net : Transport) (document_id : string)
    (st : t * list Attempt) (d : data) : t * list Attempt :=
  let '(self, log) := st in
  let '(_, self', log') := send_progress net self document_id d in
  (self', log ++ log').

Definition publish_all (net : Transport) (self : t) (document_id : string)
    (events : list data) : t * list Attempt :=
  fold_left (publish_step net document_id) events (self, []).

(** The payloads of the sends attempted to one connection, in order. *)
Definition received (c : WebSocket) (log : list Attempt) : list data :=
  map payload (List.filter (fun a => bool_decide (to a = c)) log).

Definition storing_85 : data :=
  {| Schemas.stage := "storing"; Schemas.progress := 85; Schemas.error := None |}.

End Publishing.

(** ** preprocessing/extractors/unstructured_extractor.py *)

Module UnstructuredExtractor.
Import Extractors.

(** An element returned by [partition]: the name of its class, its text, and
    its metadata as a dict ([None] when the element has none or it is
    empty). *)
Record Element := {
  type_name : string;
  text : string;
  element_metadata : option (list (string * pyval))
}.

(** [s.replace(' ', '_')] *)
Fixpoint replace_spaces (s : string) : string :=
  match s with
  | EmptyString => EmptyString
  | String c s' =>
      String (if Ascii.eqb c " "%char then "_"%char else c) (replace_spaces s')
  end.

(** [s[:n]] on a string. *)
Fixpoint str_take (n : nat) (s : string) : string :=
  match n, s with
  | S n', String c s' => String c (str_take n' s')
  | _, _ => EmptyString
  end.

(** [element.text.lower().replace(' ', '_')[:50]] *)
Definition section_name_of (title : string) : string :=
  str_take 50 (replace_spaces (DomainClassifier.lower title)).

(** [k in d] on an insertion-ordered dict. *)
Definition dict_has {V : Type} (d : list (string * V)) (k : string) : bool :=
  bool_decide (k ∈ map fst d).

(** [d[k]] when present. *)
Fixpoint dict_get {V : Type} (d : list (string * V)) (k : string) : option V :=
  match d with
  | [] => None
  | (k', v) :: d' => if decide (k' = k) then Some v else dict_get d' k
  end.

(** [d[k].append(x)] for a key that is present. *)
Fixpoint dict_append (d : list (string * list string)) (k x : string)
  : list (string * list string) :=
  match d with
  | [] => []
  | (k', v) :: d' =>
      if decide (k' = k) then (k', v ++ [x]) :: d' else (k', v) :: dict_append d' k x
  end.

Definition _extract_element_metadata (element : Element) : pyval :=
  match element_metadata element with
  | Some d => VDict d
  | None => VDict []
  end.

(** The locals of [_organize_elements]. *)
Record Organizing := {
  sections : list (string * list string);
  tables : list (gmap string pyval);
  all_text : list string;
  current_section : string
}.

(** The branch shared by [NarrativeText] and [ListItem]. *)
Definition add_text (st : Organizing) (element : Element) : Organizing :=
  let sections1 :=
    if dict_has (sections st) (current_section st) then sections st
    else DomainClassifier.dict_set (sections st) (current_section st) [] in
  {| sections := dict_append sections1 (current_section st) (text element);
     tables := tables st;
     all_text := all_text st ++ [text element];
     current_section := current_section st |}.

(** The body of the loop of [_organize_elements]. *)
Definition organize_step (st : Organizing) (element : Element) : Organizing :=
  let element_type := type_name element in
  if decide (element_type = "Title") then
    let section_name := section_name_of (text element) in
    {| sections := DomainClassifier.dict_set (sections st) section_name [];
       tables := tables st;
       all_text := all_text st ++ [text element];
       current_section := section_name |}
  else if decide (element_type = "NarrativeText") then add_text st element
  else if decide (element_type = "Table") then
    {| sections := sections st;
       tables := tables st ++ [ {[ "text" := VStr (text element);
                                 "metadata" := _extract_element_metadata element ]} ];
       all_text := all_text st ++ [text element];
       current_section := current_section st |}
  else if decide (element_type = "ListItem") then add_text st element
  else st.

Definition organizing_start : Organizing :=
  {| sections := [("introduction", [])]; tables := []; all_text := [];
     current_section := "introduction" |}.

(** The locals when the loop ends. *)
Definition organize_loop (elements : list Element) : Organizing :=
  fold_left organize_step elements organizing_start.

(** The dict [_organize_elements] returns. *)
Record Organized := {
  organized_sections : list (string * list string);
  organized_tables : list (gmap string pyval);
  organized_metadata : gmap string pyval;
  organized_full_text : string
}.

Definition _organize_elements (elements : list Element) : Organized :=
  let st := organize_loop elements in
  {| organized_sections := sections st;
     organized_tables := tables st;
     organized_metadata :=
       {[ "total_sections" := VInt (len (sections st));
          "total_tables" := VInt (len (tables st)) ]};
     organized_full_text :=
       join (String newline (String newline "")) (all_text st) |}.

(** [extract], given what [partition] does on a path. *)
Definition extract (partition : string -> result (list Element)) (file_path : string)
  : result ExtractedContent :=
  elements ← partition file_path;
  let organized := _organize_elements elements in
  Ok {| Extractors.sections := organized_sections organized;
        Extractors.tables := organized_tables organized;
        Extractors.metadata := organized_metadata organized;
        Extractors.full_text := organized_full_text organized;
        Extractors.has_tables := 0 <? len (organized_tables organized) |}.

(** *** Vocabulary of the statements about the extractor *)

Definition is_title (e : Element) : bool := bool_decide (type_name e = "Title").

Definition is_table (e : Element) : bool := bool_decide (type_name e = "Table").

(** A [NarrativeText] or a [ListItem]. *)
Definition is_body_text (e : Element) : bool :=
  bool_decide (type_name e = "NarrativeText")
  || bool_decide (type_name e = "ListItem").

(** The four kinds whose text the extractor keeps. *)
Definition is_kept (e : Element) : bool :=
  is_title e || is_body_text e || is_table e.

Definition titled (name : string) (e : Element) : bool :=
  is_title e && bool_decide (section_name_of (text e) = name).

(** The entry of [tables] made from a [Table] element. *)
Definition table_of (e : Element) : gmap string pyval :=
  {[ "text" := VStr (text e); "metadata" := _extract_element_metadata e ]}.

(** The elements [pre] end by opening the section [name]: their last one is
    a title of that name, or there is none and the name is the initial one. *)
Definition opens (name : string) (pre : list Element) : bool :=
  match last pre with
  | Some t => titled name t
  | None => bool_decide (name = "introduction")
  end.

(** The names of the sections the titles among [elements] open, in order. *)
Definition title_names (elements : list Element) : list string :=
  map (fun e => section_name_of (text e)) (List.filter is_title elements).

Definition title (t : string) : Element :=
  {| type_name := "Title"; text := t; element_metadata := None |}.

Definition narrative (t : string) : Element :=
  {| type_name := "NarrativeText"; text := t; element_metadata := None |}.

Definition page_footer (t : string) : Element :=
  {| type_name := "Footer"; text := t; element_metadata := None |}.

Definition sample_elements : list Element :=
  [narrative "a"; title "My Part"; narrative "b"; page_footer "1";
   title "Other"; title "my part"; narrative "c"; narrative "d"; title "End"].

End UnstructuredExtractor.

(** ** my_files/preprocessing/extractors/unstructured_extractor.py *)

Module TableText.

(** [len(s)] on a string, as a Python int. *)
Definition str_len (s : string) : Z := Z.of_nat (String.length s).

(** [n] spaces. *)
Fixpoint spaces (n : nat) : string :=
  match n with
  | O => EmptyString
  | S n' => String " "%char (spaces n')
  end.

(** [s.ljust(width)]: spaces are added on the right up to [width]; a string
    that is already that long is returned as it is. *)
Definition ljust (s : string) (width : Z) : string :=
  String.append s (spaces (Z.to_nat (width - str_len s))).

Definition index_error : exn := Exn "IndexError" "list index out of range".

(** [l[i]] for [0 <= i]. *)
Definition getitem {A : Type} (l : list A) (i : Z) : result A :=
  match l !! Z.to_nat i with
  | Some x => Ok x
  | None => Raise index_error
  end.

(** [[str(cell) if cell is not None else "" for cell in row]], the cells
    being strings or [None]. *)
Definition clean_row (row : list (option string)) : list string :=
  map (fun cell => match cell with Some s => s | None => "" end) row.

(** [col_widths[i] = max(col_widths[i], len(cell))] *)
Definition width_step (col_widths : list Z) (item : Z * string) : result (list Z) :=
  let '(i, cell) := item in
  w ← getitem col_widths i;
  Ok (<[Z.to_nat i := Z.max w (str_len cell)]> col_widths).

(** The inner loop over the cells of one row. *)
Definition widths_row (col_widths : list Z) (row : list string) : result (list Z) :=
  for_each width_step (enumerate row) col_widths.

(** [cell.ljust(col_widths[i]) for i, cell in enumerate(row)] *)
Definition pad_step (col_widths : list Z) (cells : list string) (item : Z * string)
  : result (list string) :=
  let '(i, cell) := item in
  w ← getitem col_widths i;
  Ok (cells ++ [ljust cell w]).

Definition format_row (col_widths : list Z) (row : list string) : result string :=
  cells ← for_each (pad_step col_widths) (enumerate row) [];
  Ok (join " | " cells).

Definition line_step (col_widths : list Z) (lines : list string) (row : list string)
  : result (list string) :=
  formatted_row ← format_row col_widths row;
  Ok (lines ++ [formatted_row]).

Definition _table_to_text (table : list (list (option string))) : result string :=
  match table with
  | [] => Ok ""
  | _ :: _ =>
      let cleaned_table := map clean_row table in
      match cleaned_table with
      | [] => Ok ""
      | first_row :: _ =>
          col_widths ← for_each widths_row cleaned_table
                         (replicate (length first_row) 0);
          lines ← for_each (line_step col_widths) cleaned_table [];
          Ok (join (String newline "") lines)
      end
  end.

(** *** Vocabulary of the statements about the table text *)

(** No row has more cells than the first one. *)
Definition fits_first_row (table : list (list (option string))) : bool :=
  forallb (fun row => (length row <=? length (hd [] table))%nat) table.

(** The widths after one more row: each grows to the row's cell in its
    column, if the row has one. *)
Fixpoint widen (col_widths : list Z) (row : list string) : list Z :=
  match col_widths, row with
  | w :: col_widths', cell :: row' => Z.max w (str_len cell) :: widen col_widths' row'
  | _, _ => col_widths
  end.

(** The widths of the columns of a table. *)
Definition column_widths (table : list (list (option string))) : list Z :=
  fold_left widen (map clean_row table) (replicate (length (hd [] table)) 0).

(** One line of the text: the row's cells, each padded to its column. *)
Definition line_of (col_widths : list Z) (row : list (option string)) : string :=
  join " | " (zip_with ljust (clean_row row) col_widths).

(** Whether a string holds a newline character. *)
Fixpoint has_newline (s : string) : bool :=
  match s with
  | EmptyString => false
  | String c s' => Ascii.eqb c newline || has_newline s'
  end.

(** [s.split("\n")]: the lines of a text; [line] is the one being read. *)
Fixpoint lines_go (s : string) (line : string) : list string :=
  match s with
  | EmptyString => [line]
  | String c s' =>
      if Ascii.eqb c newline then line :: lines_go s' ""
      else lines_go s' (String.append line (String c ""))
  end.

Definition split_lines (s : string) : list string := lines_go s "".

Definition sample_table : list (list (option string)) :=
  [[Some "name"; Some "qty"]; [Some "bolt"; None]; [Some "washer"; Some "12"]].

Definition ragged_table : list (list (option string)) :=
  [[Some "a"]; [Some "b"; Some "c"]].

End TableText.

(** * Lengths and ranges *)

Lemma len_cons {A} (x : A) (l : list A) : len (x :: l) = len l + 1.
Proof. unfold len; simpl length; lia. Qed.

Lemma len_app {A} (l1 l2 : list A) : len (l1 ++ l2) = len l1 + len l2.
Proof. unfold len; rewrite length_app; lia. Qed.

Lemma len_nonneg {A} (l : list A) : 0 <= len l.
Proof. unfold len; lia. Qed.

Lemma seqZ_len_cons {A} (g : Z) (x : A) (l : list A) :
  seqZ g (len (x :: l)) = g :: seqZ (g + 1) (len l).
Proof.
  rewrite len_cons, seqZ_cons by (pose proof (len_nonneg l); lia).
  f_equal; f_equal; lia.
Qed.

Lemma seqZ_len_app {A} (g : Z) (l1 l2 : list A) :
  seqZ g (len (l1 ++ l2)) = seqZ g (len l1) ++ seqZ (g + len l1) (len l2).
Proof.
  rewrite len_app. apply seqZ_app; apply len_nonneg.
Qed.

Lemma len_map {A B} (f : A -> B) (l : list A) : len (map f l) = len l.
Proof. unfold len; now rewrite length_map. Qed.

(** * The chunker *)

Module LlamaChunkerFacts.
Import LlamaChunker.

(** The inner loop appends one chunk per node, numbered from the counter. *)
Lemma section_chunks_loop base name nodes0 nodes i acc g st' :
  for_each (section_chunk_step base name nodes0) (enumerate_from i nodes) (acc, g)
    = Ok st' ->
  exists new,
    st' = (acc ++ new, g + len nodes) /\
    contiguous_from g new /\
    map labelled new = map (fun n => (name, node_text n)) nodes /\
    Forall token_ok new.
Proof.
  revert i acc g; induction nodes as [|n nodes IH]; intros i acc g; simpl.
  - intros [= <-]. exists []. rewrite app_nil_r, Z.add_0_r.
    repeat split; constructor.
  - destruct (_estimate_tokens (node_text n)) as [tk|e] eqn:Htk; simpl; [|done].
    intros Hrest. apply IH in Hrest as (new & -> & Hidx & Hlab & Htok).
    eexists (_ :: new). rewrite <- app_assoc; simpl.
    assert (Hlen : len new = len nodes).
    { rewrite <- (len_map labelled), Hlab. apply len_map. }
    repeat split.
    + f_equal. rewrite len_cons. lia.
    + unfold contiguous_from in *. simpl map.
      rewrite seqZ_len_cons. f_equal. exact Hidx.
    + simpl. f_equal. exact Hlab.
    + constructor; [exact Htk | exact Htok].
Qed.

(** The outer loop: the sections that have text are split in order and
    their pieces numbered consecutively. *)
Lemma sections_loop self base sections acc g st' :
  for_each (section_step self base) sections (acc, g) = Ok st' ->
  exists new splits,
    st' = (acc ++ new, g + len new) /\
    contiguous_from g new /\
    Forall2 (split_of self base)
            (List.filter (fun sec => has_text (snd sec)) sections) splits /\
    map labelled new = pieces splits /\
    Forall token_ok new.
Proof.
  revert acc g; induction sections as [|[name texts] sections IH]; intros acc g.
  - simpl. intros [= <-]. exists [], []. rewrite app_nil_r, Z.add_0_r.
    repeat split; constructor.
  - cbn [for_each]. destruct texts as [|t texts].
    + cbn. apply IH.
    + cbn [section_step].
      destruct (get_nodes_from_documents self
                  [section_doc base name (t :: texts)]) as [nodes|e] eqn:Hsplit;
        [|done].
      cbn [mbind result_bind].
      destruct (for_each (section_chunk_step base name nodes) (enumerate nodes)
                  (acc, g)) as [st1|e] eqn:Hinner; [|done].
      apply section_chunks_loop in Hinner as (new1 & -> & Hidx1 & Hlab1 & Htok1).
      intros Hrest.
      apply IH in Hrest as (new2 & splits & -> & Hidx2 & Hsp & Hlab2 & Htok2).
      assert (Hlen : len new1 = len nodes).
      { rewrite <- (len_map labelled), Hlab1. apply len_map. }
      exists (new1 ++ new2), ((name, nodes) :: splits).
      rewrite <- app_assoc. repeat split.
      * f_equal. rewrite len_app. lia.
      * unfold contiguous_from in *.
        rewrite map_app, seqZ_len_app, Hidx1, Hidx2, Hlen. done.
      * cbn. constructor; [split; done | exact Hsp].
      * rewrite map_app, Hlab1, Hlab2. done.
      * apply Forall_app; done.
Qed.

(** The table loop: one chunk per table, numbered by its position. *)
Lemma tables_loop base tables i acc st' :
  for_each (table_step base) (enumerate_from i tables) acc = Ok st' ->
  exists new,
    st' = acc ++ new /\
    contiguous_from i new /\
    Forall2 (fun table c => table_text table = Ok (text c)
                            /\ section_type c = "table") tables new /\
    Forall token_ok new.
Proof.
  revert i acc; induction tables as [|tb tables IH]; intros i acc; simpl.
  - intros [= <-]. exists []. rewrite app_nil_r. repeat split; constructor.
  - destruct (table_text tb) as [txt|e] eqn:Htxt; simpl; [|done].
    destruct (_estimate_tokens txt) as [tk|e] eqn:Htk; simpl; [|done].
    intros Hrest. apply IH in Hrest as (new & -> & Hidx & Hall & Htok).
    eexists (_ :: new). rewrite <- app_assoc; simpl.
    assert (Hlen : length new = length tables)
      by (symmetry; eapply Forall2_length; exact Hall).
    repeat split.
    + unfold contiguous_from in *. simpl map. rewrite seqZ_len_cons.
      f_equal. exact Hidx.
    + constructor; [split; done | exact Hall].
    + constructor; [exact Htk | exact Htok].
Qed.

Lemma estimate_agrees_upto :
  forallb estimate_agrees (seqZ 0 (words_checked + 1)) = true.
Proof. vm_compute. reflexivity. Qed.

(** Up to [words_checked] words the double product, truncated, is the exact
    floor of 133/100 of the word count. *)
Lemma estimate_is_floor (txt : string) (tokens : Z) :
  len (split txt) <= words_checked ->
  _estimate_tokens txt = Ok tokens ->
  tokens = floor_estimate (len (split txt)).
Proof.
  intros Hle Hest.
  assert (Hin : len (split txt) ∈ seqZ 0 (words_checked + 1)).
  { apply elem_of_seqZ. pose proof (len_nonneg (split txt)). lia. }
  pose proof estimate_agrees_upto as Hall.
  rewrite forallb_forall in Hall.
  apply list_elem_of_In, Hall in Hin.
  unfold estimate_agrees in Hin. unfold _estimate_tokens in Hest.
  rewrite Hest in Hin. apply Z.eqb_eq in Hin. exact Hin.
Qed.

(** C2, as stated, fails: with one section chunk and one table chunk the
    produced sequence carries the indices 0, 0, which are neither the
    contiguous range 0, 1 nor unique within the document. *)
Lemma table_indices_restart :
  exists sc tc,
    chunk_sections whole_splitter one_section ∅ = Ok sc /\
    chunk_tables whole_splitter one_table ∅ = Ok tc /\
    map chunk_index (sc ++ tc) = [0; 0] /\
    ~ contiguous_from 0 (sc ++ tc) /\
    ~ NoDup (map chunk_index (sc ++ tc)).
Proof.
  eexists; eexists.
  split; [reflexivity|]. split; [reflexivity|].
  split; [reflexivity|]. split.
  - unfold contiguous_from. vm_compute. discriminate.
  - intros Hnd. apply NoDup_cons in Hnd as [Hnotin _].
    apply Hnotin. vm_compute. left.
Qed.

(** C2, amended: the section chunks carry the contiguous zero-based range in
    section-iteration order then local-split order; the table chunks, which
    follow them in the produced sequence, carry a zero-based range of their
    own in table order and are tagged "table". *)
Theorem chunk_indices_per_pass self sections tables base sc tc :
  chunk_sections self sections base = Ok sc ->
  chunk_tables self tables base = Ok tc ->
  map chunk_index (sc ++ tc) = seqZ 0 (len sc) ++ seqZ 0 (len tc) /\
  (exists splits,
      Forall2 (split_of self base)
              (List.filter (fun sec => has_text (snd sec)) sections) splits /\
      map labelled sc = pieces splits) /\
  Forall2 (fun table c => table_text table = Ok (text c)
                          /\ section_type c = "table") tables tc.
Proof.
  unfold chunk_sections, chunk_tables, enumerate.
  destruct (for_each (section_step self base) sections ([], 0)) as [st|e] eqn:Hs;
    [|done].
  apply sections_loop in Hs as (new & splits & -> & Hidx & Hsp & Hlab & _).
  cbn. intros [= <-] Ht.
  apply tables_loop in Ht as (newt & -> & Hidxt & Hall & _).
  cbn. repeat split.
  - rewrite map_app. unfold contiguous_from in *. rewrite Hidx, Hidxt. done.
  - exists splits. done.
  - exact Hall.
Qed.

Lemma chunk_indices_per_pass_witness :
  exists sc tc,
    chunk_sections whole_splitter one_section ∅ = Ok sc /\
    chunk_tables whole_splitter one_table ∅ = Ok tc /\
    map chunk_index (sc ++ tc) = seqZ 0 (len sc) ++ seqZ 0 (len tc).
Proof.
  eexists; eexists.
  split; [reflexivity|]. split; [reflexivity|].
  apply (chunk_indices_per_pass whole_splitter one_section one_table ∅);
    reflexivity.
Defined.

(** C8, as stated, fails: a table of two words gets the token count 2, while
    [round(2 * 1.33)] is 3. *)
Lemma token_count_not_rounded :
  exists c,
    chunk_tables whole_splitter one_table ∅ = Ok [c] /\
    token_count c = 2 /\
    round_estimate (text c) = Ok 3 /\
    round_estimate (text c) <> Ok (token_count c).
Proof.
  eexists. split; [reflexivity|]. split; [reflexivity|].
  split; [vm_compute; reflexivity|]. vm_compute. discriminate.
Qed.

(** C8, amended: every chunk's token count is [int(word_count * 1.33)], the
    double product truncated toward zero; up to [words_checked] words
    that is the floor of 133/100 of the word count. *)
Theorem token_count_truncated self sections tables base sc tc :
  chunk_sections self sections base = Ok sc ->
  chunk_tables self tables base = Ok tc ->
  Forall (fun c =>
            Float64.to_int
              (Float64.mul (Float64.of_int (len (split (text c)))) Float64.c1_33)
              = Ok (token_count c) /\
            (len (split (text c)) <= words_checked ->
             token_count c = floor_estimate (len (split (text c)))))
         (sc ++ tc).
Proof.
  unfold chunk_sections, chunk_tables, enumerate.
  destruct (for_each (section_step self base) sections ([], 0)) as [st|e] eqn:Hs;
    [|done].
  apply sections_loop in Hs as (new & splits & -> & _ & _ & _ & Htok).
  cbn. intros [= <-] Ht.
  apply tables_loop in Ht as (newt & -> & _ & _ & Htokt).
  cbn. apply Forall_app. split.
  - eapply Forall_impl; [exact Htok|]. intros c Hc. split; [exact Hc|].
    intros Hle. eapply estimate_is_floor; eauto.
  - eapply Forall_impl; [exact Htokt|]. intros c Hc. split; [exact Hc|].
    intros Hle. eapply estimate_is_floor; eauto.
Qed.

Lemma token_count_truncated_witness :
  exists sc tc,
    chunk_sections whole_splitter one_section ∅ = Ok sc /\
    chunk_tables whole_splitter one_table ∅ = Ok tc /\
    Forall (fun c =>
            Float64.to_int
              (Float64.mul (Float64.of_int (len (split (text c)))) Float64.c1_33)
              = Ok (token_count c) /\
            (len (split (text c)) <= words_checked ->
             token_count c = floor_estimate (len (split (text c)))))
         (sc ++ tc).
Proof.
  eexists; eexists.
  split; [reflexivity|]. split; [reflexivity|].
  apply (token_count_truncated whole_splitter one_section one_table ∅);
    reflexivity.
Defined.

End LlamaChunkerFacts.

(** * The embedder *)

Module PatentEmbedderFacts.
Import PatentEmbedder.

Lemma slice_drop {A} (l : list A) (i n : Z) :
  0 <= i -> 0 <= n ->
  slice l i (i + n) ++ drop (Z.to_nat (i + n)) l = drop (Z.to_nat i) l.
Proof.
  intros Hi Hn. unfold slice.
  set (k := (Z.to_nat (Z.min (i + n) (len l)) - Z.to_nat i)%nat).
  assert (Hd : drop (Z.to_nat (i + n)) l = drop k (drop (Z.to_nat i) l)).
  { rewrite drop_drop. unfold k, len.
    destruct (decide (i + n <= Z.of_nat (length l))).
    - f_equal. lia.
    - rewrite !drop_ge by lia. done. }
  rewrite Hd. apply take_drop.
Qed.

Lemma slice_length {A} (l : list A) (i n : Z) :
  0 <= i -> 1 <= n -> i < len l ->
  (0 < length (slice l i (i + n)))%nat /\ len (slice l i (i + n)) <= n.
Proof.
  intros Hi Hn Hlt. unfold slice, len in *.
  rewrite length_take, length_drop. lia.
Qed.

Section Batches.
Variables (self : t) (corr : string -> vector -> Prop).
Variables (texts : list string) (batch_size : Z).
Hypothesis Hsize : 1 <= batch_size.
Hypothesis Hmodel : forall batch : list string,
    batch <> [] -> len batch <= batch_size ->
    exists vs, get_text_embedding_batch (embed_model self) batch = Ok vs
               /\ Forall2 corr batch vs.

(** From offset [i] on, the loop appends the embeddings of the remaining
    texts, in order. *)
Lemma batches_loop (fuel : nat) :
  forall (i : Z) (acc : list vector),
    0 <= i -> (Z.to_nat (len texts - i) <= fuel)%nat ->
    exists vs,
      for_each (batch_step self texts batch_size)
               (range_up fuel i (len texts) batch_size) acc = Ok (acc ++ vs)
      /\ Forall2 corr (drop (Z.to_nat i) texts) vs.
Proof.
  induction fuel as [|fuel IH]; intros i acc Hi Hfuel.
  - exists []. simpl. rewrite app_nil_r. split; [done|].
    rewrite drop_ge by (unfold len in *; lia). constructor.
  - simpl. destruct (Z.ltb_spec i (len texts)) as [Hlt|Hge].
    + cbn [for_each].
      destruct (slice_length texts i batch_size Hi Hsize Hlt) as [Hpos Hle].
      destruct (Hmodel (slice texts i (i + batch_size))) as (vs1 & Hvs1 & Hc1).
      { intros Hnil. rewrite Hnil in Hpos. simpl in Hpos. lia. }
      { exact Hle. }
      assert (Hstep : batch_step self texts batch_size acc i = Ok (acc ++ vs1)).
      { unfold batch_step. rewrite Hvs1. done. }
      rewrite Hstep. cbn [mbind result_bind].
      destruct (IH (i + batch_size) (acc ++ vs1)) as (vs2 & -> & Hc2);
        [lia | lia |].
      exists (vs1 ++ vs2). rewrite app_assoc. split; [done|].
      rewrite <- (slice_drop texts i batch_size) by lia.
      apply Forall2_app; done.
    + exists []. simpl. rewrite app_nil_r. split; [done|].
      rewrite drop_ge by (unfold len in *; lia). constructor.
Qed.
End Batches.

(** C4: for every list of texts and every batch size of at least 1 (larger
    than the input included), [generate_embeddings] returns one embedding per
    text, the i-th belonging to the i-th text, provided the model does so on
    each batch it is handed. *)
Theorem generate_embeddings_aligned (self : t) (corr : string -> vector -> Prop)
    (texts : list string) (batch_size : Z) :
  1 <= batch_size ->
  (forall batch : list string,
      batch <> [] -> len batch <= batch_size ->
      exists vs, get_text_embedding_batch (embed_model self) batch = Ok vs
                 /\ Forall2 corr batch vs) ->
  exists embeddings,
    generate_embeddings self texts batch_size = Ok embeddings /\
    Forall2 corr texts embeddings.
Proof.
  intros Hsize Hmodel. unfold generate_embeddings.
  destruct (decide (texts = [])) as [->|Hne].
  - exists []. split; [done | constructor].
  - assert (Hgo : exists embeddings,
               _generate_batch self texts batch_size = Ok embeddings /\
               Forall2 corr texts embeddings).
    { unfold _generate_batch, py_range.
      destruct (Z.eqb_spec batch_size 0) as [?|_]; [lia|].
      destruct (Z.ltb_spec 0 batch_size) as [_|?]; [|lia].
      cbn [mbind result_bind].
      destruct (batches_loop self corr texts batch_size Hsize Hmodel
                  (Z.to_nat (len texts - 0)) 0 [])
        as (vs & Hrun & Hcorr); [lia | lia |].
      exists vs. split; [exact Hrun | exact Hcorr]. }
    destruct texts; [done | exact Hgo].
Qed.

Lemma generate_embeddings_aligned_witness :
  exists embeddings,
    generate_embeddings length_embedder ["ab"; "c"; "def"] 2 = Ok embeddings /\
    Forall2 (fun text v => v = length_vector text) ["ab"; "c"; "def"] embeddings.
Proof.
  apply (generate_embeddings_aligned length_embedder
           (fun text v => v = length_vector text) ["ab"; "c"; "def"] 2).
  - lia.
  - intros batch _ _. exists (map length_vector batch). split; [reflexivity|].
    induction batch; constructor; auto.
Defined.

End PatentEmbedderFacts.

(** * The classifier *)

Module DomainClassifierFacts.
Import DomainClassifier.

Lemma dict_set_fresh {V} (d : list (string * V)) k v :
  k ∉ map fst d -> dict_set d k v = d ++ [(k, v)].
Proof.
  induction d as [|[k' v'] d IH]; simpl; intros Hk; [done|].
  apply not_elem_of_cons in Hk as [Hne Hk].
  destruct (decide (k' = k)); [congruence|].
  rewrite IH; done.
Qed.

Lemma scores_fold tl mk doms : forall acc,
  NoDup (map fst acc ++ map fst doms) ->
  fold_left (score_step tl mk) doms acc = acc ++ scored tl mk doms.
Proof.
  unfold scored.
  induction doms as [|[d kws] doms IH]; intros acc Hnd; simpl.
  - now rewrite app_nil_r.
  - assert (Hnd' : NoDup (map fst (acc ++ [(d, matches kws tl)]) ++ map fst doms)).
    { rewrite map_app, <- app_assoc. exact Hnd. }
    destruct (mk <=? matches kws tl) eqn:Hge; simpl.
    + rewrite dict_set_fresh.
      * rewrite IH by exact Hnd'. now rewrite <- app_assoc.
      * apply NoDup_app in Hnd as (_ & Hdisj & _).
        intros Hin. apply (Hdisj d Hin). left.
    + apply IH. apply NoDup_app in Hnd as (Ha & Hdisj & Hd).
      apply NoDup_app. repeat split; [exact Ha | | now apply NoDup_cons in Hd].
      intros x Hx Hx'. apply (Hdisj x Hx). now right.
Qed.

Lemma insert_desc_perm x l : Permutation (insert_desc x l) (x :: l).
Proof.
  induction l as [|y l IH]; simpl; [done|].
  destruct (snd x <? snd y); [|done].
  rewrite IH. apply perm_swap.
Qed.

Lemma sorted_desc_perm l : Permutation (sorted_desc l) l.
Proof.
  induction l as [|x l IH]; simpl; [done|].
  rewrite insert_desc_perm. now constructor.
Qed.

Lemma insert_desc_sorted x l :
  StronglySorted by_score l -> StronglySorted by_score (insert_desc x l).
Proof.
  induction 1 as [|y l Hl IH Hy]; simpl.
  - repeat constructor.
  - destruct (Z.ltb_spec (snd x) (snd y)) as [Hlt|Hge].
    + constructor; [exact IH|].
      rewrite insert_desc_perm. constructor; [unfold by_score; lia | exact Hy].
    + constructor; [now constructor|].
      constructor; [unfold by_score; lia|].
      eapply Forall_impl; [exact Hy|]. unfold by_score. intros z Hz. lia.
Qed.

Lemma sorted_desc_sorted l : StronglySorted by_score (sorted_desc l).
Proof.
  induction l as [|x l IH]; simpl; [constructor | now apply insert_desc_sorted].
Qed.

Lemma sorted_names (f : string -> Z) (l : list (string * Z)) :
  StronglySorted by_score l ->
  Forall (fun e => snd e = f (fst e)) l ->
  StronglySorted (fun a b => f b <= f a) (map fst l).
Proof.
  induction 1 as [|x l Hl IH Hx]; intros Hf; simpl; [constructor|].
  apply Forall_cons in Hf as [Hfx Hfl].
  constructor; [now apply IH|].
  apply Forall_map.
  rewrite Forall_forall in Hx, Hfl. apply Forall_forall. intros z Hz. simpl.
  rewrite <- Hfx, <- (Hfl z Hz). now apply (Hx z Hz).
Qed.

Lemma tech_domains_nodup : NoDup (map fst TECH_DOMAINS).
Proof.
  apply (bool_decide_unpack (NoDup (map fst TECH_DOMAINS))).
  vm_compute. exact I.
Qed.

Lemma find_domain (doms : list (string * list string)) d kws :
  NoDup (map fst doms) -> (d, kws) ∈ doms ->
  List.find (fun item => bool_decide (fst item = d)) doms = Some (d, kws).
Proof.
  induction doms as [|[d' kws'] doms IH]; simpl; intros Hnd Hin.
  - now apply elem_of_nil in Hin.
  - apply NoDup_cons in Hnd as [Hfresh Hnd].
    apply elem_of_cons in Hin as [[= <- <-]|Hin].
    + now rewrite bool_decide_true.
    + rewrite bool_decide_false; [now apply IH|].
      intros ->. apply Hfresh. apply list_elem_of_fmap. now exists (d, kws).
Qed.

Lemma score_of_item text d kws :
  (d, kws) ∈ TECH_DOMAINS -> score_of text d = matches kws (lower text).
Proof.
  intros Hin. unfold score_of.
  now rewrite (find_domain _ _ _ tech_domains_nodup Hin).
Qed.

Lemma domain_scores_eq text mk :
  fold_left (score_step (lower text) mk) TECH_DOMAINS []
    = scored (lower text) mk TECH_DOMAINS.
Proof. rewrite scores_fold; [done | exact tech_domains_nodup]. Qed.

Lemma scored_names tl mk doms :
  map fst (scored tl mk doms)
    = map fst (List.filter (fun item => mk <=? matches (snd item) tl) doms).
Proof. unfold scored. rewrite map_map. done. Qed.

Lemma qualifying_elem text mk d :
  d ∈ qualifying text mk <-> d ∈ map fst TECH_DOMAINS /\ mk <= score_of text d.
Proof.
  unfold qualifying. rewrite !list_elem_of_fmap. split.
  - intros ([d' kws] & -> & Hin). apply list_elem_of_In, filter_In in Hin.
    destruct Hin as [Hin Hge]. apply list_elem_of_In in Hin. cbn [fst snd] in *.
    split; [now exists (d', kws)|].
    rewrite (score_of_item _ _ _ Hin). lia.
  - intros [([d' kws] & -> & Hin) Hge]. cbn [fst snd] in *.
    exists (d', kws). split; [done|].
    apply list_elem_of_In, filter_In. split; [now apply list_elem_of_In|].
    cbn [fst snd]. rewrite (score_of_item _ _ _ Hin) in Hge. lia.
Qed.

Lemma filter_names_nodup {V} (f : string * V -> bool) (doms : list (string * V)) :
  NoDup (map fst doms) -> NoDup (map fst (List.filter f doms)).
Proof.
  induction doms as [|item doms IH]; simpl; intros Hnd; [constructor|].
  apply NoDup_cons in Hnd as [Hfresh Hnd].
  destruct (f item); simpl; [|now apply IH].
  constructor; [|now apply IH].
  intros Hin. apply Hfresh.
  apply list_elem_of_fmap in Hin as (it & -> & Hin).
  apply list_elem_of_In, filter_In in Hin as [Hin _].
  apply list_elem_of_fmap. exists it. split; [done | now apply list_elem_of_In].
Qed.

Lemma qualifying_nodup text mk : NoDup (qualifying text mk).
Proof. apply filter_names_nodup, tech_domains_nodup. Qed.

Lemma sorted_domains_spec text mk :
  Permutation
    (map fst (sorted_desc (fold_left (score_step (lower text) mk) TECH_DOMAINS [])))
    (qualifying text mk) /\
  StronglySorted (fun a b => score_of text b <= score_of text a)
    (map fst (sorted_desc (fold_left (score_step (lower text) mk) TECH_DOMAINS []))).
Proof.
  rewrite domain_scores_eq. split.
  - rewrite sorted_desc_perm. unfold qualifying. now rewrite scored_names.
  - apply sorted_names; [apply sorted_desc_sorted|].
    apply Forall_forall. intros e He.
    rewrite sorted_desc_perm in He. unfold scored in He.
    apply list_elem_of_fmap in He as ([d kws] & -> & Hin). cbn [fst snd].
    apply list_elem_of_In, filter_In in Hin as [Hin _].
    symmetry. apply score_of_item. now apply list_elem_of_In.
Qed.

Lemma or_general_nonempty (names : list string) :
  names <> [] -> match names with [] => ["general"] | _ => names end = names.
Proof. now destruct names. Qed.

(** C10: [classify] never returns the empty list; when no domain reaches the
    threshold it returns exactly ["general"]; otherwise it returns precisely
    the domains that reach it, each once, by descending match count. *)
Theorem classify_spec (text : string) (min_keywords : Z) :
  classify text min_keywords <> [] /\
  ((forall d, d ∈ map fst TECH_DOMAINS -> score_of text d < min_keywords) ->
   classify text min_keywords = ["general"]) /\
  ((exists d, d ∈ map fst TECH_DOMAINS /\ min_keywords <= score_of text d) ->
   NoDup (classify text min_keywords) /\
   (forall d, d ∈ classify text min_keywords <->
              d ∈ map fst TECH_DOMAINS /\ min_keywords <= score_of text d) /\
   StronglySorted (fun a b => score_of text b <= score_of text a)
                  (classify text min_keywords)).
Proof.
  destruct (sorted_domains_spec text min_keywords) as [Hperm Hsorted].
  unfold classify. cbv zeta.
  remember (map fst (sorted_desc
              (fold_left (score_step (lower text) min_keywords) TECH_DOMAINS [])))
    as names eqn:Hnames.
  clear Hnames. split; [destruct names; discriminate|]. split.
  - intros Hnone. destruct names as [|d rest]; [done|].
    assert (Hd : d ∈ qualifying text min_keywords)
      by (rewrite <- Hperm; left).
    apply qualifying_elem in Hd as [Hd Hge]. specialize (Hnone d Hd). lia.
  - intros (d & Hd & Hge).
    assert (Hq : d ∈ names)
      by (rewrite Hperm; apply qualifying_elem; done).
    rewrite or_general_nonempty
      by (intros ->; now apply elem_of_nil in Hq).
    split; [|split].
    + rewrite Hperm. apply qualifying_nodup.
    + intros d'. rewrite Hperm. apply qualifying_elem.
    + exact Hsorted.
Qed.

(** Both calls append the mapped hints of the known domains. *)
Lemma hints_fold (domains : list string) : forall (acc : list string) (h : string),
  h ∈ fold_left hint_step domains acc <->
  h ∈ acc \/ exists d hints, d ∈ domains /\ cpc_mapping !! d = Some hints /\ h ∈ hints.
Proof.
  induction domains as [|d domains IH]; intros acc h; simpl.
  - split; [auto|]. intros [?|(d & hints & Hd & _)]; [done|].
    now apply elem_of_nil in Hd.
  - rewrite IH. unfold hint_step.
    destruct (cpc_mapping !! d) as [hs|] eqn:Hd.
    + rewrite elem_of_app. split.
      * intros [[?|Hh]|(d' & hints & Hd' & Hm & Hh)]; [now left | |].
        -- right. exists d, hs. repeat split; [left | done | done].
        -- right. exists d', hints. repeat split; [now right | done | done].
      * intros [?|(d' & hints & Hd' & Hm & Hh)]; [now left; left|].
        apply elem_of_cons in Hd' as [->|Hd'].
        -- left. right. congruence.
        -- right. now exists d', hints.
    + split.
      * intros [?|(d' & hints & Hd' & Hm & Hh)]; [now left|].
        right. exists d', hints. repeat split; [now right | done | done].
      * intros [?|(d' & hints & Hd' & Hm & Hh)]; [now left|].
        apply elem_of_cons in Hd' as [->|Hd']; [congruence|].
        right. now exists d', hints.
Qed.

Lemma get_cpc_hints_elem order domains h :
  h ∈ get_cpc_hints order domains <->
  exists d hints, d ∈ domains /\ cpc_mapping !! d = Some hints /\ h ∈ hints.
Proof.
  unfold get_cpc_hints. rewrite list_of_set_elem, hints_fold. split.
  - intros [Hnil|?]; [now apply elem_of_nil in Hnil | done].
  - now right.
Qed.

(** C9: two calls of [get_cpc_hints] on the same domain list return the same
    hints as unordered sets, whatever order the interpreter iterates a set
    in; every hint is the static mapping's for some input domain, and
    domains outside the mapping contribute nothing. *)
Theorem get_cpc_hints_deterministic (order1 order2 : set_order)
    (domains : list string) :
  Permutation (get_cpc_hints order1 domains) (get_cpc_hints order2 domains) /\
  (list_to_set (get_cpc_hints order1 domains) : gset string)
    = list_to_set (get_cpc_hints order2 domains) /\
  (forall h, h ∈ get_cpc_hints order1 domains <->
             exists d hints,
               d ∈ domains /\ cpc_mapping !! d = Some hints /\ h ∈ hints) /\
  Permutation (get_cpc_hints order1 domains)
              (get_cpc_hints order1 (List.filter known domains)).
Proof.
  assert (Hsame : forall h, h ∈ get_cpc_hints order1 domains
                            <-> h ∈ get_cpc_hints order2 domains)
    by (intros h; now rewrite !get_cpc_hints_elem).
  repeat split.
  - apply NoDup_Permutation; [apply list_of_set_nodup.. | exact Hsame].
  - apply set_eq. intros h. rewrite !elem_of_list_to_set. apply Hsame.
  - now apply get_cpc_hints_elem.
  - now apply get_cpc_hints_elem.
  - apply NoDup_Permutation; [apply list_of_set_nodup.. |].
    intros h. rewrite !get_cpc_hints_elem. split.
    + intros (d & hints & Hd & Hm & Hh). exists d, hints. repeat split; try done.
      apply list_elem_of_In, filter_In. split; [now apply list_elem_of_In|].
      unfold known. apply bool_decide_eq_true. rewrite Hm. done.
    + intros (d & hints & Hd & Hm & Hh). exists d, hints. repeat split; try done.
      apply list_elem_of_In, filter_In in Hd as [Hd _]. now apply list_elem_of_In.
Qed.

End DomainClassifierFacts.

(** * The subscription registry *)

Module ConnectionManagerFacts.
Import ConnectionManager.

Lemma disconnect_lookup self w id id' :
  active_connections (disconnect self w id) !! id' =
    if decide (id' = id)
    then match active_connections self !! id with
         | Some s => if decide (s ∖ {[w]} = ∅) then None else Some (s ∖ {[w]})
         | None => None
         end
    else active_connections self !! id'.
Proof.
  unfold disconnect.
  destruct (active_connections self !! id) as [s|] eqn:Hs.
  - rewrite lookup_alter_eq, Hs. simpl.
    destruct (decide (s ∖ {[w]} = ∅)) as [He|He]; simpl;
      destruct (decide (id' = id)) as [->|Hne].
    + apply lookup_delete_eq.
    + rewrite lookup_delete_ne, lookup_alter_ne; done.
    + rewrite lookup_alter_eq, Hs. done.
    + rewrite lookup_alter_ne; done.
  - destruct (decide (id' = id)) as [->|Hne]; done.
Qed.

Lemma connect_lookup net self w id self' id' :
  connect net self w id = (Ok tt, self') ->
  active_connections self' !! id' =
    if decide (id' = id)
    then Some (default ∅ (active_connections self !! id) ∪ {[w]})
    else active_connections self !! id'.
Proof.
  unfold connect. destruct (accept net w); [|done]. intros [= <-]. simpl.
  destruct (active_connections self !! id) as [s|] eqn:Hs;
    destruct (decide (id' = id)) as [->|Hne]; simpl.
  - rewrite lookup_alter_eq, Hs. done.
  - rewrite lookup_alter_ne; done.
  - rewrite lookup_alter_eq, lookup_insert_eq. done.
  - rewrite lookup_alter_ne, lookup_insert_ne; done.
Qed.

Lemma connect_outcome net self w id :
  (exists self', connect net self w id = (Ok tt, self')) \/
  (exists e, connect net self w id = (Raise e, self)).
Proof.
  unfold connect. destruct (accept net w) as [[]|e]; [left | right]; eauto.
Qed.

(** A leave removes exactly the named registration. *)
Lemma disconnect_registered self w id id' c :
  registered (disconnect self w id) id' c <->
  registered self id' c /\ ~ (id' = id /\ c = w).
Proof.
  unfold registered. rewrite disconnect_lookup.
  destruct (decide (id' = id)) as [->|Hne].
  - destruct (active_connections self !! id) as [s|] eqn:Hs.
    + destruct (decide (s ∖ {[w]} = ∅)) as [He|He].
      * split; [intros (? & [=] & _)|].
        intros [(s' & [= <-] & Hc) Hnot]. exfalso.
        assert (Hin : c ∈ s ∖ {[w]}).
        { apply elem_of_difference. split; [done|].
          rewrite elem_of_singleton. intros ->. now apply Hnot. }
        rewrite He in Hin. now apply elem_of_empty in Hin.
      * split.
        -- intros (s' & [= <-] & Hc). apply elem_of_difference in Hc as [Hc Hw].
           split; [eauto|]. intros [_ ->]. apply Hw. now apply elem_of_singleton.
        -- intros [(s' & [= <-] & Hc) Hnot]. eexists; split; [done|].
           apply elem_of_difference. split; [done|].
           rewrite elem_of_singleton. intros ->. now apply Hnot.
    + split; [intros (? & [=] & _) | intros [(? & [=] & _) _]].
  - split; [intros Hr; split; [exact Hr | intros [? _]; done]
           | intros [Hr _]; exact Hr].
Qed.

Lemma connect_registered net self w id self' id' c :
  connect net self w id = (Ok tt, self') ->
  registered self' id' c <-> registered self id' c \/ (id' = id /\ c = w).
Proof.
  intros Hc. unfold registered. rewrite (connect_lookup _ _ _ _ _ id' Hc).
  destruct (decide (id' = id)) as [->|Hne].
  - split.
    + intros (s & [= <-] & Hin). apply elem_of_union in Hin as [Hin|Hin].
      * left. destruct (active_connections self !! id) as [s|]; simpl in *;
          [eauto | set_solver].
      * right. split; [done|]. now apply elem_of_singleton in Hin.
    + intros [(s & Hs & Hin)|[_ ->]]; eexists; (split; [done|]).
      * rewrite Hs. simpl. set_solver.
      * set_solver.
  - split; [now left | intros [?|[? _]]; done].
Qed.

Lemma disconnect_no_empty self w id :
  no_empty_entry self -> no_empty_entry (disconnect self w id).
Proof.
  intros Hwf id' s. rewrite disconnect_lookup.
  destruct (decide (id' = id)) as [->|Hne]; [|apply Hwf].
  destruct (active_connections self !! id) as [s0|]; [|done].
  destruct (decide (s0 ∖ {[w]} = ∅)); [done|]. now intros [= <-].
Qed.

Lemma connect_no_empty net self w id :
  no_empty_entry self -> no_empty_entry (snd (connect net self w id)).
Proof.
  intros Hwf. destruct (connect_outcome net self w id) as [[self' Hc]|[e Hc]];
    rewrite Hc; simpl; [|done].
  intros id' s. rewrite (connect_lookup _ _ _ _ _ id' Hc).
  destruct (decide (id' = id)) as [->|Hne]; [|apply Hwf].
  intros [= <-]. set_solver.
Qed.

(** The loop of [send_progress] over the connections [l]. *)
Lemma send_loop net id d (l : list WebSocket) : forall self log self' log',
  fold_left (send_step net id d) l (self, log) = (self', log') ->
  (forall id' c, registered self' id' c <->
                 registered self id' c /\ ~ (id' = id /\ c ∈ l /\ fails net d c)) /\
  (exists new, log' = log ++ new /\ map to new = l /\
     Forall (fun a => payload a = d
                      /\ delivered a = is_ok (send_json net (to a) d)) new) /\
  (no_empty_entry self -> no_empty_entry self').
Proof.
  induction l as [|w l IH]; intros self log self' log'; simpl.
  - intros [= <- <-]. split; [|split; [|done]].
    + intros id' c. split; [intros H; split; [done|] | now intros [H _]].
      intros (_ & Hin & _). now apply elem_of_nil in Hin.
    + exists []. rewrite app_nil_r. repeat split. constructor.
  - destruct (send_json net w d) as [[]|e] eqn:Hsend; intros Hfold;
      apply IH in Hfold as (Hreg & (new & -> & Hto & Hall) & Hwf).
    + split; [|split].
      * intros id' c. rewrite Hreg. split; intros [Hr Hnot]; (split; [done|]).
        -- intros (-> & Hin & Hf). apply Hnot. repeat split; [|done].
           apply elem_of_cons in Hin as [->|Hin]; [|done].
           unfold fails in Hf. rewrite Hsend in Hf. done.
        -- intros (-> & Hin & Hf). apply Hnot. repeat split; [|done].
           now right.
      * eexists (_ :: new). rewrite <- app_assoc. simpl. repeat split.
        -- now rewrite Hto.
        -- constructor; [simpl; now rewrite Hsend | done].
      * exact Hwf.
    + split; [|split].
      * intros id' c. rewrite Hreg, disconnect_registered.
        split.
        -- intros [[Hr Hw] Hnot]. split; [done|].
           intros (-> & Hin & Hf). apply elem_of_cons in Hin as [->|Hin].
           ++ now apply Hw.
           ++ now apply Hnot.
        -- intros [Hr Hnot]. repeat split; [done | |].
           ++ intros [-> ->]. apply Hnot. repeat split; [left|].
              unfold fails. now rewrite Hsend.
           ++ intros (-> & Hin & Hf). apply Hnot. repeat split; [now right | done].
      * eexists (_ :: new). rewrite <- app_assoc. simpl. repeat split.
        -- now rewrite Hto.
        -- constructor; [simpl; now rewrite Hsend | done].
      * intros Hwf0. now apply Hwf, disconnect_no_empty.
Qed.

Lemma send_progress_no_empty net self id d :
  no_empty_entry self -> no_empty_entry (snd (fst (send_progress net self id d))).
Proof.
  intros Hwf. unfold send_progress.
  destruct (active_connections self !! id) as [s|]; [|done].
  destruct (fold_left _ _ _) as [self' log'] eqn:Hfold.
  apply send_loop in Hfold as (_ & _ & Hpres). now apply Hpres.
Qed.

Lemma broadcast_no_empty net self d :
  no_empty_entry self -> no_empty_entry (snd (fst (broadcast net self d))).
Proof.
  unfold broadcast.
  generalize (map fst (map_to_list (active_connections self))) as keys.
  intros keys. generalize (@nil Attempt) as log. revert self.
  induction keys as [|k keys IH]; intros self log Hwf; simpl; [done|].
  destruct (send_progress net self k d) as [[r self1] log1] eqn:Hsp.
  apply IH.
  change self1 with (snd (fst (r, self1, log1))). rewrite <- Hsp.
  now apply send_progress_no_empty.
Qed.

(** C6: a publish to a document attempts one send to every connection
    registered under it at the call, whichever of them fail; the call itself
    returns normally, and afterwards exactly the connections whose send
    failed have left the registry, other documents being untouched. *)
Theorem send_progress_isolates_failures net self id d s :
  active_connections self !! id = Some s ->
  exists self' log,
    send_progress net self id d = (Ok tt, self', log) /\
    NoDup (map to log) /\
    (forall c, c ∈ map to log <-> c ∈ s) /\
    Forall (fun a => payload a = d
                     /\ delivered a = is_ok (send_json net (to a) d)) log /\
    (forall c, registered self' id c <-> c ∈ s /\ ~ fails net d c) /\
    (forall id' c, id' <> id -> registered self' id' c <-> registered self id' c).
Proof.
  intros Hs. unfold send_progress. rewrite Hs.
  destruct (fold_left _ _ _) as [self' log'] eqn:Hfold.
  apply send_loop in Hfold as (Hreg & (new & -> & Hto & Hall) & _).
  exists self', new. simpl. rewrite Hto.
  split; [done|]. split; [apply NoDup_elements|].
  split; [intros c; apply elem_of_elements|].
  split; [exact Hall|]. split.
  - intros c. rewrite Hreg. split.
    + intros [(s' & Hs' & Hc) Hnot].
      assert (s' = s) as -> by congruence.
      split; [done|]. intros Hf. apply Hnot. repeat split; [|done].
      now apply elem_of_elements.
    + intros [Hc Hok]. split; [now exists s|].
      intros (_ & _ & Hf). now apply Hok.
  - intros id' c Hne. rewrite Hreg. split; [now intros [Hr _]|].
    intros Hr. split; [done|]. intros [? _]. done.
Qed.

Lemma send_progress_isolates_failures_witness :
  exists self' log,
    send_progress odd_closed two_watchers "doc-1" extracting_20
      = (Ok tt, self', log) /\
    NoDup (map to log) /\
    (forall c, c ∈ map to log <-> c ∈ watchers) /\
    Forall (fun a => payload a = extracting_20
                     /\ delivered a = is_ok (send_json odd_closed (to a) extracting_20))
           log /\
    (forall c, registered self' "doc-1" c <->
               c ∈ watchers /\ ~ fails odd_closed extracting_20 c) /\
    (forall id' c, id' <> "doc-1" ->
                   registered self' id' c <-> registered two_watchers id' c).
Proof.
  apply (send_progress_isolates_failures odd_closed two_watchers "doc-1"
           extracting_20 watchers).
  reflexivity.
Defined.

(** C7: in every registry reachable from the empty one by connect,
    disconnect and send_progress (and broadcast), each document id present
    maps to a non-empty set; each of the operations preserves this. *)
Theorem registry_has_no_empty_entry :
  no_empty_entry init /\
  (forall net self w id,
      no_empty_entry self -> no_empty_entry (snd (connect net self w id))) /\
  (forall self w id,
      no_empty_entry self -> no_empty_entry (disconnect self w id)) /\
  (forall net self id d,
      no_empty_entry self ->
      no_empty_entry (snd (fst (send_progress net self id d)))) /\
  (forall ops, no_empty_entry (run ops)).
Proof.
  assert (Hinit : no_empty_entry init) by (intros id s; simpl; now rewrite lookup_empty).
  repeat split; [exact Hinit | apply connect_no_empty | apply disconnect_no_empty
                 | apply send_progress_no_empty |].
  intros ops. unfold run. generalize init Hinit.
  induction ops as [|op ops IH]; intros self Hwf; simpl; [exact Hwf|].
  apply IH. destruct op; simpl.
  - now apply connect_no_empty.
  - now apply disconnect_no_empty.
  - now apply send_progress_no_empty.
  - now apply broadcast_no_empty.
Qed.

End ConnectionManagerFacts.

(** * The pipeline *)

Module PipelineFacts.
Import Schemas Models Pipeline.

(** ** The session *)

Lemma query_first_found db id doc :
  current db id = Some doc ->
  loaded (snd (query_first db id)) !! id = Some doc /\
  rows (snd (query_first db id)) = rows db /\
  chunk_rows (snd (query_first db id)) = chunk_rows db /\
  added (snd (query_first db id)) = added db.
Proof.
  unfold current, query_first.
  destruct (loaded db !! id) as [d|] eqn:Hl; simpl.
  - intros [= <-]. done.
  - destruct (rows db !! id) as [d|] eqn:Hr; simpl; [|done].
    intros [= <-]. now rewrite lookup_insert_eq.
Qed.

Lemma query_first_missing db id :
  current db id = None -> snd (query_first db id) = db.
Proof.
  unfold current, query_first.
  destruct (loaded db !! id); [done|]. destruct (rows db !! id); done.
Qed.

Lemma query_first_loaded db id doc :
  loaded db !! id = Some doc -> query_first db id = (Some doc, db).
Proof. unfold query_first. now intros ->. Qed.

Lemma db_processing_loaded db id doc :
  current db id = Some doc ->
  loaded (db_processing db id) !! id = Some (set_processing_status "processing" doc).
Proof.
  intros Hc. apply query_first_found in Hc as (Hl & _).
  unfold db_processing. simpl. now rewrite lookup_alter_eq, Hl.
Qed.

(** ** Calls on the Store *)

Lemma store_call_healthy self c w :
  healthy self -> store_call self c w = (Ok tt, w).
Proof. intros Hs. unfold store_call. now rewrite Hs. Qed.

Lemma store_call_ok_inv self c w u w1 :
  store_call self c w = (Ok u, w1) -> w1 = w.
Proof.
  unfold store_call. destruct (store self (db w) c); [discriminate|].
  now intros [= _ <-].
Qed.

Lemma db_query_first_healthy self id w :
  healthy self ->
  db_query_first self id w
    = (Ok (fst (query_first (db w) id)),
       with_db (fun db => snd (query_first db id)) w).
Proof.
  intros Hs. unfold db_query_first, mbind, M_bind.
  now rewrite (store_call_healthy _ _ _ Hs).
Qed.

Lemma db_write_healthy self upd id w :
  healthy self -> db_write self upd id w = (Ok tt, with_db (write upd id) w).
Proof.
  intros Hs. unfold db_write, mbind, M_bind.
  now rewrite (store_call_healthy _ _ _ Hs).
Qed.

Lemma db_add_healthy self c w :
  healthy self -> db_add self c w = (Ok tt, with_db (add c) w).
Proof.
  intros Hs. unfold db_add, mbind, M_bind.
  now rewrite (store_call_healthy _ _ _ Hs).
Qed.

Lemma db_commit_healthy self w :
  healthy self -> db_commit self w = (Ok tt, with_db commit w).
Proof.
  intros Hs. unfold db_commit, mbind, M_bind.
  now rewrite (store_call_healthy _ _ _ Hs).
Qed.

Lemma db_read_healthy self id w doc :
  healthy self -> loaded (db w) !! id = Some doc ->
  db_read self id w = (Ok doc, w).
Proof.
  intros Hs Hl. unfold db_read, mbind, M_bind.
  rewrite (store_call_healthy _ _ _ Hs). unfold act. now rewrite Hl.
Qed.

Lemma db_query_first_ok_inv self id w d w1 :
  db_query_first self id w = (Ok d, w1) ->
  d = fst (query_first (db w) id)
  /\ w1 = with_db (fun db => snd (query_first db id)) w.
Proof.
  unfold db_query_first, mbind, M_bind.
  destruct (store_call self (Query id) w) as [[u|e] w0] eqn:Hc; [|discriminate].
  apply store_call_ok_inv in Hc as ->. now intros [= <- <-].
Qed.

Lemma db_write_ok_inv self upd id w u w1 :
  db_write self upd id w = (Ok u, w1) -> w1 = with_db (write upd id) w.
Proof.
  unfold db_write, mbind, M_bind.
  destruct (store_call self (Write id) w) as [[u0|e] w0] eqn:Hc; [|discriminate].
  apply store_call_ok_inv in Hc as ->. now intros [= _ <-].
Qed.

Lemma db_add_ok_inv self c w u w1 :
  db_add self c w = (Ok u, w1) -> w1 = with_db (add c) w.
Proof.
  unfold db_add, mbind, M_bind.
  destruct (store_call self (Add c) w) as [[u0|e] w0] eqn:Hc; [|discriminate].
  apply store_call_ok_inv in Hc as ->. now intros [= _ <-].
Qed.

Lemma db_commit_ok_inv self w u w1 :
  db_commit self w = (Ok u, w1) -> w1 = with_db commit w.
Proof.
  unfold db_commit, mbind, M_bind.
  destruct (store_call self Commit w) as [[u0|e] w0] eqn:Hc; [|discriminate].
  apply store_call_ok_inv in Hc as ->. now intros [= _ <-].
Qed.

Lemma db_read_ok_inv self id w doc w1 :
  db_read self id w = (Ok doc, w1) -> loaded (db w) !! id = Some doc /\ w1 = w.
Proof.
  unfold db_read, mbind, M_bind.
  destruct (store_call self (Refresh id) w) as [[u0|e] w0] eqn:Hc; [|discriminate].
  apply store_call_ok_inv in Hc as ->. unfold act.
  destruct (loaded (db w) !! id); [|discriminate]. now intros [= <- <-].
Qed.

Lemma with_db_add_list cs c w :
  with_db (add_list cs) (with_db (add c) w) = with_db (add_list (c :: cs)) w.
Proof.
  unfold with_db, add_list, add. simpl. now rewrite <- app_assoc.
Qed.

Lemma with_db_add_nil w : with_db (add_list []) w = w.
Proof.
  unfold with_db, add_list. destruct w as [[] ? ?]; simpl. now rewrite app_nil_r.
Qed.

Lemma add_all_run self id pairs w :
  healthy self ->
  add_all self id pairs w = (Ok tt, with_db (add_list (map (db_chunk id) pairs)) w).
Proof.
  intros Hs. revert w; induction pairs as [|p pairs IH]; intros w; cbn [add_all map].
  - unfold mret, M_ret. now rewrite with_db_add_nil.
  - unfold mbind, M_bind. rewrite (db_add_healthy _ _ _ Hs), IH.
    now rewrite with_db_add_list.
Qed.

Lemma add_all_ok_inv self id pairs w u w1 :
  add_all self id pairs w = (Ok u, w1) ->
  w1 = with_db (add_list (map (db_chunk id) pairs)) w.
Proof.
  revert w; induction pairs as [|p pairs IH]; intros w; cbn [add_all map].
  - unfold mret, M_ret. intros [= _ <-]. now rewrite with_db_add_nil.
  - unfold mbind, M_bind.
    destruct (db_add self (db_chunk id p) w) as [[u0|e] w0] eqn:Ha; [|discriminate].
    apply db_add_ok_inv in Ha as ->. intros H. apply IH in H as ->.
    now rewrite with_db_add_list.
Qed.

(** ** Running the [try] body and the [except] clause *)

Lemma update_progress_run cb stage progress error w :
  returns_normally cb ->
  _update_progress cb stage progress error w
    = (Ok tt, {| db := db w;
                 published := published w
                              ++ emitted cb [progress_event stage progress error];
                 utcnow := utcnow w |}).
Proof.
  intros Hcb. destruct cb as [call|]; simpl.
  - now rewrite (Hcb call eq_refl).
  - rewrite app_nil_r. now destruct w.
Qed.

Lemma emitted_app cb evs1 evs2 :
  emitted cb evs1 ++ emitted cb evs2 = emitted cb (evs1 ++ evs2).
Proof. now destruct cb. Qed.

Ltac run_step Hs :=
  unfold mbind, M_bind, mret, M_ret, raise, lift, datetime_utcnow;
  cbn [fst snd db published utcnow];
  repeat (first [ rewrite (db_query_first_healthy _ _ _ Hs)
                | rewrite (db_write_healthy _ _ _ _ Hs)
                | rewrite (db_commit_healthy _ _ Hs) ];
          unfold with_db; cbn [fst snd db published utcnow]).

Lemma handler_run self id cb e w :
  healthy self ->
  returns_normally cb ->
  process_document_handler self id cb e w
    = (Raise e,
       {| db := match current (db w) id with
                | Some _ => db_failed (snd (query_first (db w) id)) id e
                | None => db w
                end;
          published := published w ++ emitted cb [failed_event e];
          utcnow := utcnow w |}).
Proof.
  intros Hs Hcb. unfold process_document_handler. run_step Hs.
  destruct (fst (query_first (db w) id)) as [doc|] eqn:Hq; run_step Hs;
    rewrite (update_progress_run _ _ _ _ _ Hcb); cbn [db published utcnow];
    unfold current; rewrite Hq; [done|].
  now rewrite (query_first_missing _ _ Hq).
Qed.

(** The body, run on a Store that raises on no call, with a callback that
    returns normally, on a document that is there: it follows the stages. *)
Lemma body_run self id path proj prim cb w doc :
  healthy self ->
  returns_normally cb ->
  current (db w) id = Some doc ->
  process_document_body self id path proj prim cb w =
    match snd (run_stages self id path proj prim) with
    | Raise e =>
        (Raise e,
         {| db := db_processing (db w) id;
            published := published w
              ++ emitted cb (map announcement (fst (run_stages self id path proj prim)));
            utcnow := utcnow w |})
    | Ok st =>
        (Ok (summary id (extracted st) (domains st) (all_chunks st)),
         {| db := db_completed self (db w) id doc st (utcnow w);
            published := published w
              ++ emitted cb (map announcement (fst (run_stages self id path proj prim))
                             ++ [complete_event]);
            utcnow := utcnow w |})
    end.
Proof.
  intros Hs Hcb Hdoc. unfold process_document_body, run_stages. run_step Hs.
  unfold current in Hdoc. rewrite Hdoc. run_step Hs.
  fold (db_processing (db w) id).
  rewrite (update_progress_run _ _ _ _ _ Hcb); cbn [db published utcnow].
  destruct (Extractors.extract (extractor self) path) as [ex|e]; [|done].
  rewrite (update_progress_run _ _ _ _ _ Hcb); cbn [db published utcnow].
  rewrite (update_progress_run _ _ _ _ _ Hcb); cbn [db published utcnow].
  rewrite <- !app_assoc, !emitted_app. cbn [app].
  destruct (LlamaChunker.chunk_sections _ _ _) as [sc|e]; [|done].
  destruct (LlamaChunker.chunk_tables _ _ _) as [tc|e]; [|done].
  rewrite (update_progress_run _ _ _ _ _ Hcb); cbn [db published utcnow].
  rewrite <- !app_assoc, !emitted_app. cbn [app].
  destruct (PatentEmbedder.generate_embeddings _ _ _) as [embs|e]; [|done].
  rewrite (update_progress_run _ _ _ _ _ Hcb); cbn [db published utcnow].
  rewrite <- !app_assoc, !emitted_app. cbn [app].
  rewrite (add_all_run _ _ _ _ Hs). run_step Hs.
  erewrite (db_read_healthy _ _ _ _ Hs);
    [|cbn [db loaded write add_list]; rewrite !lookup_alter_eq;
      unfold current in *; rewrite (db_processing_loaded _ _ _ Hdoc); reflexivity].
  run_step Hs.
  rewrite (update_progress_run _ _ _ _ _ Hcb); cbn [db published utcnow].
  rewrite <- !app_assoc, !emitted_app. cbn [app].
  reflexivity.
Qed.

(** A run on a document that is there, on a Store that raises on no call
    and with a callback that returns normally. *)
Lemma process_document_run self id path proj prim cb w doc :
  healthy self ->
  returns_normally cb ->
  current (db w) id = Some doc ->
  process_document self id path proj prim cb w =
    match snd (run_stages self id path proj prim) with
    | Raise e =>
        (Raise e,
         {| db := db_failed (db_processing (db w) id) id e;
            published := published w
              ++ emitted cb (map announcement (fst (run_stages self id path proj prim))
                             ++ [failed_event e]);
            utcnow := utcnow w |})
    | Ok st =>
        (Ok (summary id (extracted st) (domains st) (all_chunks st)),
         {| db := db_completed self (db w) id doc st (utcnow w);
            published := published w
              ++ emitted cb (map announcement (fst (run_stages self id path proj prim))
                             ++ [complete_event]);
            utcnow := utcnow w |})
    end.
Proof.
  intros Hs Hcb Hdoc. unfold process_document, try_except.
  rewrite (body_run _ _ _ _ _ _ _ _ Hs Hcb Hdoc).
  destruct (snd (run_stages self id path proj prim)) as [st|e]; [done|].
  rewrite (handler_run _ _ _ _ _ Hs Hcb). cbn [db published utcnow].
  pose proof (db_processing_loaded _ _ _ Hdoc) as Hl.
  unfold current. rewrite (query_first_loaded _ _ _ Hl). cbn [fst snd].
  now rewrite <- app_assoc, emitted_app.
Qed.

(** A run on a document that is not there. *)
Lemma process_document_missing self id path proj prim cb w :
  returns_normally cb ->
  queried self (db w) id = Ok None ->
  process_document self id path proj prim cb w =
    (Raise (not_found id),
     {| db := db w;
        published := published w ++ emitted cb [failed_event (not_found id)];
        utcnow := utcnow w |}).
Proof.
  intros Hcb Hq. unfold queried in Hq.
  destruct (store self (db w) (Query id)) as [e|] eqn:Hstore; [discriminate|].
  injection Hq as Hdoc.
  assert (Hquery : db_query_first self id w = (Ok None, w)).
  { unfold db_query_first, mbind, M_bind, store_call, act, with_db.
    rewrite Hstore, (query_first_missing _ _ Hdoc).
    unfold current in Hdoc. rewrite Hdoc. now destruct w. }
  unfold process_document, try_except, process_document_body, mbind, M_bind.
  rewrite Hquery. unfold raise, process_document_handler, mbind, M_bind.
  rewrite Hquery. unfold mret, M_ret.
  rewrite (update_progress_run _ _ _ _ _ Hcb). done.
Qed.

(** ** What a run that returns has done, whatever the callback and the
       Store *)

Lemma bind_ok_inv {A B} (m : M A) (k : A -> M B) w r w' :
  (m ≫= k) w = (Ok r, w') ->
  exists a w1, m w = (Ok a, w1) /\ k a w1 = (Ok r, w').
Proof.
  unfold mbind, M_bind. destruct (m w) as [[a|e] w1]; [eauto | discriminate].
Qed.

Lemma update_progress_ok cb stage progress error w u w1 :
  _update_progress cb stage progress error w = (Ok u, w1) ->
  db w1 = db w /\ utcnow w1 = utcnow w.
Proof.
  destruct cb as [call|]; simpl.
  - intros [= _ <-]. done.
  - intros [= _ <-]. done.
Qed.

Lemma bind_never_ok {A B} (m : M A) (k : A -> M B) w r w' :
  (forall a w1 r1 w2, k a w1 = (r1, w2) -> is_ok r1 = false) ->
  (m ≫= k) w = (r, w') -> is_ok r = false.
Proof.
  intros Hk. unfold mbind, M_bind. destruct (m w) as [[a|e] w1].
  - apply Hk.
  - now intros [= <- _].
Qed.

Lemma handler_raises self id cb e w r w' :
  process_document_handler self id cb e w = (r, w') -> is_ok r = false.
Proof.
  unfold process_document_handler.
  apply bind_never_ok. intros doc w1 r1 w2.
  apply bind_never_ok. intros u w3 r3 w4.
  apply bind_never_ok. intros u' w5 r5 w6.
  unfold raise. now intros [= <- _].
Qed.

Lemma body_ok_inv self id path proj prim cb w r w' :
  process_document_body self id path proj prim cb w = (Ok r, w') ->
  exists doc st,
    current (db w) id = Some doc /\
    snd (run_stages self id path proj prim) = Ok st /\
    db w' = db_completed self (db w) id doc st (utcnow w).
Proof.
  unfold process_document_body, run_stages. intros H.
  apply bind_ok_inv in H as (document & w1 & Hq & H).
  apply db_query_first_ok_inv in Hq as [-> ->].
  destruct (fst (query_first (db w) id)) as [doc|] eqn:Hdoc; [|discriminate].
  exists doc.
  apply bind_ok_inv in H as ([] & w2 & Hw2 & H). apply db_write_ok_inv in Hw2 as ->.
  apply bind_ok_inv in H as ([] & w3 & Hw3 & H). apply db_commit_ok_inv in Hw3 as ->.
  apply bind_ok_inv in H as ([] & w4 & Hp1 & H).
  apply update_progress_ok in Hp1 as [Hdb4 Hnow4].
  apply bind_ok_inv in H as (ex & w5 & Hex & H).
  unfold lift in Hex. injection Hex as Hex <-. rewrite Hex.
  apply bind_ok_inv in H as ([] & w6 & Hp2 & H).
  apply update_progress_ok in Hp2 as [Hdb6 Hnow6].
  cbv zeta in H.
  apply bind_ok_inv in H as ([] & w7 & Hp3 & H).
  apply update_progress_ok in Hp3 as [Hdb7 Hnow7].
  apply bind_ok_inv in H as (sc & w8 & Hsc & H).
  unfold lift in Hsc. injection Hsc as Hsc <-.
  apply bind_ok_inv in H as (tc & w9 & Htc & H).
  unfold lift in Htc. injection Htc as Htc <-.
  apply bind_ok_inv in H as ([] & w10 & Hp4 & H).
  apply update_progress_ok in Hp4 as [Hdb10 Hnow10].
  apply bind_ok_inv in H as (embs & w11 & Hembs & H).
  unfold lift in Hembs. injection Hembs as Hembs <-.
  apply bind_ok_inv in H as ([] & w12 & Hp5 & H).
  apply update_progress_ok in Hp5 as [Hdb12 Hnow12].
  apply bind_ok_inv in H as ([] & w13 & Hadd & H).
  apply add_all_ok_inv in Hadd as ->.
  apply bind_ok_inv in H as ([] & w14 & Hw14 & H). apply db_write_ok_inv in Hw14 as ->.
  apply bind_ok_inv in H as (now & w15 & [= <- <-] & H).
  apply bind_ok_inv in H as ([] & w16 & Hw16 & H). apply db_write_ok_inv in Hw16 as ->.
  apply bind_ok_inv in H as (cur & w17 & Hread & H).
  apply db_read_ok_inv in Hread as [Hread ->].
  apply bind_ok_inv in H as ([] & w18 & Hw18 & H). apply db_write_ok_inv in Hw18 as ->.
  apply bind_ok_inv in H as ([] & w19 & Hw19 & H). apply db_commit_ok_inv in Hw19 as ->.
  apply bind_ok_inv in H as ([] & w20 & Hp6 & H).
  apply update_progress_ok in Hp6 as [Hdb20 Hnow20].
  injection H as <- <-.
  cbv zeta. rewrite Hsc, Htc, Hembs. cbn [snd].
  eexists. split; [exact Hdoc|]. split; [reflexivity|].
  assert (Hdb : db w12 = db_processing (db w) id).
  { rewrite Hdb12, Hdb10, Hdb7, Hdb6, Hdb4. reflexivity. }
  assert (Hnow : utcnow w12 = utcnow w).
  { rewrite Hnow12, Hnow10, Hnow7, Hnow6, Hnow4. reflexivity. }
  cbn [with_db db utcnow published loaded write add_list] in Hread.
  rewrite Hdb in Hread.
  rewrite !lookup_alter_eq, (db_processing_loaded _ _ _ Hdoc) in Hread.
  cbn [fmap option_fmap option_map] in Hread. injection Hread as <-.
  rewrite Hdb20. unfold db_completed, with_db. cbn [db utcnow published].
  rewrite Hdb, Hnow. reflexivity.
Qed.

(** ** The committed row after a run *)

Lemma db_completed_row self db id doc st now :
  current db id = Some doc ->
  exists doc',
    rows (db_completed self db id doc st now) !! id = Some doc' /\
    processing_status doc' = "completed" /\
    processed_at doc' = Some now /\
    metadata doc' =
      merged_metadata self (extracted st) (domains st) (technical_terms st)
        (cpc_hints st) (all_chunks st) (metadata doc).
Proof.
  intros Hdoc. pose proof (db_processing_loaded _ _ _ Hdoc) as Hl.
  unfold db_completed. cbn [rows commit loaded write add_list chunk_rows].
  eexists. split.
  - apply lookup_union_Some_l. rewrite !lookup_alter_eq, Hl. reflexivity.
  - done.
Qed.



Lemma merged_metadata_other self ex ds ts hs cs old k :
  k ∉ pipeline_keys ->
  merged_metadata self ex ds ts hs cs old !! k = old !! k.
Proof.
  intros Hk. unfold merged_metadata.
  rewrite !lookup_insert_ne; [done|..];
    intros <-; apply Hk; unfold pipeline_keys; set_solver.
Qed.

(** ** The events of a run *)

Lemma entered_not_terminal self id path proj prim :
  terminal_events (map announcement (fst (run_stages self id path proj prim))) = [].
Proof.
  unfold run_stages.
  destruct (Extractors.extract _ _); [|done].
  destruct (LlamaChunker.chunk_sections _ _ _); [|done].
  destruct (LlamaChunker.chunk_tables _ _ _); [|done].
  destruct (PatentEmbedder.generate_embeddings _ _ _); done.
Qed.

Lemma terminal_events_snoc evs ev :
  terminal_events evs = [] -> is_terminal ev = true ->
  terminal_events (evs ++ [ev]) = [ev].
Proof.
  intros Hevs Hev. unfold terminal_events in *.
  rewrite List.filter_app, Hevs. simpl. now rewrite Hev.
Qed.

(** ** The sample deployment *)

Lemma no_callback_returns : returns_normally None.
Proof. intros call [=]. Qed.

Lemma sample_store_healthy : healthy sample_pipeline.
Proof. intros db c. reflexivity. Qed.

Lemma failing_store_healthy : healthy failing_pipeline.
Proof. intros db c. reflexivity. Qed.

Lemma sample_document_found : current (db sample_world) "doc-1" = Some sample_document.
Proof. vm_compute. reflexivity. Qed.

Lemma sample_stages_succeed :
  is_ok (snd (run_stages sample_pipeline "doc-1" "/tmp/documents/a.pdf"
                         "proj-1" false)) = true.
Proof. vm_compute. reflexivity. Qed.

Lemma failing_stages_raise :
  snd (run_stages failing_pipeline "doc-1" "/tmp/documents/a.pdf" "proj-1" false)
    = Raise unreadable.
Proof. reflexivity. Qed.

(** C1, as stated, fails.  A run that is given no progress callback
    publishes no event at all, so not exactly one terminal event; here
    every stage succeeds and no [complete] event is published.  A run on a
    Store that lets no commit through raises before its first event, and
    its [except] clause raises again at its own commit, before the [failed]
    event: it publishes none either.  And a run whose callback raises on the
    [complete] event is then handed a [failed] one: two terminal events. *)
Lemma runs_without_one_terminal_event :
  (is_ok (fst (process_document sample_pipeline "doc-1" "/tmp/documents/a.pdf"
                 "proj-1" false None sample_world)) = true
   /\ terminal_events
        (published (snd (process_document sample_pipeline "doc-1"
                           "/tmp/documents/a.pdf" "proj-1" false None
                           sample_world))) = [])
  /\ (fst (process_document (on_store no_commit_store) "doc-1"
             "/tmp/documents/a.pdf" "proj-1" false (Some quiet_callback)
             sample_world) = Raise store_down
      /\ terminal_events
           (published (snd (process_document (on_store no_commit_store) "doc-1"
                              "/tmp/documents/a.pdf" "proj-1" false
                              (Some quiet_callback) sample_world))) = [])
  /\ (fst (process_document sample_pipeline "doc-1" "/tmp/documents/a.pdf"
             "proj-1" false (Some late_failing_callback) sample_world)
        = Raise PipelineOrder.observer_gone
      /\ terminal_events
           (published (snd (process_document sample_pipeline "doc-1"
                              "/tmp/documents/a.pdf" "proj-1" false
                              (Some late_failing_callback) sample_world)))
         = [complete_event; failed_event PipelineOrder.observer_gone]).
Proof. vm_compute. repeat split; reflexivity. Qed.

(** C1, amended: on a Store that raises on no call, a run that is given a
    progress callback which returns normally publishes exactly one terminal
    event, as its last event: a [complete] event with progress 100 when the
    document is there and every stage succeeds, a [failed] event with
    progress 0 carrying the error otherwise; never both.  A run that is
    given no progress callback publishes no event. *)
Theorem one_terminal_event self id path proj prim cb w r w' :
  healthy self ->
  returns_normally cb ->
  process_document self id path proj prim cb w = (r, w') ->
  match cb with
  | Some _ =>
      exists new,
        published w' = published w ++ new /\
        match r with
        | Ok _ => terminal_events new = [complete_event]
                  /\ last new = Some complete_event
                  /\ Schemas.progress complete_event = 100
        | Raise e => terminal_events new = [failed_event e]
                     /\ last new = Some (failed_event e)
                     /\ Schemas.progress (failed_event e) = 0
                     /\ Schemas.error (failed_event e) = Some (str_of_exn e)
        end
  | None => published w' = published w
  end /\
  (is_ok r = true <->
   is_Some (current (db w) id)
   /\ is_ok (snd (run_stages self id path proj prim)) = true).
Proof.
  intros Hs Hcb.
  destruct (current (db w) id) as [doc|] eqn:Hdoc.
  - rewrite (process_document_run _ _ _ _ _ _ _ _ Hs Hcb Hdoc).
    pose proof (entered_not_terminal self id path proj prim) as Hent.
    destruct (snd (run_stages self id path proj prim)) as [st|e];
      intros [= <- <-]; cbn [published]; split.
    + destruct cb as [call|]; cbn [emitted]; [|now rewrite app_nil_r].
      eexists; split; [reflexivity|].
      split; [now apply terminal_events_snoc|]. split; [apply last_snoc | done].
    + simpl. split; [eauto | done].
    + destruct cb as [call|]; cbn [emitted]; [|now rewrite app_nil_r].
      eexists; split; [reflexivity|].
      split; [now apply terminal_events_snoc|]. split; [apply last_snoc | done].
    + simpl. split; [done | now intros [_ ?]].
  - assert (Hq : queried self (db w) id = Ok None).
    { unfold queried. now rewrite Hs, Hdoc. }
    rewrite (process_document_missing _ _ _ _ _ _ _ Hcb Hq).
    intros [= <- <-]. cbn [published]. split.
    + destruct cb as [call|]; cbn [emitted]; [|now rewrite app_nil_r].
      eexists; split; [reflexivity|]. done.
    + simpl. split; [done|]. intros [[? [=]] _].
Qed.

Lemma one_terminal_event_witness :
  exists r w',
    process_document sample_pipeline "doc-1" "/tmp/documents/a.pdf" "proj-1"
                     false (Some quiet_callback) sample_world = (r, w') /\
    (exists new,
        published w' = published sample_world ++ new /\
        match r with
        | Ok _ => terminal_events new = [complete_event]
                  /\ last new = Some complete_event
                  /\ Schemas.progress complete_event = 100
        | Raise e => terminal_events new = [failed_event e]
                     /\ last new = Some (failed_event e)
                     /\ Schemas.progress (failed_event e) = 0
                     /\ Schemas.error (failed_event e) = Some (str_of_exn e)
        end) /\
    (is_ok r = true <->
     is_Some (current (db sample_world) "doc-1")
     /\ is_ok (snd (run_stages sample_pipeline "doc-1" "/tmp/documents/a.pdf"
                                "proj-1" false)) = true).
Proof.
  eexists; eexists. split; [apply surjective_pairing|].
  apply (one_terminal_event sample_pipeline "doc-1" "/tmp/documents/a.pdf"
           "proj-1" false (Some quiet_callback) sample_world).
  - intros db c. reflexivity.
  - intros call [= <-] ev. reflexivity.
  - apply surjective_pairing.
Defined.




(** C5: after a run that completes, every key of the document's metadata
    other than the seven pipeline-derived ones maps to what it mapped to
    before the run; the seven are merged into the mapping, which is not
    replaced. *)
Theorem metadata_merge_keeps_other_keys self id path proj prim cb w r w' doc k :
  current (db w) id = Some doc ->
  process_document self id path proj prim cb w = (Ok r, w') ->
  k ∉ pipeline_keys ->
  exists doc',
    rows (db w') !! id = Some doc' /\
    metadata doc' !! k = metadata doc !! k.
Proof.
  intros Hdoc Hrun Hk. unfold process_document, try_except in Hrun.
  destruct (process_document_body self id path proj prim cb w)
    as [[r0|e] w1] eqn:Hbody.
  - injection Hrun as <- <-.
    apply body_ok_inv in Hbody as (doc0 & st & Hdoc0 & _ & ->).
    assert (doc0 = doc) as -> by congruence.
    destruct (db_completed_row self (db w) id doc st (utcnow w) Hdoc)
      as (doc' & Hrow & _ & _ & Hmeta).
    exists doc'. split; [exact Hrow|].
    rewrite Hmeta. now apply merged_metadata_other.
  - apply handler_raises in Hrun. discriminate.
Qed.

Lemma sample_run_completes :
  exists r w',
    process_document sample_pipeline "doc-1" "/tmp/documents/a.pdf" "proj-1"
                     false None sample_world = (Ok r, w').
Proof.
  rewrite (process_document_run sample_pipeline "doc-1" "/tmp/documents/a.pdf"
             "proj-1" false None sample_world sample_document
             sample_store_healthy no_callback_returns sample_document_found).
  pose proof sample_stages_succeed as Hok.
  destruct (snd (run_stages sample_pipeline "doc-1" "/tmp/documents/a.pdf"
                            "proj-1" false)) as [st|e]; [|discriminate].
  eexists; eexists. reflexivity.
Defined.

Lemma metadata_merge_keeps_other_keys_witness :
  exists r w',
    process_document sample_pipeline "doc-1" "/tmp/documents/a.pdf" "proj-1"
                     false None sample_world = (Ok r, w') /\
    exists doc',
      rows (db w') !! "doc-1" = Some doc' /\
      metadata doc' !! "original_filename"
        = metadata sample_document !! "original_filename".
Proof.
  destruct sample_run_completes as (r & w' & Hrun).
  exists r, w'. split; [exact Hrun|].
  apply (metadata_merge_keeps_other_keys sample_pipeline "doc-1"
           "/tmp/documents/a.pdf" "proj-1" false None sample_world r w'
           sample_document "original_filename").
  - vm_compute. reflexivity.
  - exact Hrun.
  - apply (bool_decide_unpack _). vm_compute. exact I.
Defined.

End PipelineFacts.

(** * The model run on small inputs *)

Module Examples.
Import Schemas Models.

Example split_on_whitespace :
  split (String.append " a  b" (String (ascii_of_nat 9) "c ")) = ["a"; "b"; "c"].
Proof. vm_compute. reflexivity. Qed.

Example range_steps : py_range 0 5 2 = Ok [0; 2; 4].
Proof. vm_compute. reflexivity. Qed.

Example range_zero_step : is_ok (py_range 0 5 0) = false.
Proof. vm_compute. reflexivity. Qed.

Example literal_1_33 :
  Float64.c1_33 = S754_finite false 5989787504402760 (-52).
Proof. vm_compute. reflexivity. Qed.

Example three_words_three_tokens :
  LlamaChunker._estimate_tokens "one two three" = Ok 3
  /\ LlamaChunker.round_estimate "one two three" = Ok 4.
Proof. vm_compute. split; reflexivity. Qed.

Example batch_larger_than_input :
  PatentEmbedder.generate_embeddings PatentEmbedder.length_embedder
    ["ab"; "c"; "def"] PatentEmbedder.default_batch_size
  = Ok (map PatentEmbedder.length_vector ["ab"; "c"; "def"]).
Proof. vm_compute. reflexivity. Qed.

Example batch_size_zero :
  is_ok (PatentEmbedder.generate_embeddings PatentEmbedder.length_embedder
           ["ab"; "c"; "def"] 0) = false
  /\ PatentEmbedder.generate_embeddings PatentEmbedder.length_embedder [] 0 = Ok [].
Proof. vm_compute. split; reflexivity. Qed.

Example classify_two_domains :
  DomainClassifier.classify
    "The Processor runs an ALGORITHM over the network; the laser beam hits a lens."
    DomainClassifier.default_min_keywords
  = ["software"; "optics"].
Proof. vm_compute. reflexivity. Qed.

Example classify_general :
  DomainClassifier.classify "nothing of note" DomainClassifier.default_min_keywords
  = ["general"].
Proof. vm_compute. reflexivity. Qed.

Example cpc_hints_of_domains :
  DomainClassifier.get_cpc_hints Pipeline.first_seen
    ["electrical"; "unknown"; "software"; "electrical"]
  = ["G06F"; "H01"; "H02"].
Proof. vm_compute. reflexivity. Qed.

Example technical_terms :
  DomainClassifier.extract_technical_terms
    "The system uses Kalman filters. Then Bayes rules apply, (Kalman) again"
    DomainClassifier.default_max_terms
  = ["Kalman"; "Bayes"].
Proof. vm_compute. reflexivity. Qed.

Example closed_socket_leaves :
  elements <$> ConnectionManager.active_connections
    (snd (fst (ConnectionManager.send_progress ConnectionManager.odd_closed
                 ConnectionManager.two_watchers "doc-1"
                 ConnectionManager.extracting_20)))
  = {[ "doc-1" := [2%positive] ]}.
Proof. vm_compute. reflexivity. Qed.

Example completed_run :
  let '(r, w) :=
    Pipeline.process_document Pipeline.sample_pipeline "doc-1"
      "/tmp/documents/a.pdf" "proj-1" false (Some Pipeline.quiet_callback)
      Pipeline.sample_world in
  is_ok r = true
  /\ map Schemas.stage (Pipeline.published w)
     = ["extracting"; "classifying"; "chunking"; "embedding"; "storing"; "complete"]
  /\ map Models.chunk_index (chunk_rows (Pipeline.db w)) = [0; 0]
  /\ processing_status <$> rows (Pipeline.db w) !! "doc-1" = Some "completed".
Proof. vm_compute. repeat split; reflexivity. Qed.

Example failed_run_events :
  let '(r, w) :=
    Pipeline.process_document Pipeline.failing_pipeline "doc-1"
      "/tmp/documents/a.pdf" "proj-1" false (Some Pipeline.quiet_callback)
      Pipeline.sample_world in
  r = Raise Pipeline.unreadable
  /\ Pipeline.published w
     = [Pipeline.announcement Pipeline.EXTRACTING;
        Pipeline.failed_event Pipeline.unreadable]
  /\ chunk_rows (Pipeline.db w) = []
  /\ processing_status <$> rows (Pipeline.db w) !! "doc-1" = Some "failed".
Proof. vm_compute. repeat split; reflexivity. Qed.

Example missing_document :
  let '(r, w) :=
    Pipeline.process_document Pipeline.sample_pipeline "doc-9"
      "/tmp/documents/a.pdf" "proj-1" false (Some Pipeline.quiet_callback)
      Pipeline.sample_world in
  r = Raise (Pipeline.not_found "doc-9")
  /\ Pipeline.published w = [Pipeline.failed_event (Pipeline.not_found "doc-9")].
Proof. vm_compute. repeat split; reflexivity. Qed.

(** What [returns_normally] rules out: a callback that raises on the
    [complete] event is then handed a [failed] one, after the chunks were
    committed. *)
Example callback_raising_on_complete :
  let '(r, w) :=
    Pipeline.process_document Pipeline.sample_pipeline "doc-1"
      "/tmp/documents/a.pdf" "proj-1" false (Some Pipeline.late_failing_callback)
      Pipeline.sample_world in
  is_ok r = false
  /\ map Schemas.stage (Pipeline.terminal_events (Pipeline.published w))
     = ["complete"; "failed"]
  /\ length (chunk_rows (Pipeline.db w)) = 2%nat
  /\ processing_status <$> rows (Pipeline.db w) !! "doc-1" = Some "failed".
Proof. vm_compute. repeat split; reflexivity. Qed.

End Examples.

(** * More on the subscription registry *)

Module ConnectionManagerMore.
Import ConnectionManager ConnectionManagerFacts.

Lemma manager_eq (a b : t) :
  (forall id, active_connections a !! id = active_connections b !! id) -> a = b.
Proof.
  destruct a as [ma], b as [mb]. simpl. intros H. f_equal. now apply map_eq.
Qed.

Lemma not_registered_difference self id w s :
  active_connections self !! id = Some s -> ~ registered self id w -> s ∖ {[w]} = s.
Proof.
  intros Hs Hnot. apply set_eq. intros c. rewrite elem_of_difference, elem_of_singleton.
  split; [now intros [? _]|]. intros Hc. split; [done|].
  intros ->. apply Hnot. now exists s.
Qed.

(** X1: a join whose handshake succeeds registers exactly the given
    connection under the given document and changes no other registration;
    a join whose handshake raises registers nothing and passes the error
    on. *)
Theorem connect_joins net self w id :
  match connect net self w id with
  | (Ok _, self') =>
      accept net w = Ok tt /\
      forall id' c,
        registered self' id' c <-> registered self id' c \/ (id' = id /\ c = w)
  | (Raise e, self') => accept net w = Raise e /\ self' = self
  end.
Proof.
  destruct (connect net self w id) as [[[]|e] self'] eqn:Hc.
  - split.
    + unfold connect in Hc. destruct (accept net w) as [[]|e]; [done | discriminate].
    + intros id' c. now apply (connect_registered net).
  - unfold connect in Hc. destruct (accept net w) as [[]|e']; [discriminate|].
    now injection Hc as -> <-.
Qed.

(** X2: joining again with a connection that is already registered under the
    document leaves the registry as it is. *)
Theorem connect_idempotent net self w id self' :
  registered self id w ->
  connect net self w id = (Ok tt, self') ->
  self' = self.
Proof.
  intros (s & Hs & Hw) Hc. apply manager_eq. intros id'.
  rewrite (connect_lookup _ _ _ _ _ id' Hc).
  destruct (decide (id' = id)) as [->|Hne]; [|done].
  rewrite Hs. simpl. f_equal. set_solver.
Qed.

Lemma connect_idempotent_witness :
  exists self',
    connect odd_closed two_watchers 2%positive "doc-1" = (Ok tt, self')
    /\ self' = two_watchers.
Proof.
  eexists. split; [reflexivity|].
  apply (connect_idempotent odd_closed two_watchers 2%positive "doc-1").
  - exists watchers. split; [reflexivity|]. unfold watchers. set_solver.
  - reflexivity.
Defined.

(** X3: in a registry without empty entries, a leave for a connection that is
    not registered under the document changes nothing. *)
Theorem disconnect_unregistered self w id :
  no_empty_entry self ->
  ~ registered self id w ->
  disconnect self w id = self.
Proof.
  intros Hwf Hnot. apply manager_eq. intros id'. rewrite disconnect_lookup.
  destruct (decide (id' = id)) as [->|Hne]; [|done].
  destruct (active_connections self !! id) as [s|] eqn:Hs; [|done].
  rewrite (not_registered_difference _ _ _ _ Hs Hnot).
  destruct (decide (s = ∅)) as [->|_]; [|done].
  now destruct (Hwf id ∅ Hs).
Qed.

Lemma two_watchers_no_empty : no_empty_entry two_watchers.
Proof.
  intros id s. unfold two_watchers. simpl.
  intros [_ <-]%lookup_singleton_Some. unfold watchers. set_solver.
Qed.

Lemma disconnect_unregistered_witness :
  disconnect two_watchers 7%positive "doc-1" = two_watchers.
Proof.
  apply (disconnect_unregistered two_watchers 7%positive "doc-1").
  - exact two_watchers_no_empty.
  - intros (s & Hs & Hin). unfold two_watchers in Hs. simpl in Hs.
    apply lookup_singleton_Some in Hs as [_ <-]. unfold watchers in Hin. set_solver.
Defined.

(** X4: in a registry without empty entries, a join of a connection that was
    not registered, followed by its leave, gives the registry back. *)
Theorem connect_disconnect net self w id self' :
  no_empty_entry self ->
  ~ registered self id w ->
  connect net self w id = (Ok tt, self') ->
  disconnect self' w id = self.
Proof.
  intros Hwf Hnot Hc. apply manager_eq. intros id'. rewrite disconnect_lookup.
  destruct (decide (id' = id)) as [->|Hne].
  - rewrite (connect_lookup _ _ _ _ _ id Hc).
    destruct (decide (id = id)) as [_|?]; [|done].
    destruct (active_connections self !! id) as [s|] eqn:Hs; simpl.
    + assert (Hd : (s ∪ {[w]}) ∖ {[w]} = s).
      { assert (w ∉ s) by (intros Hw; apply Hnot; now exists s). set_solver. }
      rewrite Hd. destruct (decide (s = ∅)) as [->|_]; [|done].
      now destruct (Hwf id ∅ Hs).
    + assert (Hd : ((∅ : gset WebSocket) ∪ {[w]}) ∖ {[w]} = ∅) by set_solver.
      rewrite Hd. now destruct (decide (∅ = ∅)).
  - rewrite (connect_lookup _ _ _ _ _ id' Hc).
    now destruct (decide (id' = id)).
Qed.

Lemma connect_disconnect_witness :
  exists self',
    connect odd_closed two_watchers 7%positive "doc-2" = (Ok tt, self')
    /\ disconnect self' 7%positive "doc-2" = two_watchers.
Proof.
  eexists. split; [reflexivity|].
  apply (connect_disconnect odd_closed two_watchers 7%positive "doc-2").
  - exact two_watchers_no_empty.
  - intros (s & Hs & _). unfold two_watchers in Hs. simpl in Hs.
    now apply lookup_singleton_Some in Hs as [? _].
  - reflexivity.
Defined.

(** What one publish does, whether the document has an entry or not. *)
Lemma send_progress_effect net self id d :
  exists self' log,
    send_progress net self id d = (Ok tt, self', log) /\
    (forall id' c, registered self' id' c <->
                   registered self id' c /\ ~ (id' = id /\ fails net d c)) /\
    (forall c, c ∈ map to log <-> registered self id c) /\
    Forall (fun a => payload a = d) log.
Proof.
  unfold send_progress.
  destruct (active_connections self !! id) as [s|] eqn:Hs.
  - destruct (fold_left _ _ _) as [self' log'] eqn:Hfold.
    apply send_loop in Hfold as (Hreg & (new & -> & Hto & Hall) & _).
    exists self', new. simpl. split; [done|]. split; [|split].
    + intros id' c. rewrite Hreg. split; intros [Hr Hnot]; (split; [done|]).
      * intros [-> Hf]. apply Hnot. repeat split; [|done].
        destruct Hr as (s' & Hs' & Hc). apply elem_of_elements. congruence.
      * intros (-> & _ & Hf). now apply Hnot.
    + intros c. rewrite Hto, elem_of_elements. split.
      * intros Hc. now exists s.
      * intros (s' & Hs' & Hc). congruence.
    + eapply Forall_impl; [exact Hall|]. now intros a [? _].
  - exists self, []. split; [done|]. split; [|split].
    + intros id' c. split; [|now intros [? _]]. intros Hr. split; [done|].
      intros [-> _]. destruct Hr as (s & Hs' & _). congruence.
    + intros c. split; [intros Hin; now apply elem_of_nil in Hin|].
      intros (s & Hs' & _). congruence.
    + constructor.
Qed.

Lemma fails_dec net d c : {fails net d c} + {~ fails net d c}.
Proof. unfold fails. destruct (is_ok (send_json net c d)); [right | left]; done. Qed.

Lemma broadcast_loop net d keys : forall self log self' log',
  fold_left (broadcast_step net d) keys (self, log) = (self', log') ->
  (forall id c, registered self' id c <->
                registered self id c /\ ~ (id ∈ keys /\ fails net d c)) /\
  exists new,
    log' = log ++ new /\
    (forall c, c ∈ map to new <-> exists id, id ∈ keys /\ registered self id c) /\
    Forall (fun a => payload a = d) new.
Proof.
  induction keys as [|k keys IH]; intros self log self' log'; simpl.
  - intros [= <- <-]. split.
    + intros id c. split; [|now intros [? _]]. intros Hr. split; [done|].
      intros [Hin _]. now apply elem_of_nil in Hin.
    + exists []. rewrite app_nil_r. split; [done|]. split; [|constructor].
      intros c. split; [intros Hin; now apply elem_of_nil in Hin|].
      intros (id & Hin & _). now apply elem_of_nil in Hin.
  - destruct (send_progress_effect net self k d)
      as (self1 & log1 & Hsp & Hreg1 & Hlog1 & Hpay1).
    rewrite Hsp. intros Hfold.
    apply IH in Hfold as (Hreg & new & -> & Hlog & Hpay).
    split.
    + intros id c. rewrite Hreg, Hreg1. split.
      * intros [[Hr Hk] Hrest]. split; [done|].
        intros [Hin Hf]. apply elem_of_cons in Hin as [->|Hin].
        -- now apply Hk.
        -- now apply Hrest.
      * intros [Hr Hnot]. repeat split; [done | |].
        -- intros [-> Hf]. apply Hnot. split; [left | done].
        -- intros [Hin Hf]. apply Hnot. split; [now right | done].
    + exists (log1 ++ new). rewrite app_assoc. split; [done|]. split.
      * intros c. rewrite map_app, elem_of_app, Hlog1, Hlog. split.
        -- intros [Hr|(id & Hin & Hr)].
           ++ exists k. split; [left | done].
           ++ exists id. split; [now right|]. now apply Hreg1 in Hr as [? _].
        -- intros (id & Hin & Hr). apply elem_of_cons in Hin as [->|Hin]; [now left|].
           destruct (decide (id = k)) as [->|Hne]; [now left|].
           right. exists id. split; [done|]. apply Hreg1. split; [done|].
           now intros [? _].
      * apply Forall_app. split; done.
Qed.

(** X5: a broadcast attempts one or more sends of the payload to every
    connection registered under any document and to no other; it returns
    normally, and afterwards exactly the connections whose send failed have
    left the registry. *)
Theorem broadcast_reaches_all net self d :
  exists self' log,
    broadcast net self d = (Ok tt, self', log) /\
    (forall c, c ∈ map to log <-> exists id, registered self id c) /\
    Forall (fun a => payload a = d) log /\
    (forall id c, registered self' id c <->
                  registered self id c /\ ~ fails net d c).
Proof.
  unfold broadcast.
  destruct (fold_left _ _ _) as [self' log'] eqn:Hfold.
  apply broadcast_loop in Hfold as (Hreg & new & -> & Hlog & Hpay).
  exists self', new. simpl. split; [done|].
  assert (Hkeys : forall id c, registered self id c ->
                    id ∈ map fst (map_to_list (active_connections self))).
  { intros id c (s & Hs & _). apply list_elem_of_fmap. exists (id, s).
    split; [done|]. now apply elem_of_map_to_list. }
  split; [|split].
  - intros c. rewrite Hlog. split.
    + intros (id & _ & Hr). now exists id.
    + intros (id & Hr). exists id. split; [now apply (Hkeys id c)| done].
  - exact Hpay.
  - intros id c. rewrite Hreg. split.
    + intros [Hr Hnot]. split; [done|]. intros Hf. apply Hnot.
      split; [now apply (Hkeys id c) | done].
    + intros [Hr Hnot]. split; [done|]. now intros [_ Hf].
Qed.

End ConnectionManagerMore.

(** * More on the classifier *)

Module DomainClassifierMore.
Import DomainClassifier DomainClassifierFacts.

(** ** Technical terms *)

Lemma unique_in_order_spec (l : list string) : forall acc,
  NoDup acc ->
  NoDup (fold_left (fun seen x => if bool_decide (x ∈ seen) then seen else seen ++ [x])
                   l acc) /\
  forall x,
    x ∈ fold_left (fun seen x => if bool_decide (x ∈ seen) then seen else seen ++ [x])
                  l acc
    <-> x ∈ acc \/ x ∈ l.
Proof.
  induction l as [|y l IH]; intros acc Hnd; simpl.
  - split; [done|]. intros x. split; [now left|]. intros [?|Hin]; [done|].
    now apply elem_of_nil in Hin.
  - destruct (bool_decide_reflect (y ∈ acc)) as [Hy|Hy].
    + destruct (IH acc Hnd) as [Hnd' Hel]. split; [done|].
      intros x. rewrite Hel, elem_of_cons. split; [intros [?|?]; auto|].
      intros [?|[->|?]]; auto.
    + assert (Hnd1 : NoDup (acc ++ [y])).
      { apply NoDup_app. split; [done|]. split; [|apply NoDup_singleton].
        intros x Hx Hx'. apply list_elem_of_singleton in Hx'. now subst. }
      destruct (IH _ Hnd1) as [Hnd' Hel]. split; [done|].
      intros x. rewrite Hel, elem_of_app, list_elem_of_singleton, elem_of_cons.
      split; [intros [[?|?]|?]; auto | intros [?|[?|?]]; auto].
Qed.

Lemma scan_terms_spec (words : list string) : forall prev t,
  t ∈ scan_terms prev words ->
  (2 < Z.of_nat (String.length t)) /\
  (exists c rest, t = String c rest /\ isupper c = true) /\
  exists word, word ∈ words /\ t = strip punctuation word.
Proof.
  induction words as [|word words IH]; intros prev t; simpl.
  - intros Hin. now apply elem_of_nil in Hin.
  - assert (Hrest : t ∈ scan_terms (Some word) words ->
              (2 < Z.of_nat (String.length t)) /\
              (exists c rest, t = String c rest /\ isupper c = true) /\
              exists word', word' ∈ word :: words /\ t = strip punctuation word').
    { intros Hin. apply IH in Hin as (Hlen & Hup & word' & Hw & Ht).
      split; [done|]. split; [done|]. exists word'. split; [now right | done]. }
    destruct prev as [before|]; [|exact Hrest].
    destruct (_ && negb (endswith_dot before)) eqn:Hcond; [|exact Hrest].
    intros Hin. apply elem_of_cons in Hin as [->|Hin]; [|now apply Hrest].
    apply andb_prop in Hcond as [Hcap _]. apply andb_prop in Hcap as [Hlen Hup].
    split; [now apply Z.ltb_lt in Hlen|]. split.
    + destruct (strip punctuation word) as [|c rest]; [discriminate|]. eauto.
    + exists word. split; [left | done].
Qed.

Lemma scan_terms_skips_first word words :
  scan_terms None (word :: words) = scan_terms (Some word) words.
Proof. reflexivity. Qed.

(** X6: the technical terms returned are pairwise distinct; each is a word of
    the text stripped of its surrounding punctuation, longer than two
    characters and starting with a capital letter; and for a non-negative
    [max_terms] there are at most that many. *)
Theorem technical_terms_spec (text : string) (max_terms : Z) :
  NoDup (extract_technical_terms text max_terms) /\
  Forall (fun t =>
            2 < Z.of_nat (String.length t) /\
            (exists c rest, t = String c rest /\ isupper c = true) /\
            exists word, word ∈ split text /\ t = strip punctuation word)
         (extract_technical_terms text max_terms) /\
  (0 <= max_terms -> len (extract_technical_terms text max_terms) <= max_terms).
Proof.
  unfold extract_technical_terms, unique_in_order.
  destruct (unique_in_order_spec (scan_terms None (split text)) [] (NoDup_nil_2))
    as [Hnd Hel].
  set (unique := fold_left _ _ _) in *.
  assert (Hsub : forall n, take n unique `sublist_of` unique) by (intros; apply sublist_take).
  assert (Hall : Forall (fun t =>
            2 < Z.of_nat (String.length t) /\
            (exists c rest, t = String c rest /\ isupper c = true) /\
            exists word, word ∈ split text /\ t = strip punctuation word) unique).
  { apply Forall_forall. intros t Ht. apply Hel in Ht as [Ht|Ht].
    - now apply elem_of_nil in Ht.
    - now apply scan_terms_spec in Ht. }
  unfold upto. destruct (Z.leb_spec 0 max_terms) as [Hpos|Hneg].
  - split; [eapply sublist_NoDup; [exact Hnd | apply Hsub]|].
    split; [now apply Forall_take|].
    intros _. unfold len. rewrite length_take. lia.
  - split; [eapply sublist_NoDup; [exact Hnd | apply Hsub]|].
    split; [now apply Forall_take | lia].
Qed.

(** ** Ties *)

Lemma insert_desc_stable k x l :
  List.filter (fun e => snd e =? k) (insert_desc x l)
    = List.filter (fun e => snd e =? k) (x :: l).
Proof.
  induction l as [|y l IH]; [done|]. simpl insert_desc.
  destruct (Z.ltb_spec (snd x) (snd y)) as [Hlt|Hge]; [|done].
  simpl. simpl in IH. rewrite IH.
  destruct (Z.eqb_spec (snd y) k) as [Hy|Hy]; [|done].
  destruct (Z.eqb_spec (snd x) k) as [Hx|Hx]; [lia | done].
Qed.

(** The sort is stable: the items of one score keep their order. *)
Lemma sorted_desc_stable k l :
  List.filter (fun e => snd e =? k) (sorted_desc l)
    = List.filter (fun e => snd e =? k) l.
Proof.
  induction l as [|x l IH]; [done|]. simpl sorted_desc.
  rewrite insert_desc_stable. simpl. now rewrite IH.
Qed.

Lemma filter_names (f : string -> Z) k (l : list (string * Z)) :
  Forall (fun e => snd e = f (fst e)) l ->
  List.filter (fun d => f d =? k) (map fst l)
    = map fst (List.filter (fun e => snd e =? k) l).
Proof.
  induction 1 as [|e l He Hl IH]; [done|]. simpl. rewrite <- He.
  destruct (snd e =? k); simpl; now rewrite IH.
Qed.

Lemma scored_scores text mk :
  Forall (fun e => snd e = score_of text (fst e)) (scored (lower text) mk TECH_DOMAINS).
Proof.
  apply Forall_forall. intros e He. unfold scored in He.
  apply list_elem_of_fmap in He as ([d kws] & -> & Hin). cbn [fst snd].
  apply list_elem_of_In, filter_In in Hin as [Hin _].
  symmetry. apply score_of_item. now apply list_elem_of_In.
Qed.

(** X7: among the domains [classify] returns, those with the same match
    count come in the order of the domain table. *)
Theorem classify_ties_in_table_order (text : string) (min_keywords k : Z) :
  qualifying text min_keywords <> [] ->
  List.filter (fun d => score_of text d =? k) (classify text min_keywords)
    = List.filter (fun d => score_of text d =? k) (qualifying text min_keywords).
Proof.
  intros Hq. unfold classify. cbv zeta. rewrite domain_scores_eq.
  assert (Hnames : map fst (scored (lower text) min_keywords TECH_DOMAINS)
                   = qualifying text min_keywords)
    by (unfold qualifying; apply scored_names).
  assert (Hne : map fst (sorted_desc (scored (lower text) min_keywords TECH_DOMAINS))
                <> []).
  { intros Hnil. apply Hq. rewrite <- Hnames.
    apply Permutation_nil_r. rewrite <- Hnil. now rewrite sorted_desc_perm. }
  rewrite (or_general_nonempty _ Hne).
  rewrite <- Hnames.
  rewrite !(filter_names (score_of text)).
  - now rewrite sorted_desc_stable.
  - apply scored_scores.
  - pose proof (scored_scores text min_keywords) as Hall.
    rewrite Forall_forall in Hall. apply Forall_forall. intros e He.
    apply Hall. now rewrite sorted_desc_perm in He.
Qed.

Lemma classify_ties_in_table_order_witness :
  List.filter (fun d => score_of "a gear and a motor; code and data" d =? 2)
              (classify "a gear and a motor; code and data" 2)
    = List.filter (fun d => score_of "a gear and a motor; code and data" d =? 2)
                  (qualifying "a gear and a motor; code and data" 2).
Proof.
  apply (classify_ties_in_table_order "a gear and a motor; code and data" 2 2).
  vm_compute. discriminate.
Defined.

(** ** Letter case *)

Lemma lower_char_idempotent c : lower_char (lower_char c) = lower_char c.
Proof. destruct c as [[] [] [] [] [] [] [] []]; vm_compute; reflexivity. Qed.

Lemma lower_idempotent s : lower (lower s) = lower s.
Proof.
  induction s as [|c s IH]; [done|]. simpl. now rewrite lower_char_idempotent, IH.
Qed.

(** X8: the classification ignores letter case: a text and its lower-cased
    form get the same domains, with the same match counts. *)
Theorem classify_ignores_case (text : string) (min_keywords : Z) :
  classify (lower text) min_keywords = classify text min_keywords /\
  forall d, score_of (lower text) d = score_of text d.
Proof.
  unfold classify, score_of. now rewrite lower_idempotent.
Qed.

(** ** Hints *)

(** X9: the CPC hints depend only on which domains are given, not on their
    order or repetition, nor on the order a set is iterated in. *)
Theorem get_cpc_hints_of_same_domains (order1 order2 : set_order)
    (domains1 domains2 : list string) :
  (forall d, d ∈ domains1 <-> d ∈ domains2) ->
  Permutation (get_cpc_hints order1 domains1) (get_cpc_hints order2 domains2).
Proof.
  intros Hsame.
  apply NoDup_Permutation; [apply list_of_set_nodup.. |].
  intros h. rewrite !get_cpc_hints_elem.
  split; intros (d & hints & Hd & Hm & Hh); exists d, hints;
    (split; [now apply Hsame | done]).
Qed.

Lemma get_cpc_hints_of_same_domains_witness :
  Permutation
    (get_cpc_hints Pipeline.first_seen ["software"; "optics"; "software"])
    (get_cpc_hints Pipeline.first_seen ["optics"; "software"]).
Proof.
  apply (get_cpc_hints_of_same_domains Pipeline.first_seen Pipeline.first_seen
           ["software"; "optics"; "software"] ["optics"; "software"]).
  intros d. rewrite !elem_of_cons. split.
  - intros [->|[->|[->|Hin]]]; auto; now apply elem_of_nil in Hin.
  - intros [->|[->|Hin]]; auto; now apply elem_of_nil in Hin.
Defined.

(** X10: with a threshold of zero or less every domain of the table is
    returned, whatever the text, and the fallback label never is. *)
Theorem classify_without_threshold (text : string) (min_keywords : Z) :
  min_keywords <= 0 ->
  Permutation (classify text min_keywords) (map fst TECH_DOMAINS) /\
  "general" ∉ classify text min_keywords.
Proof.
  intros Hmk.
  assert (Hq : qualifying text min_keywords = map fst TECH_DOMAINS).
  { unfold qualifying. f_equal.
    apply forallb_filter_id. apply forallb_forall. intros item _.
    apply Z.leb_le. unfold matches. pose proof (len_nonneg
      (List.filter (fun keyword => contains keyword (lower text)) (snd item))). lia. }
  destruct (sorted_domains_spec text min_keywords) as [Hperm _].
  unfold classify. cbv zeta.
  rewrite or_general_nonempty.
  - rewrite Hperm, Hq. split; [done|]. vm_compute. intros Hin.
    repeat (apply elem_of_cons in Hin as [Hin|Hin]; [discriminate|]).
    now apply elem_of_nil in Hin.
  - intros Hnil. rewrite Hnil, Hq in Hperm. apply Permutation_nil_l in Hperm.
    discriminate.
Qed.

Lemma classify_without_threshold_witness :
  Permutation (classify "nothing of note" 0) (map fst TECH_DOMAINS) /\
  "general" ∉ classify "nothing of note" 0.
Proof. apply (classify_without_threshold "nothing of note" 0). lia. Defined.

End DomainClassifierMore.

(** * More on the loops *)

Lemma for_each_raises_at {A S} (body : S -> A -> result S) (l : list A) (x : A) :
  x ∈ l -> (forall s, is_ok (body s x) = false) ->
  forall s, is_ok (for_each body l s) = false.
Proof.
  intros Hin Hx. induction l as [|y l IH]; intros s; [now apply elem_of_nil in Hin|].
  simpl. apply elem_of_cons in Hin as [<-|Hin].
  - specialize (Hx s). now destruct (body s x).
  - destruct (body s y) as [s1|e]; simpl; [now apply IH | done].
Qed.

Lemma for_each_raise_from {A S} (body : S -> A -> result S) (l : list A) :
  forall s e, for_each body l s = Raise e ->
  exists x s', x ∈ l /\ body s' x = Raise e.
Proof.
  induction l as [|y l IH]; intros s e; simpl; [discriminate|].
  destruct (body s y) as [s1|e1] eqn:Hy; simpl.
  - intros Hrest. apply IH in Hrest as (x & s' & Hin & Hx).
    exists x, s'. split; [now right | done].
  - intros [= <-]. exists y, s. split; [left | done].
Qed.

(** * More on the embedder *)

Module PatentEmbedderMore.
Import PatentEmbedder PatentEmbedderInputs.

(** X11: a batch size of zero makes [generate_embeddings] raise a
    [ValueError] on any non-empty input, and a negative batch size makes it
    return no embedding at all, without an error. *)
Theorem generate_embeddings_without_batches (self : t) (texts : list string)
    (batch_size : Z) :
  texts <> [] -> batch_size <= 0 ->
  generate_embeddings self texts batch_size =
    if batch_size =? 0
    then Raise (Exn "ValueError" "range() arg 3 must not be zero")
    else Ok [].
Proof.
  intros Hne Hbs. unfold generate_embeddings.
  destruct texts as [|t0 texts]; [done|].
  unfold _generate_batch, py_range.
  destruct (Z.eqb_spec batch_size 0) as [->|Hnz]; [done|].
  destruct (Z.ltb_spec 0 batch_size) as [?|_]; [lia|].
  assert (Hfuel : Z.to_nat (0 - len (t0 :: texts)) = 0%nat)
    by (pose proof (len_nonneg (t0 :: texts)); lia).
  rewrite Hfuel. reflexivity.
Qed.

Lemma generate_embeddings_without_batches_witness :
  generate_embeddings length_embedder ["ab"; "c"; "def"] (-4) =
    if -4 =? 0
    then Raise (Exn "ValueError" "range() arg 3 must not be zero")
    else Ok [].
Proof.
  apply (generate_embeddings_without_batches length_embedder ["ab"; "c"; "def"] (-4)).
  - discriminate.
  - lia.
Defined.

Lemma range_up_elem (fuel : nat) (stop step : Z) : forall i x,
  0 < step -> x ∈ range_up fuel i stop step ->
  i <= x < stop /\ exists k, 0 <= k /\ x = i + k * step.
Proof.
  induction fuel as [|fuel IH]; intros i x Hstep; simpl.
  - intros Hin. now apply elem_of_nil in Hin.
  - destruct (Z.ltb_spec i stop) as [Hlt|Hge];
      [|intros Hin; now apply elem_of_nil in Hin].
    intros Hin. apply elem_of_cons in Hin as [->|Hin].
    + split; [lia|]. exists 0. lia.
    + apply IH in Hin as [Hrange (k & Hk & ->)]; [|done].
      split; [lia|]. exists (k + 1). lia.
Qed.

(** X12: with a batch size of at least 1, [generate_embeddings] raises only
    what the model raised: the batch at fault is the slice of the texts that
    starts at some multiple of the batch size. *)
Theorem generate_embeddings_raises_from_model (self : t) (texts : list string)
    (batch_size : Z) (e : exn) :
  1 <= batch_size ->
  generate_embeddings self texts batch_size = Raise e ->
  exists k,
    0 <= k /\ k * batch_size < len texts /\
    get_text_embedding_batch (embed_model self)
      (slice texts (k * batch_size) (k * batch_size + batch_size)) = Raise e.
Proof.
  intros Hbs. unfold generate_embeddings.
  destruct texts as [|t0 texts0] eqn:Htexts; [discriminate|]. rewrite <- Htexts.
  unfold _generate_batch, py_range.
  destruct (Z.eqb_spec batch_size 0) as [?|_]; [lia|].
  destruct (Z.ltb_spec 0 batch_size) as [_|?]; [|lia].
  cbn [mbind result_bind]. intros Hrun.
  apply for_each_raise_from in Hrun as (i & acc & Hin & Hstep).
  apply range_up_elem in Hin as [Hrange (k & Hk & ->)]; [|lia].
  exists k. rewrite Z.add_0_l in *. split; [done|]. split; [lia|].
  unfold batch_step in Hstep.
  destruct (get_text_embedding_batch _ _) as [vs|e']; [discriminate|].
  simpl in Hstep. congruence.
Qed.

Lemma generate_embeddings_raises_from_model_witness :
  exists k,
    0 <= k /\ k * 2 < len ["ab"; "c"; "def"] /\
    get_text_embedding_batch (embed_model short_only_embedder)
      (slice ["ab"; "c"; "def"] (k * 2) (k * 2 + 2)) = Raise too_long.
Proof.
  apply (generate_embeddings_raises_from_model short_only_embedder
           ["ab"; "c"; "def"] 2 too_long).
  - lia.
  - reflexivity.
Defined.

End PatentEmbedderMore.

(** * More on the chunker *)

Module LlamaChunkerMore.
Import LlamaChunker LlamaChunkerFacts.

Lemma sections_loop_skips self base sections : forall st,
  for_each (section_step self base) sections st
    = for_each (section_step self base)
               (List.filter (fun sec => has_text (snd sec)) sections) st.
Proof.
  induction sections as [|[name texts] sections IH]; intros st; [done|].
  destruct texts as [|t texts]; simpl.
  - apply IH.
  - destruct (get_nodes_from_documents self _) as [nodes|e]; simpl; [|done].
    destruct (for_each _ (enumerate nodes) st) as [st1|e]; simpl; [apply IH | done].
Qed.

(** X13: sections without text are skipped: chunking gives the same result,
    or the same error, as chunking the sections that have text. *)
Theorem chunk_sections_skips_empty self sections base :
  chunk_sections self sections base
    = chunk_sections self (List.filter (fun sec => has_text (snd sec)) sections) base.
Proof. unfold chunk_sections. now rewrite sections_loop_skips. Qed.

(** X14: chunking is all or nothing: when some table has no ['text'] entry,
    or the splitter raises on some section that has text, the call raises
    and returns no chunk. *)
Theorem chunking_all_or_nothing self base :
  (forall tables table,
      table ∈ tables -> table !! "text" = None ->
      is_ok (chunk_tables self tables base) = false) /\
  (forall sections name texts,
      (name, texts) ∈ sections -> texts <> [] ->
      is_ok (get_nodes_from_documents self [section_doc base name texts]) = false ->
      is_ok (chunk_sections self sections base) = false).
Proof.
  split.
  - intros tables table Hin Hnone. unfold chunk_tables, enumerate.
    assert (Hen : forall i, exists j, (j, table) ∈ enumerate_from i tables).
    { induction tables as [|tb tables IH]; intros i; [now apply elem_of_nil in Hin|].
      apply elem_of_cons in Hin as [<-|Hin].
      - exists i. left.
      - destruct (IH Hin (i + 1)) as [j Hj]. exists j. now right. }
    destruct (Hen 0) as [j Hj].
    apply (for_each_raises_at _ _ _ Hj). intros s.
    unfold table_step, table_text. now rewrite Hnone.
  - intros sections name texts Hin Hne Hsplit. unfold chunk_sections.
    assert (Hloop : is_ok (for_each (section_step self base) sections ([], 0)) = false).
    { apply (for_each_raises_at _ _ _ Hin). intros s. unfold section_step.
      destruct texts as [|t texts]; [done|].
      now destruct (get_nodes_from_documents self _). }
    now destruct (for_each _ sections _).
Qed.

Lemma chunking_all_or_nothing_witness :
  is_ok (chunk_tables whole_splitter [∅] ∅) = false /\
  is_ok (chunk_sections LlamaChunkerInputs.refusing_splitter one_section ∅) = false.
Proof.
  split.
  - apply (proj1 (chunking_all_or_nothing whole_splitter ∅) [∅] ∅);
      [left | reflexivity].
  - apply (proj2 (chunking_all_or_nothing LlamaChunkerInputs.refusing_splitter ∅)
             one_section "introduction" ["alpha beta"]);
      [left | discriminate | reflexivity].
Defined.

End LlamaChunkerMore.

(** * Chunk metadata *)

Module ChunkMetadata.
Import LlamaChunker LlamaChunkerFacts ChunkTags.

Lemma insert_other (m : gmap string pyval) (k k' : string) (v : pyval) :
  k' <> k -> <[k := v]> m !! k' = m !! k'.
Proof. intros Hne. now apply lookup_insert_ne. Qed.

Lemma section_step_metadata base name nodes0 nodes : forall i acc g st',
  0 <= i -> i + len nodes <= len nodes0 ->
  Forall (section_chunk_tagged base) acc ->
  for_each (section_chunk_step base name nodes0) (enumerate_from i nodes) (acc, g)
    = Ok st' ->
  Forall (section_chunk_tagged base) (fst st').
Proof.
  induction nodes as [|n nodes IH]; intros i acc g st' Hi Hlen Hacc; simpl.
  - now intros [= <-].
  - destruct (_estimate_tokens (node_text n)) as [tk|e]; simpl; [|done].
    rewrite len_cons in Hlen. pose proof (len_nonneg nodes) as Hnn.
    apply IH; [lia | lia |].
    apply Forall_app. split; [done|]. constructor; [|constructor].
    unfold section_chunk_tagged. cbn [metadata section_type]. split; [|split].
    + rewrite !insert_other by discriminate. apply lookup_insert_eq.
    + exists i, (len nodes0). split; [|split; [|lia]].
      * rewrite insert_other by discriminate. apply lookup_insert_eq.
      * apply lookup_insert_eq.
    + intros k Hk. rewrite !lookup_insert_ne; [done|..];
        intros <-; apply Hk; unfold section_keys; set_solver.
Qed.

Lemma sections_metadata self base sections : forall st st',
  Forall (section_chunk_tagged base) (fst st) ->
  for_each (section_step self base) sections st = Ok st' ->
  Forall (section_chunk_tagged base) (fst st').
Proof.
  induction sections as [|[name texts] sections IH]; intros st st' Hst; simpl.
  - now intros [= <-].
  - destruct texts as [|t texts]; simpl; [now apply IH|].
    destruct (get_nodes_from_documents self _) as [nodes|e]; simpl; [|done].
    destruct (for_each _ (enumerate nodes) st) as [st1|e] eqn:Hinner; simpl; [|done].
    apply IH. destruct st as [acc g].
    eapply (section_step_metadata base name nodes nodes 0); [lia | lia | exact Hst |].
    exact Hinner.
Qed.

Lemma tables_metadata base tables : forall i acc st',
  Forall (table_chunk_tagged base) acc ->
  for_each (table_step base) (enumerate_from i tables) acc = Ok st' ->
  Forall (table_chunk_tagged base) st'.
Proof.
  induction tables as [|tb tables IH]; intros i acc st' Hacc; simpl.
  - now intros [= <-].
  - destruct (table_text tb) as [txt|e]; simpl; [|done].
    destruct (_estimate_tokens txt) as [tk|e]; simpl; [|done].
    apply IH. apply Forall_app. split; [done|]. constructor; [|constructor].
    unfold table_chunk_tagged. cbn [metadata section_type chunk_index].
    split; [done|]. split; [|split].
    + rewrite !insert_other by discriminate. apply lookup_insert_eq.
    + rewrite insert_other by discriminate. apply lookup_insert_eq.
    + intros k Hk. rewrite !lookup_insert_ne; [done|..];
        intros <-; apply Hk; unfold table_keys; set_solver.
Qed.

Lemma chunk_sections_tagged self sections base sc :
  chunk_sections self sections base = Ok sc -> Forall (section_chunk_tagged base) sc.
Proof.
  unfold chunk_sections.
  destruct (for_each (section_step self base) sections ([], 0)) as [st|e] eqn:Hs;
    [|done].
  simpl. intros [= <-]. eapply sections_metadata; [|exact Hs]. constructor.
Qed.

Lemma chunk_tables_tagged self tables base tc :
  chunk_tables self tables base = Ok tc -> Forall (table_chunk_tagged base) tc.
Proof.
  unfold chunk_tables, enumerate. intros Ht.
  eapply tables_metadata; [|exact Ht]. constructor.
Qed.

(** X15: every chunk carries the base metadata under every key the chunker
    does not set itself; a section chunk records its section name and its
    position among the pieces of its section, a table chunk the label
    "table" and its own index. *)
Theorem chunks_carry_base_metadata self sections tables base sc tc :
  chunk_sections self sections base = Ok sc ->
  chunk_tables self tables base = Ok tc ->
  Forall (section_chunk_tagged base) sc /\ Forall (table_chunk_tagged base) tc.
Proof.
  intros Hs Ht. split.
  - now apply (chunk_sections_tagged self sections).
  - now apply (chunk_tables_tagged self tables).
Qed.

Lemma chunks_carry_base_metadata_witness :
  exists sc tc,
    chunk_sections whole_splitter one_section {[ "document_id" := VStr "doc-1" ]} = Ok sc /\
    chunk_tables whole_splitter one_table {[ "document_id" := VStr "doc-1" ]} = Ok tc /\
    Forall (section_chunk_tagged {[ "document_id" := VStr "doc-1" ]}) sc /\
    Forall (table_chunk_tagged {[ "document_id" := VStr "doc-1" ]}) tc.
Proof.
  eexists; eexists. split; [reflexivity|]. split; [reflexivity|].
  apply (chunks_carry_base_metadata whole_splitter one_section one_table
           {[ "document_id" := VStr "doc-1" ]}); reflexivity.
Defined.

End ChunkMetadata.

(** * More on the pipeline *)

Module PipelineMore.
Import Schemas Models Pipeline PipelineFacts PipelineOrder.

Lemma run_stages_ok_inv self id path proj prim st :
  snd (run_stages self id path proj prim) = Ok st ->
  fst (run_stages self id path proj prim) = stage_order /\
  exists sc tc,
    LlamaChunker.chunk_sections (chunker self)
      (Extractors.sections (extracted st))
      (base_metadata_of id proj prim (domains st) (cpc_hints st)) = Ok sc /\
    LlamaChunker.chunk_tables (chunker self)
      (Extractors.tables (extracted st))
      (base_metadata_of id proj prim (domains st) (cpc_hints st)) = Ok tc /\
    all_chunks st = sc ++ tc /\
    PatentEmbedder.generate_embeddings (embedder self)
      (map LlamaChunker.text (all_chunks st)) PatentEmbedder.default_batch_size
      = Ok (embeddings st).
Proof.
  unfold run_stages.
  destruct (Extractors.extract _ _) as [ex|e]; [|discriminate].
  destruct (LlamaChunker.chunk_sections _ _ _) as [sc|e] eqn:Hsc; [|discriminate].
  destruct (LlamaChunker.chunk_tables _ _ _) as [tc|e] eqn:Htc; [|discriminate].
  destruct (PatentEmbedder.generate_embeddings _ _ _) as [embs|e] eqn:Hemb;
    [|discriminate].
  cbn [fst snd]. intros [= <-]. cbn [extracted domains cpc_hints all_chunks embeddings].
  split; [done|]. exists sc, tc. done.
Qed.


(** ** The session after a run *)

Lemma db_completed_chunks self db id doc st now :
  current db id = Some doc ->
  chunk_rows (db_completed self db id doc st now)
    = chunk_rows db ++ added db
      ++ map (db_chunk id) (zip (all_chunks st) (embeddings st)) /\
  added (db_completed self db id doc st now) = [].
Proof.
  intros Hdoc. apply query_first_found in Hdoc as (_ & _ & Hc & Ha).
  unfold db_completed, db_processing.
  cbn [rows commit loaded write chunk_rows added add_list].
  now rewrite Hc, Ha, <- app_assoc.
Qed.

Lemma db_completed_document self db id doc st now :
  current db id = Some doc ->
  loaded (db_completed self db id doc st now) !! id
    = Some (set_metadata
              (merged_metadata self (extracted st) (domains st) (technical_terms st)
                 (cpc_hints st) (all_chunks st) (metadata doc))
              (set_processed_at (Some now)
                 (set_processing_status "completed"
                    (set_processing_status "processing" doc)))) /\
  rows (db_completed self db id doc st now) !! id
    = loaded (db_completed self db id doc st now) !! id.
Proof.
  intros Hdoc. pose proof (db_processing_loaded _ _ _ Hdoc) as Hl.
  unfold db_completed. cbn [rows commit loaded write add_list chunk_rows].
  assert (Hlook : forall m : gmap string Document, forall d,
             m !! id = Some d -> forall r : gmap string Document, (m ∪ r) !! id = Some d)
    by (intros m d Hm r; now apply lookup_union_Some_l).
  rewrite !lookup_alter_eq, Hl. cbn [fmap option_fmap option_map].
  split; [done|]. apply Hlook. now rewrite !lookup_alter_eq, Hl.
Qed.

Lemma db_failed_document db id doc e :
  loaded db !! id = Some doc ->
  rows (db_failed db id e) !! id
    = Some (set_processing_error (Some (str_of_exn e))
              (set_processing_status "failed" doc)) /\
  chunk_rows (db_failed db id e) = chunk_rows db ++ added db /\
  added (db_failed db id e) = [].
Proof.
  intros Hl. unfold db_failed. cbn [rows commit loaded write chunk_rows added].
  split; [|done]. apply lookup_union_Some_l. now rewrite !lookup_alter_eq, Hl.
Qed.

(** X16: a run for a document id the store does not know (the query for it
    answers [None]) raises [ValueError("Document <id> not found")], leaves
    the session as it was, and publishes nothing but the [failed] event: no
    stage is entered. *)
Theorem missing_document_fails self id path proj prim cb w :
  returns_normally cb ->
  queried self (db w) id = Ok None ->
  exists w',
    process_document self id path proj prim cb w = (Raise (not_found id), w') /\
    str_of_exn (not_found id)
      = String.append "Document " (String.append id " not found") /\
    db w' = db w /\
    published w' = published w ++ emitted cb [failed_event (not_found id)].
Proof.
  intros Hcb Hdoc. rewrite (process_document_missing _ _ _ _ _ _ _ Hcb Hdoc).
  eexists. split; [reflexivity|]. done.
Qed.

Lemma missing_document_fails_witness :
  exists w',
    process_document sample_pipeline "doc-9" "/tmp/documents/a.pdf" "proj-1" false
                     (Some quiet_callback) sample_world
      = (Raise (not_found "doc-9"), w') /\
    str_of_exn (not_found "doc-9")
      = String.append "Document " (String.append "doc-9" " not found") /\
    db w' = db sample_world /\
    published w' = published sample_world
                   ++ emitted (Some quiet_callback) [failed_event (not_found "doc-9")].
Proof.
  apply (missing_document_fails sample_pipeline "doc-9" "/tmp/documents/a.pdf"
           "proj-1" false (Some quiet_callback) sample_world).
  - intros call [= <-] ev. reflexivity.
  - vm_compute. reflexivity.
Defined.

(** X17: a run that returns has committed, after the rows already there, one
    chunk row per (chunk, embedding) pair in order, and the document as
    completed, stamped with the current time, with [total_chunks] set to the
    number of chunks; it leaves [processing_error] as it found it. *)
Theorem completed_run_persists self id path proj prim cb w r w' doc :
  current (db w) id = Some doc ->
  process_document self id path proj prim cb w = (Ok r, w') ->
  exists st doc',
    snd (run_stages self id path proj prim) = Ok st /\
    chunk_rows (db w')
      = chunk_rows (db w) ++ added (db w)
        ++ map (db_chunk id) (zip (all_chunks st) (embeddings st)) /\
    added (db w') = [] /\
    rows (db w') !! id = Some doc' /\
    processing_status doc' = "completed" /\
    processed_at doc' = Some (utcnow w) /\
    processing_error doc' = processing_error doc /\
    metadata doc' !! "total_chunks" = Some (VInt (len (all_chunks st))).
Proof.
  intros Hdoc Hrun. unfold process_document, try_except in Hrun.
  destruct (process_document_body self id path proj prim cb w)
    as [[r0|e] w1] eqn:Hbody; [|apply handler_raises in Hrun; discriminate].
  injection Hrun as <- <-.
  apply body_ok_inv in Hbody as (doc0 & st & Hdoc0 & Hst & ->).
  assert (doc0 = doc) as -> by congruence.
  destruct (db_completed_chunks self (db w) id doc st (utcnow w) Hdoc) as [Hrows Hadded].
  destruct (db_completed_document self (db w) id doc st (utcnow w) Hdoc) as [Hl Hr].
  eexists st, _. split; [done|]. split; [done|]. split; [done|].
  split; [rewrite Hr; exact Hl|]. cbn. repeat split.
  unfold merged_metadata. rewrite !lookup_insert_ne by discriminate.
  apply lookup_insert_eq.
Qed.

Lemma completed_run_persists_witness :
  exists r w' st doc',
    process_document sample_pipeline "doc-1" "/tmp/documents/a.pdf" "proj-1"
                     false None sample_world = (Ok r, w') /\
    snd (run_stages sample_pipeline "doc-1" "/tmp/documents/a.pdf" "proj-1" false)
      = Ok st /\
    chunk_rows (db w')
      = chunk_rows (db sample_world) ++ added (db sample_world)
        ++ map (db_chunk "doc-1") (zip (all_chunks st) (embeddings st)) /\
    added (db w') = [] /\
    rows (db w') !! "doc-1" = Some doc' /\
    processing_status doc' = "completed" /\
    processed_at doc' = Some (utcnow sample_world) /\
    processing_error doc' = processing_error sample_document /\
    metadata doc' !! "total_chunks" = Some (VInt (len (all_chunks st))).
Proof.
  destruct sample_run_completes as (r & w' & Hrun).
  exists r, w'.
  destruct (completed_run_persists sample_pipeline "doc-1" "/tmp/documents/a.pdf"
              "proj-1" false None sample_world r w' sample_document
              sample_document_found Hrun) as (st & doc' & H).
  exists st, doc'. split; [exact Hrun | exact H].
Defined.



(** X19: on a Store that raises on no call and with a callback that, if one
    is given, returns normally, a run in which extraction, chunking or
    embedding raises re-raises that exception and changes nothing of the
    document but its status and its error: the metadata, the completion
    time, the storage path and the project stay as they were. *)
Theorem failed_run_keeps_document self id path proj prim cb w doc e :
  healthy self ->
  returns_normally cb ->
  current (db w) id = Some doc ->
  snd (run_stages self id path proj prim) = Raise e ->
  exists w' doc',
    process_document self id path proj prim cb w = (Raise e, w') /\
    rows (db w') !! id = Some doc' /\
    metadata doc' = metadata doc /\
    processed_at doc' = processed_at doc /\
    storage_path doc' = storage_path doc /\
    Models.project_id doc' = Models.project_id doc.
Proof.
  intros Hs Hcb Hdoc Hraise.
  rewrite (process_document_run _ _ _ _ _ _ _ _ Hs Hcb Hdoc), Hraise.
  pose proof (db_processing_loaded _ _ _ Hdoc) as Hl.
  destruct (db_failed_document _ id _ e Hl) as (Hrow & _ & _).
  eexists _, _. split; [reflexivity|]. cbn [db]. split; [exact Hrow|]. done.
Qed.

Lemma failed_run_keeps_document_witness :
  exists w' doc',
    process_document failing_pipeline "doc-1" "/tmp/documents/a.pdf" "proj-1"
                     false None sample_world = (Raise unreadable, w') /\
    rows (db w') !! "doc-1" = Some doc' /\
    metadata doc' = metadata sample_document /\
    processed_at doc' = processed_at sample_document /\
    storage_path doc' = storage_path sample_document /\
    Models.project_id doc' = Models.project_id sample_document.
Proof.
  apply (failed_run_keeps_document failing_pipeline "doc-1" "/tmp/documents/a.pdf"
           "proj-1" false None sample_world sample_document unreadable).
  - exact failing_store_healthy.
  - exact no_callback_returns.
  - exact sample_document_found.
  - reflexivity.
Defined.


(** ** A callback that fails late *)

Lemma update_progress_some call stage progress error w :
  call (progress_event stage progress error) = Ok tt ->
  _update_progress (Some call) stage progress error w
    = (Ok tt, {| db := db w;
                 published := published w ++ [progress_event stage progress error];
                 utcnow := utcnow w |}).
Proof. simpl. now intros ->. Qed.

Lemma body_reaches_completion self id path proj prim call w doc st :
  healthy self ->
  Forall (fun s => call (announcement s) = Ok tt) stage_order ->
  current (db w) id = Some doc ->
  snd (run_stages self id path proj prim) = Ok st ->
  process_document_body self id path proj prim (Some call) w =
    (match call complete_event with
     | Ok _ => Ok (summary id (extracted st) (domains st) (all_chunks st))
     | Raise e => Raise e
     end,
     {| db := db_completed self (db w) id doc st (utcnow w);
        published := published w ++ map announcement stage_order ++ [complete_event];
        utcnow := utcnow w |}).
Proof.
  intros Hs Hcall Hdoc.
  apply Forall_cons in Hcall as [H1 Hcall]. apply Forall_cons in Hcall as [H2 Hcall].
  apply Forall_cons in Hcall as [H3 Hcall]. apply Forall_cons in Hcall as [H4 Hcall].
  apply Forall_cons in Hcall as [H5 _].
  unfold process_document_body, run_stages. run_step Hs.
  unfold current in Hdoc. rewrite Hdoc. run_step Hs.
  fold (db_processing (db w) id).
  rewrite (update_progress_some _ _ _ _ _ H1); cbn [db published utcnow].
  destruct (Extractors.extract (extractor self) path) as [ex|e]; [|discriminate].
  rewrite (update_progress_some _ _ _ _ _ H2); cbn [db published utcnow].
  rewrite (update_progress_some _ _ _ _ _ H3); cbn [db published utcnow].
  destruct (LlamaChunker.chunk_sections _ _ _) as [sc|e]; [|discriminate].
  destruct (LlamaChunker.chunk_tables _ _ _) as [tc|e]; [|discriminate].
  rewrite (update_progress_some _ _ _ _ _ H4); cbn [db published utcnow].
  destruct (PatentEmbedder.generate_embeddings _ _ _) as [embs|e]; [|discriminate].
  rewrite (update_progress_some _ _ _ _ _ H5); cbn [db published utcnow].
  cbn [fst snd]. intros [= <-].
  rewrite (add_all_run _ _ _ _ Hs). run_step Hs.
  erewrite (db_read_healthy _ _ _ _ Hs);
    [|cbn [db loaded write add_list]; rewrite !lookup_alter_eq;
      unfold current in *; rewrite (db_processing_loaded _ _ _ Hdoc); reflexivity].
  run_step Hs.
  unfold _update_progress. cbv zeta. cbn [db published utcnow].
  change (progress_event COMPLETE 100 None) with complete_event.
  rewrite <- !app_assoc. cbn [app].
  destruct (call complete_event) as [[]|e]; reflexivity.
Qed.

(** The [except] clause, whatever the callback answers to the [failed]
    event. *)
Lemma handler_run_some self id call e w :
  healthy self ->
  process_document_handler self id (Some call) e w
    = (match call (failed_event e) with
       | Ok _ => Raise e
       | Raise e' => Raise e'
       end,
       {| db := match current (db w) id with
                | Some _ => db_failed (snd (query_first (db w) id)) id e
                | None => db w
                end;
          published := published w ++ [failed_event e];
          utcnow := utcnow w |}).
Proof.
  intros Hs. unfold process_document_handler. run_step Hs.
  destruct (fst (query_first (db w) id)) as [doc|] eqn:Hq; run_step Hs;
    unfold _update_progress; cbv zeta; cbn [db published utcnow];
    change (progress_event FAILED 0 (Some (str_of_exn e))) with (failed_event e);
    unfold current; rewrite Hq.
  - destruct (call (failed_event e)) as [[]|e']; reflexivity.
  - rewrite (query_first_missing _ _ Hq).
    destruct (call (failed_event e)) as [[]|e']; reflexivity.
Qed.

(** X20: on a Store that raises on no call, when every stage succeeds and
    the callback, having returned on the five announcements, raises on the
    [complete] event, the document is left failed with that error, although
    its chunk rows and its completion time are committed; the callback has
    been handed a [complete] event and then a [failed] one; the run raises
    that error, or what the callback raises on the [failed] event when it
    raises again. *)
Theorem completion_notice_failure self id path proj prim call w doc st e :
  healthy self ->
  Forall (fun s => call (announcement s) = Ok tt) stage_order ->
  call complete_event = Raise e ->
  current (db w) id = Some doc ->
  snd (run_stages self id path proj prim) = Ok st ->
  exists w' doc',
    process_document self id path proj prim (Some call) w
      = (match call (failed_event e) with
         | Ok _ => Raise e
         | Raise e' => Raise e'
         end, w') /\
    chunk_rows (db w')
      = chunk_rows (db w) ++ added (db w)
        ++ map (db_chunk id) (zip (all_chunks st) (embeddings st)) /\
    rows (db w') !! id = Some doc' /\
    processing_status doc' = "failed" /\
    processing_error doc' = Some (str_of_exn e) /\
    processed_at doc' = Some (utcnow w) /\
    published w'
      = published w ++ map announcement stage_order
        ++ [complete_event; failed_event e].
Proof.
  intros Hs Hcall Hcomplete Hdoc Hst.
  unfold process_document, try_except.
  rewrite (body_reaches_completion _ _ _ _ _ _ _ _ _ Hs Hcall Hdoc Hst), Hcomplete.
  rewrite (handler_run_some _ _ _ _ _ Hs). cbn [db published utcnow].
  destruct (db_completed_document self (db w) id doc st (utcnow w) Hdoc) as [Hl _].
  destruct (db_completed_chunks self (db w) id doc st (utcnow w) Hdoc) as [Hrows Hadded].
  unfold current. rewrite (query_first_loaded _ _ _ Hl). cbn [fst snd].
  destruct (db_failed_document _ id _ e Hl) as (Hrow & Hchunks & _).
  eexists _, _. split; [reflexivity|]. cbn [db published].
  split; [now rewrite Hchunks, Hadded, app_nil_r|].
  split; [exact Hrow|]. split; [done|]. split; [done|]. split; [done|].
  now rewrite <- !app_assoc.
Qed.

Lemma late_failing_callback_profile :
  Forall (fun s => late_failing_callback (announcement s) = Ok tt) stage_order /\
  late_failing_callback complete_event = Raise observer_gone.
Proof. vm_compute. repeat split; repeat constructor. Qed.

Lemma sample_stages :
  exists st, snd (run_stages sample_pipeline "doc-1" "/tmp/documents/a.pdf"
                             "proj-1" false) = Ok st.
Proof.
  pose proof sample_stages_succeed as Hok.
  destruct (snd (run_stages sample_pipeline "doc-1" "/tmp/documents/a.pdf"
                            "proj-1" false)) as [st|e]; [|discriminate].
  now exists st.
Defined.

Lemma completion_notice_failure_witness :
  exists st w' doc',
    process_document sample_pipeline "doc-1" "/tmp/documents/a.pdf" "proj-1" false
                     (Some late_failing_callback) sample_world
      = (Raise observer_gone, w') /\
    chunk_rows (db w')
      = chunk_rows (db sample_world) ++ added (db sample_world)
        ++ map (db_chunk "doc-1") (zip (all_chunks st) (embeddings st)) /\
    rows (db w') !! "doc-1" = Some doc' /\
    processing_status doc' = "failed" /\
    processing_error doc' = Some (str_of_exn observer_gone) /\
    processed_at doc' = Some (utcnow sample_world) /\
    published w'
      = published sample_world ++ map announcement stage_order
        ++ [complete_event; failed_event observer_gone].
Proof.
  destruct sample_stages as [st Hst]. exists st.
  destruct late_failing_callback_profile as (Hann & Hcomplete).
  apply (completion_notice_failure sample_pipeline "doc-1" "/tmp/documents/a.pdf"
           "proj-1" false late_failing_callback sample_world sample_document st
           observer_gone sample_store_healthy Hann Hcomplete
           sample_document_found Hst).
Defined.

(** ** What the stored chunks carry *)

Lemma base_metadata_ids id proj prim ds hs :
  base_metadata_of id proj prim ds hs !! "document_id" = Some (VStr id) /\
  base_metadata_of id proj prim ds hs !! "project_id" = Some (VStr proj) /\
  base_metadata_of id proj prim ds hs !! "is_primary" = Some (VBool prim).
Proof.
  unfold base_metadata_of. split; [|split].
  - rewrite !lookup_insert_ne by discriminate. apply lookup_insert_eq.
  - rewrite !lookup_insert_ne by discriminate. apply lookup_insert_eq.
  - rewrite !lookup_insert_ne by discriminate. apply lookup_insert_eq.
Qed.

Lemma not_a_chunk_key (k : string) :
  k ∈ ["document_id"; "project_id"; "is_primary"] ->
  (k ∉ ChunkTags.section_keys) /\ (k ∉ ChunkTags.table_keys).
Proof.
  intros Hk. repeat (apply elem_of_cons in Hk as [->|Hk]);
    [| | |now apply elem_of_nil in Hk];
    (split; apply (bool_decide_unpack _); vm_compute; exact I).
Qed.

(** X21: every chunk row a run stores belongs to the run's document and
    carries, in its metadata, the document id, the project id and the primary
    flag the run was called with; its importance score is 1.0. *)
Theorem stored_chunks_tagged self id path proj prim cb w r w' doc :
  current (db w) id = Some doc ->
  process_document self id path proj prim cb w = (Ok r, w') ->
  exists new,
    chunk_rows (db w') = chunk_rows (db w) ++ added (db w) ++ new /\
    Forall (fun row =>
              Models.document_id row = id /\
              chunk_metadata row !! "document_id" = Some (VStr id) /\
              chunk_metadata row !! "project_id" = Some (VStr proj) /\
              chunk_metadata row !! "is_primary" = Some (VBool prim) /\
              importance_score row = Float64.of_int 1)
           new.
Proof.
  intros Hdoc Hrun. unfold process_document, try_except in Hrun.
  destruct (process_document_body self id path proj prim cb w)
    as [[r0|e] w1] eqn:Hbody; [|apply handler_raises in Hrun; discriminate].
  injection Hrun as <- <-.
  apply body_ok_inv in Hbody as (doc0 & st & Hdoc0 & Hst & ->).
  assert (doc0 = doc) as -> by congruence.
  destruct (db_completed_chunks self (db w) id doc st (utcnow w) Hdoc) as [Hrows _].
  eexists. split; [exact Hrows|].
  apply run_stages_ok_inv in Hst as (_ & sc & tc & Hsc & Htc & Hall & _).
  apply ChunkMetadata.chunk_sections_tagged in Hsc.
  apply ChunkMetadata.chunk_tables_tagged in Htc.
  rewrite Forall_forall in Hsc, Htc.
  destruct (base_metadata_ids id proj prim (domains st) (cpc_hints st))
    as (Bd & Bp & Bi).
  apply Forall_forall. intros row Hrow.
  apply list_elem_of_fmap in Hrow as ([c v] & -> & Hin).
  apply elem_of_zip_l in Hin. rewrite Hall in Hin. cbn [db_chunk Models.document_id
    chunk_metadata importance_score].
  split; [done|].
  assert (Hkeys : forall k, k ∈ ["document_id"; "project_id"; "is_primary"] ->
            LlamaChunker.metadata c !! k
            = base_metadata_of id proj prim (domains st) (cpc_hints st) !! k).
  { intros k Hk. apply not_a_chunk_key in Hk as [Hs Ht].
    apply elem_of_app in Hin as [Hin|Hin].
    - destruct (Hsc c Hin) as (_ & _ & Hbase). now apply Hbase.
    - destruct (Htc c Hin) as (_ & _ & _ & Hbase). now apply Hbase. }
  rewrite !Hkeys by set_solver. done.
Qed.

Lemma stored_chunks_tagged_witness :
  exists r w' new,
    process_document sample_pipeline "doc-1" "/tmp/documents/a.pdf" "proj-1"
                     false None sample_world = (Ok r, w') /\
    chunk_rows (db w') = chunk_rows (db sample_world) ++ added (db sample_world) ++ new /\
    Forall (fun row =>
              Models.document_id row = "doc-1" /\
              chunk_metadata row !! "document_id" = Some (VStr "doc-1") /\
              chunk_metadata row !! "project_id" = Some (VStr "proj-1") /\
              chunk_metadata row !! "is_primary" = Some (VBool false) /\
              importance_score row = Float64.of_int 1)
           new.
Proof.
  destruct sample_run_completes as (r & w' & Hrun).
  exists r, w'.
  destruct (stored_chunks_tagged sample_pipeline "doc-1" "/tmp/documents/a.pdf"
              "proj-1" false None sample_world r w' sample_document
              sample_document_found Hrun) as (new & H).
  exists new. split; [exact Hrun | exact H].
Defined.

End PipelineMore.

(** * Publishing in sequence *)

Module PublishingFacts.
Import ConnectionManager ConnectionManagerFacts ConnectionManagerMore Publishing.

Lemma received_app c l1 l2 : received c (l1 ++ l2) = received c l1 ++ received c l2.
Proof. unfold received. now rewrite List.filter_app, map_app. Qed.

Lemma received_none c log : c ∉ map to log -> received c log = [].
Proof.
  unfold received. induction log as [|a log IH]; [done|]. simpl.
  intros Hnot. apply not_elem_of_cons in Hnot as [Hne Hnot].
  rewrite bool_decide_false by congruence. now apply IH.
Qed.

Lemma received_once c d log :
  NoDup (map to log) -> c ∈ map to log -> Forall (fun a => payload a = d) log ->
  received c log = [d].
Proof.
  induction log as [|a log IH]; simpl; intros Hnd Hin Hpay.
  - now apply elem_of_nil in Hin.
  - apply NoDup_cons in Hnd as [Hfresh Hnd]. apply Forall_cons in Hpay as [Ha Hpay].
    unfold received. simpl. destruct (bool_decide_reflect (to a = c)) as [Heq|Hne].
    + simpl. rewrite Ha. f_equal. apply received_none. now rewrite <- Heq.
    + apply elem_of_cons in Hin as [Heq|Hin]; [congruence|]. now apply IH.
Qed.

(** One publish, seen from one connection. *)
Lemma send_progress_received net self id d c :
  exists self' log,
    send_progress net self id d = (Ok tt, self', log) /\
    (registered self id c -> received c log = [d]) /\
    (~ registered self id c -> received c log = []) /\
    (forall id' c', registered self' id' c' <->
                    registered self id' c' /\ ~ (id' = id /\ fails net d c')).
Proof.
  destruct (send_progress_effect net self id d) as (self' & log & Hsp & Hreg & Hlog & Hpay).
  exists self', log. split; [done|].
  assert (Hnd : NoDup (map to log)).
  { unfold send_progress in Hsp.
    destruct (active_connections self !! id) as [s|]; [|injection Hsp as <- <-; constructor].
    destruct (fold_left _ _ _) as [self1 log1] eqn:Hfold.
    apply send_loop in Hfold as (_ & (new & -> & Hto & _) & _).
    injection Hsp as <- <-. simpl. rewrite Hto. apply NoDup_elements. }
  split; [|split; [|done]].
  - intros Hr. apply (received_once c d); [done | now apply Hlog | done].
  - intros Hr. apply received_none. now rewrite Hlog.
Qed.

Lemma publish_loop net id c events : forall self log self' log',
  fold_left (publish_step net id) events (self, log) = (self', log') ->
  registered self id c ->
  (forall ev, ev ∈ events -> ~ fails net ev c) ->
  received c log' = received c log ++ events /\ registered self' id c.
Proof.
  induction events as [|ev events IH]; intros self log self' log'; simpl.
  - intros [= <- <-] Hr _. now rewrite app_nil_r.
  - destruct (send_progress_received net self id ev c)
      as (self1 & log1 & Hsp & Hyes & _ & Hreg).
    rewrite Hsp. intros Hfold Hr Hok.
    apply IH in Hfold as [Hrec Hr'].
    + split; [|done]. rewrite Hrec, received_app, (Hyes Hr), <- app_assoc. done.
    + apply Hreg. split; [done|]. intros [_ Hf]. apply (Hok ev); [left | done].
    + intros ev' Hin. apply Hok. now right.
Qed.

Lemma publish_loop_gone net id c events : forall self log self' log',
  fold_left (publish_step net id) events (self, log) = (self', log') ->
  ~ registered self id c ->
  received c log' = received c log /\ ~ registered self' id c.
Proof.
  induction events as [|ev events IH]; intros self log self' log'; simpl.
  - now intros [= <- <-] Hr.
  - destruct (send_progress_received net self id ev c)
      as (self1 & log1 & Hsp & _ & Hno & Hreg).
    rewrite Hsp. intros Hfold Hr.
    apply IH in Hfold as [Hrec Hr'].
    + split; [|done]. rewrite Hrec, received_app, (Hno Hr), app_nil_r. done.
    + intros Hr1. apply Hreg in Hr1 as [? _]. done.
Qed.

(** X22: events published one after another to a document reach every
    connection registered under it, as long as its sends succeed, once each
    and in the order of publication; the connection stays registered. *)
Theorem publishes_arrive_in_order net self id events c self' log :
  registered self id c ->
  (forall ev, ev ∈ events -> ~ fails net ev c) ->
  publish_all net self id events = (self', log) ->
  received c log = events /\ registered self' id c.
Proof.
  intros Hr Hok Hrun. unfold publish_all in Hrun.
  now apply (publish_loop net id c) in Hrun.
Qed.

Lemma publishes_arrive_in_order_witness :
  exists self' log,
    publish_all odd_closed two_watchers "doc-1" [extracting_20; storing_85]
      = (self', log) /\
    received 2%positive log = [extracting_20; storing_85] /\
    registered self' "doc-1" 2%positive.
Proof.
  eexists; eexists. split; [apply surjective_pairing|].
  apply (publishes_arrive_in_order odd_closed two_watchers "doc-1"
           [extracting_20; storing_85] 2%positive).
  - exists watchers. split; [reflexivity|]. unfold watchers. set_solver.
  - intros ev _. unfold fails. simpl. discriminate.
  - apply surjective_pairing.
Defined.

(** X23: a connection whose send fails on some event has been sent the
    events up to that one and is sent none of the later ones: it has left the
    registry and stays out. *)
Theorem failed_connection_gets_no_more net self id before bad after c self' log :
  registered self id c ->
  (forall ev, ev ∈ before -> ~ fails net ev c) ->
  fails net bad c ->
  publish_all net self id (before ++ bad :: after) = (self', log) ->
  received c log = before ++ [bad] /\ ~ registered self' id c.
Proof.
  intros Hr Hok Hbad Hrun. unfold publish_all in Hrun.
  rewrite fold_left_app in Hrun. simpl in Hrun.
  destruct (fold_left (publish_step net id) before (self, [])) as [self1 log1] eqn:H1.
  apply (publish_loop net id c) in H1 as [Hrec1 Hr1]; [|done|done].
  simpl in Hrun.
  destruct (send_progress_received net self1 id bad c)
    as (self2 & log2 & Hsp & Hyes & _ & Hreg).
  rewrite Hsp in Hrun.
  apply (publish_loop_gone net id c) in Hrun as [Hrec Hgone].
  - split; [|done]. rewrite Hrec, received_app, Hrec1, (Hyes Hr1). done.
  - intros Hr2. apply Hreg in Hr2 as [_ Hnot]. now apply Hnot.
Qed.

Lemma failed_connection_gets_no_more_witness :
  exists self' log,
    publish_all odd_closed two_watchers "doc-1" ([] ++ extracting_20 :: [storing_85])
      = (self', log) /\
    received 1%positive log = [] ++ [extracting_20] /\
    ~ registered self' "doc-1" 1%positive.
Proof.
  eexists; eexists. split; [apply surjective_pairing|].
  apply (failed_connection_gets_no_more odd_closed two_watchers "doc-1"
           [] extracting_20 [storing_85] 1%positive).
  - exists watchers. split; [reflexivity|]. unfold watchers. set_solver.
  - intros ev Hin. now apply elem_of_nil in Hin.
  - reflexivity.
  - apply surjective_pairing.
Defined.

End PublishingFacts.

(** * The extractor *)

Module UnstructuredExtractorFacts.
Import UnstructuredExtractor.

(** ** Insertion-ordered dicts *)

Lemma dict_get_is_Some {V} (d : list (string * V)) (k : string) :
  k ∈ map fst d <-> is_Some (dict_get d k).
Proof.
  induction d as [|[k' v] d IH]; simpl.
  - split; [intros H; now apply elem_of_nil in H | intros [? ?]; discriminate].
  - rewrite elem_of_cons. destruct (decide (k' = k)) as [->|Hne].
    + split; [eauto | auto].
    + rewrite <- IH. split; [intros [?|?]; [congruence|done] | auto].
Qed.

Lemma dict_set_keys {V} (d : list (string * V)) (k : string) (v : V) :
  map fst (DomainClassifier.dict_set d k v)
  = if bool_decide (k ∈ map fst d) then map fst d else map fst d ++ [k].
Proof.
  induction d as [|[k' v'] d IH]; cbn [DomainClassifier.dict_set map fst].
  - rewrite bool_decide_eq_false_2; [done | apply not_elem_of_nil].
  - destruct (decide (k' = k)) as [->|Hne]; cbn [map fst].
    + rewrite bool_decide_eq_true_2; [done | left].
    + rewrite IH. destruct (bool_decide_reflect (k ∈ map fst d)).
      * rewrite bool_decide_eq_true_2; [done | now right].
      * rewrite bool_decide_eq_false_2; [done|].
        intros [?|?]%elem_of_cons; [congruence | done].
Qed.

Lemma dict_get_set_eq {V} (d : list (string * V)) (k : string) (v : V) :
  dict_get (DomainClassifier.dict_set d k v) k = Some v.
Proof.
  induction d as [|[k' v'] d IH]; simpl.
  - now destruct (decide (k = k)).
  - destruct (decide (k' = k)) as [->|Hne]; simpl.
    + now destruct (decide (k = k)).
    + now destruct (decide (k' = k)).
Qed.

Lemma dict_get_set_ne {V} (d : list (string * V)) (k k' : string) (v : V) :
  k <> k' -> dict_get (DomainClassifier.dict_set d k v) k' = dict_get d k'.
Proof.
  intros Hne. induction d as [|[k0 v0] d IH]; simpl.
  - now destruct (decide (k = k')).
  - destruct (decide (k0 = k)) as [->|Hne0]; simpl.
    + now destruct (decide (k = k')).
    + now rewrite IH.
Qed.

Lemma dict_append_keys (d : list (string * list string)) (k x : string) :
  map fst (dict_append d k x) = map fst d.
Proof.
  induction d as [|[k' v] d IH]; simpl; [done|].
  destruct (decide (k' = k)); simpl; [done | now rewrite IH].
Qed.

Lemma dict_get_append_eq (d : list (string * list string)) (k x : string) old :
  dict_get d k = Some old -> dict_get (dict_append d k x) k = Some (old ++ [x]).
Proof.
  induction d as [|[k' v] d IH]; simpl; [discriminate|].
  destruct (decide (k' = k)) as [->|Hne]; simpl.
  - intros [= ->]. now destruct (decide (k = k)).
  - intros Hget. destruct (decide (k' = k)); [done | auto].
Qed.

Lemma dict_get_append_ne (d : list (string * list string)) (k k' x : string) :
  k <> k' -> dict_get (dict_append d k x) k' = dict_get d k'.
Proof.
  intros Hne. induction d as [|[k0 v0] d IH]; simpl; [done|].
  destruct (decide (k0 = k)) as [->|Hne0]; simpl.
  - now destruct (decide (k = k')).
  - now rewrite IH.
Qed.

(** ** One element *)

Ltac kinds :=
  unfold is_kept, is_title, is_body_text, is_table, titled, organize_step;
  repeat case_decide; repeat case_bool_decide; simpl; try congruence; try reflexivity.

Lemma organize_step_title st e :
  is_title e = true ->
  organize_step st e
  = {| sections := DomainClassifier.dict_set (sections st) (section_name_of (text e)) [];
       tables := tables st;
       all_text := all_text st ++ [text e];
       current_section := section_name_of (text e) |}.
Proof. kinds. Qed.

Lemma organize_step_body st e :
  is_body_text e = true -> organize_step st e = add_text st e.
Proof. kinds. Qed.

Lemma organize_step_table st e :
  is_table e = true ->
  organize_step st e
  = {| sections := sections st;
       tables := tables st ++ [table_of e];
       all_text := all_text st ++ [text e];
       current_section := current_section st |}.
Proof. kinds. Qed.

Lemma organize_step_other st e :
  is_kept e = false -> organize_step st e = st.
Proof.
  unfold is_kept, is_title, is_body_text, is_table.
  intros [[H1 [H2 H3]%orb_false_elim]%orb_false_elim H4]%orb_false_elim.
  apply bool_decide_eq_false in H1, H2, H3, H4.
  unfold organize_step. repeat case_decide; done.
Qed.

Lemma kind_cases e :
  (is_title e = true /\ is_body_text e = false /\ is_table e = false /\ is_kept e = true)
  \/ (is_title e = false /\ is_body_text e = true /\ is_table e = false /\ is_kept e = true)
  \/ (is_title e = false /\ is_body_text e = false /\ is_table e = true /\ is_kept e = true)
  \/ (is_title e = false /\ is_body_text e = false /\ is_table e = false /\ is_kept e = false).
Proof.
  unfold is_kept, is_title, is_body_text, is_table.
  destruct (decide (type_name e = "Title")) as [H|H1];
    [rewrite H; left; repeat split; reflexivity|].
  destruct (decide (type_name e = "NarrativeText")) as [H|H2];
    [rewrite H; right; left; repeat split; reflexivity|].
  destruct (decide (type_name e = "ListItem")) as [H|H3];
    [rewrite H; right; left; repeat split; reflexivity|].
  destruct (decide (type_name e = "Table")) as [H|H4];
    [rewrite H; right; right; left; repeat split; reflexivity|].
  right; right; right. rewrite !bool_decide_eq_false_2 by done.
  repeat split; reflexivity.
Qed.

(** ** The loop *)

Lemma tables_of_loop els : forall st,
  tables (fold_left organize_step els st)
  = tables st ++ map table_of (List.filter is_table els).
Proof.
  induction els as [|e els IH]; intros st; simpl; [now rewrite app_nil_r|].
  rewrite IH.
  destruct (kind_cases e) as [(Ht & Hb & Hx & Hk)|[(Ht & Hb & Hx & Hk)|[(Ht & Hb & Hx & Hk)|(Ht & Hb & Hx & Hk)]]];
    rewrite Hx.
  - now rewrite organize_step_title.
  - now rewrite organize_step_body.
  - rewrite organize_step_table by done. simpl. now rewrite <- app_assoc.
  - now rewrite organize_step_other.
Qed.

Lemma all_text_of_loop els : forall st,
  all_text (fold_left organize_step els st)
  = all_text st ++ map text (List.filter is_kept els).
Proof.
  induction els as [|e els IH]; intros st; simpl; [now rewrite app_nil_r|].
  rewrite IH.
  destruct (kind_cases e) as [(Ht & Hb & Hx & Hk)|[(Ht & Hb & Hx & Hk)|[(Ht & Hb & Hx & Hk)|(Ht & Hb & Hx & Hk)]]];
    rewrite Hk.
  - rewrite organize_step_title by done. simpl. now rewrite <- app_assoc.
  - rewrite organize_step_body by done. simpl. now rewrite <- app_assoc.
  - rewrite organize_step_table by done. simpl. now rewrite <- app_assoc.
  - now rewrite organize_step_other.
Qed.

Lemma loop_ignores_other_kinds els : forall st,
  fold_left organize_step els st
  = fold_left organize_step (List.filter is_kept els) st.
Proof.
  induction els as [|e els IH]; intros st; simpl; [done|].
  destruct (is_kept e) eqn:Hk; simpl; [apply IH|].
  rewrite organize_step_other by done. apply IH.
Qed.

Lemma add_text_keys st e :
  current_section st ∈ map fst (sections st) ->
  map fst (sections (add_text st e)) = map fst (sections st).
Proof.
  intros Hcur. unfold add_text, dict_has. simpl.
  rewrite bool_decide_eq_true_2 by done. apply dict_append_keys.
Qed.

Lemma organize_step_keys st e :
  current_section st ∈ map fst (sections st) ->
  current_section (organize_step st e) ∈ map fst (sections (organize_step st e))
  /\ map fst (sections (organize_step st e))
     = fold_left (fun seen x => if bool_decide (x ∈ seen) then seen else seen ++ [x])
                 (title_names [e]) (map fst (sections st)).
Proof.
  intros Hcur. unfold title_names. cbn [List.filter].
  destruct (kind_cases e) as [(Ht & Hb & Hx & Hk)|[(Ht & Hb & Hx & Hk)|[(Ht & Hb & Hx & Hk)|(Ht & Hb & Hx & Hk)]]];
    rewrite Ht; cbn [map fold_left].
  - rewrite organize_step_title by done. cbn [sections current_section].
    split; [|apply dict_set_keys].
    apply dict_get_is_Some. rewrite dict_get_set_eq. eauto.
  - rewrite organize_step_body by done.
    rewrite add_text_keys by done. split; [|done]. exact Hcur.
  - rewrite organize_step_table by done. cbn [sections current_section]. done.
  - rewrite organize_step_other by done. done.
Qed.

Lemma title_names_cons e els :
  title_names (e :: els) = title_names [e] ++ title_names els.
Proof. unfold title_names. cbn [List.filter]. now destruct (is_title e). Qed.

Lemma keys_of_loop els : forall st,
  current_section st ∈ map fst (sections st) ->
  current_section (fold_left organize_step els st)
    ∈ map fst (sections (fold_left organize_step els st))
  /\ map fst (sections (fold_left organize_step els st))
     = fold_left (fun seen x => if bool_decide (x ∈ seen) then seen else seen ++ [x])
                 (title_names els) (map fst (sections st)).
Proof.
  induction els as [|e els IH]; intros st Hcur; [done|].
  destruct (organize_step_keys st e Hcur) as [Hcur' Hkeys].
  cbn [fold_left]. destruct (IH _ Hcur') as [Hin Heq].
  split; [done|]. rewrite Heq, Hkeys, (title_names_cons e els). now rewrite fold_left_app.
Qed.

Lemma start_section_known :
  current_section organizing_start ∈ map fst (sections organizing_start).
Proof. left. Qed.

(** ** One section *)

Lemma body_loop body : forall st old,
  forallb (fun e => negb (is_title e)) body = true ->
  dict_get (sections st) (current_section st) = Some old ->
  current_section (fold_left organize_step body st) = current_section st
  /\ dict_get (sections (fold_left organize_step body st)) (current_section st)
     = Some (old ++ map text (List.filter is_body_text body)).
Proof.
  induction body as [|e body IH]; intros st old Hnt Hget; simpl.
  { now rewrite app_nil_r. }
  simpl in Hnt. apply andb_prop in Hnt as [Hne Hnt].
  destruct (kind_cases e) as [(Ht & Hb & Hx & Hk)|[(Ht & Hb & Hx & Hk)|[(Ht & Hb & Hx & Hk)|(Ht & Hb & Hx & Hk)]]];
    rewrite Hb.
  - rewrite Ht in Hne. discriminate.
  - rewrite organize_step_body by done.
    assert (Hcur : current_section (add_text st e) = current_section st) by done.
    assert (Hget' : dict_get (sections (add_text st e)) (current_section (add_text st e))
                    = Some (old ++ [text e])).
    { unfold add_text, dict_has. cbn [sections current_section].
      rewrite bool_decide_eq_true_2.
      - now apply dict_get_append_eq.
      - apply dict_get_is_Some. rewrite Hget. eauto. }
    destruct (IH _ _ Hnt Hget') as [Hc Hg]. rewrite Hcur in Hc, Hg.
    split; [done|]. rewrite Hg. cbn [map]. now rewrite <- app_assoc.
  - rewrite organize_step_table by done.
    match goal with
    | |- context [fold_left organize_step body ?s] => exact (IH s old Hnt Hget)
    end.
  - rewrite organize_step_other by done. now apply IH.
Qed.

Lemma later_loop name rest : forall st,
  current_section st <> name ->
  forallb (fun e => negb (titled name e)) rest = true ->
  dict_get (sections (fold_left organize_step rest st)) name
  = dict_get (sections st) name.
Proof.
  induction rest as [|e rest IH]; intros st Hcur Hnt; simpl; [done|].
  simpl in Hnt. apply andb_prop in Hnt as [Hne Hnt].
  destruct (kind_cases e) as [(Ht & Hb & Hx & Hk)|[(Ht & Hb & Hx & Hk)|[(Ht & Hb & Hx & Hk)|(Ht & Hb & Hx & Hk)]]].
  - assert (Hname : section_name_of (text e) <> name).
    { unfold titled in Hne. rewrite Ht in Hne. simpl in Hne.
      now apply negb_true_iff, bool_decide_eq_false in Hne. }
    rewrite organize_step_title by done. rewrite IH; [|done|done].
    cbn [sections]. now apply dict_get_set_ne.
  - rewrite organize_step_body by done. rewrite IH; [|done|done].
    unfold add_text. cbn [sections].
    rewrite dict_get_append_ne by done.
    destruct (dict_has _ _); [done | now apply dict_get_set_ne].
  - rewrite organize_step_table by done. now rewrite IH.
  - rewrite organize_step_other by done. now rewrite IH.
Qed.

Lemma opening_loop name pre :
  opens name pre = true ->
  current_section (fold_left organize_step pre organizing_start) = name
  /\ dict_get (sections (fold_left organize_step pre organizing_start)) name = Some [].
Proof.
  unfold opens. destruct pre as [|t pre _] using rev_ind.
  - simpl. intros ->%bool_decide_eq_true. done.
  - rewrite last_snoc, fold_left_app. cbn [fold_left].
    intros [Ht <-%bool_decide_eq_true]%andb_prop.
    rewrite organize_step_title by done. cbn [sections current_section].
    split; [done | apply dict_get_set_eq].
Qed.

(** X24: what [extract] returns for the elements [partition] gave holds one
    table per [Table] element, in the elements' order, made of the element's
    text and metadata; [has_tables] tells whether there is a [Table] element,
    and [total_tables] counts them. *)
Theorem extract_tables (partition : string -> Py.result (list Element))
    (file_path : string) (elements : list Element) :
  partition file_path = Py.Ok elements ->
  exists content,
    extract partition file_path = Py.Ok content
    /\ Extractors.tables content = map table_of (List.filter is_table elements)
    /\ Extractors.has_tables content = existsb is_table elements
    /\ Extractors.metadata content !! "total_tables"
       = Some (VInt (len (List.filter is_table elements))).
Proof.
  intros Hp. unfold extract. rewrite Hp. cbn.
  eexists. split; [reflexivity|]. cbn.
  unfold organize_loop. rewrite tables_of_loop. cbn [tables organizing_start app].
  split; [done|]. split.
  - unfold len. rewrite length_map. clear Hp.
    induction elements as [|e els IH]; [done|]. cbn [List.filter existsb].
    destruct (is_table e); cbn [length orb]; [|exact IH].
    apply Z.ltb_lt. lia.
  - unfold len. now rewrite length_map.
Qed.

Lemma extract_tables_witness :
  exists content,
    extract (fun _ => Py.Ok sample_elements) "a.pdf" = Py.Ok content
    /\ Extractors.tables content = map table_of (List.filter is_table sample_elements)
    /\ Extractors.has_tables content = existsb is_table sample_elements
    /\ Extractors.metadata content !! "total_tables"
       = Some (VInt (len (List.filter is_table sample_elements))).
Proof. apply (extract_tables (fun _ => Py.Ok sample_elements) "a.pdf"). reflexivity. Defined.

(** X25: elements that are neither [Title], [NarrativeText], [Table] nor
    [ListItem] are ignored; the full text is the texts of the elements of
    these four kinds, in order, separated by a blank line. *)
Theorem full_text_of_kept_elements (elements : list Element) :
  _organize_elements elements = _organize_elements (List.filter is_kept elements)
  /\ organized_full_text (_organize_elements elements)
     = join (String newline (String newline ""))
            (map text (List.filter is_kept elements)).
Proof.
  split.
  - unfold _organize_elements, organize_loop.
    now rewrite <- loop_ignores_other_kinds.
  - unfold _organize_elements, organize_loop. cbn [organized_full_text].
    now rewrite all_text_of_loop.
Qed.

(** X26: the sections returned are named, in this order, ["introduction"]
    and then the names made from the titles, each name once at the place of
    its first occurrence; [total_sections] is their number. *)
Theorem section_names_spec (elements : list Element) :
  map fst (organized_sections (_organize_elements elements))
  = DomainClassifier.unique_in_order ("introduction" :: title_names elements)
  /\ organized_metadata (_organize_elements elements) !! "total_sections"
     = Some (VInt (len (DomainClassifier.unique_in_order
                          ("introduction" :: title_names elements)))).
Proof.
  assert (Hkeys : map fst (sections (organize_loop elements))
                  = DomainClassifier.unique_in_order
                      ("introduction" :: title_names elements)).
  { unfold organize_loop.
    destruct (keys_of_loop elements _ start_section_known) as [_ ->]. done. }
  split; [exact Hkeys|].
  unfold _organize_elements. cbn [organized_metadata].
  rewrite lookup_insert_eq. unfold len. now rewrite <- Hkeys, length_map.
Qed.

(** X27: a section holds the texts of the [NarrativeText] and [ListItem]
    elements that follow the last title of its name, up to the next title:
    text gathered under an earlier title of the same name is gone. *)
Theorem section_holds_last_run (name : string) (pre body rest : list Element) :
  opens name pre = true ->
  forallb (fun e => negb (is_title e)) body = true ->
  (forall e, head rest = Some e -> is_title e = true) ->
  forallb (fun e => negb (titled name e)) rest = true ->
  dict_get (organized_sections (_organize_elements (pre ++ body ++ rest))) name
  = Some (map text (List.filter is_body_text body)).
Proof.
  intros Hopen Hbody Hhead Hrest.
  unfold _organize_elements, organize_loop. cbn [organized_sections].
  rewrite !fold_left_app.
  destruct (opening_loop name pre Hopen) as [Hcur Hget].
  set (st := fold_left organize_step pre organizing_start) in *.
  rewrite <- Hcur in Hget.
  destruct (body_loop body st [] Hbody Hget) as [Hcur' Hget'].
  rewrite Hcur in Hcur', Hget'. cbn [app] in Hget'.
  set (st' := fold_left organize_step body st) in *.
  destruct rest as [|t rest]; [exact Hget'|].
  cbn [fold_left]. cbn [forallb] in Hrest. apply andb_prop in Hrest as [Hnt Hrest].
  assert (Ht : is_title t = true) by now apply Hhead.
  assert (Hname : section_name_of (text t) <> name).
  { unfold titled in Hnt. rewrite Ht in Hnt. simpl in Hnt.
    now apply negb_true_iff, bool_decide_eq_false in Hnt. }
  rewrite later_loop; [|now rewrite organize_step_title|done].
  rewrite organize_step_title by done. cbn [sections].
  now rewrite dict_get_set_ne.
Qed.

Lemma section_holds_last_run_witness :
  dict_get (organized_sections (_organize_elements sample_elements)) "my_part"
  = Some ["c"; "d"].
Proof.
  apply (section_holds_last_run "my_part"
           [narrative "a"; title "My Part"; narrative "b"; page_footer "1";
            title "Other"; title "my part"]
           [narrative "c"; narrative "d"] [title "End"]).
  - vm_compute. reflexivity.
  - vm_compute. reflexivity.
  - intros e [= <-]. vm_compute. reflexivity.
  - vm_compute. reflexivity.
Defined.

End UnstructuredExtractorFacts.

(** * Tables as text *)

Module TableTextFacts.
Import TableText.

(** ** Strings *)

Lemma length_append (s1 s2 : string) :
  String.length (String.append s1 s2) = (String.length s1 + String.length s2)%nat.
Proof. induction s1 as [|c s1 IH]; simpl; [done | now rewrite IH]. Qed.

Lemma length_spaces (n : nat) : String.length (spaces n) = n.
Proof. induction n as [|n IH]; simpl; [done | now rewrite IH]. Qed.

Lemma length_ljust (s : string) (w : Z) :
  str_len s <= w -> String.length (ljust s w) = Z.to_nat w.
Proof.
  unfold ljust, str_len. intros Hle. rewrite length_append, length_spaces. lia.
Qed.

Lemma concat_cons2 (sep x y : string) (l : list string) :
  String.concat sep (x :: y :: l)
  = String.append x (String.append sep (String.concat sep (y :: l))).
Proof. reflexivity. Qed.

Lemma length_padded_line (row : list string) (ws : list Z) :
  Forall2 (fun cell w => str_len cell <= w) row ws ->
  String.length (join " | " (zip_with ljust row ws))
  = (sum_list (map Z.to_nat ws) + 3 * pred (length ws))%nat.
Proof.
  unfold join. induction 1 as [|cell w row ws Hle Hrest IH]; [done|].
  cbn [zip_with map sum_list sum_list_with length pred].
  destruct Hrest as [|cell' w' row ws Hle' Hrest].
  - simpl. rewrite length_ljust by done. lia.
  - cbn [zip_with] in *. rewrite concat_cons2, !length_append, length_ljust by done.
    rewrite IH. change (String.length " | ") with 3%nat.
    cbn [map sum_list sum_list_with length pred]. unfold id. lia.
Qed.

(** ** The widths *)

Lemma widen_nil (ws : list Z) : widen ws [] = ws.
Proof. now destruct ws. Qed.

Lemma length_widen (ws : list Z) : forall row, length (widen ws row) = length ws.
Proof.
  induction ws as [|w ws IH]; intros [|cell row]; simpl; [done..|]. now rewrite IH.
Qed.

Lemma lookup_widen (ws : list Z) : forall row j,
  widen ws row !! j
  = match ws !! j, row !! j with
    | Some w, Some cell => Some (Z.max w (str_len cell))
    | Some w, None => Some w
    | None, _ => None
    end.
Proof.
  induction ws as [|w ws IH]; intros [|cell row] [|j]; simpl;
    try done; try (now destruct (ws !! j)); try apply IH.
Qed.

Lemma getitem_middle {A} (pre : list A) (x : A) (rest : list A) :
  getitem (pre ++ x :: rest) (Z.of_nat (length pre)) = Ok x.
Proof.
  unfold getitem. rewrite Nat2Z.id, lookup_app_r, Nat.sub_diag by lia. done.
Qed.

Lemma getitem_end {A} (pre : list A) :
  getitem pre (Z.of_nat (length pre)) = Raise index_error.
Proof.
  unfold getitem. rewrite Nat2Z.id, lookup_ge_None_2 by lia. done.
Qed.

Lemma length_snoc_Z {A} (pre : list A) (x : A) :
  Z.of_nat (length pre) + 1 = Z.of_nat (length (pre ++ [x])).
Proof. rewrite length_app. simpl. lia. Qed.

Lemma widths_row_loop (row : list string) : forall pre ws,
  for_each width_step (enumerate_from (Z.of_nat (length pre)) row) (pre ++ ws)
  = if (length row <=? length ws)%nat then Ok (pre ++ widen ws row)
    else Raise index_error.
Proof.
  induction row as [|cell row IH]; intros pre ws.
  - simpl. now rewrite widen_nil.
  - cbn [enumerate_from for_each width_step].
    destruct ws as [|w ws].
    + rewrite app_nil_r, getitem_end. done.
    + rewrite getitem_middle. cbn.
      rewrite Nat2Z.id, insert_app_r_alt, Nat.sub_diag by lia. cbn [insert list_insert].
      rewrite (length_snoc_Z pre (Z.max w (str_len cell))).
      rewrite (cons_middle _ pre ws), app_assoc, IH, <- app_assoc. done.
Qed.

Lemma widths_row_spec (ws : list Z) (row : list string) :
  widths_row ws row
  = if (length row <=? length ws)%nat then Ok (widen ws row) else Raise index_error.
Proof. exact (widths_row_loop row [] ws). Qed.

Lemma widths_loop (rows : list (list string)) : forall ws,
  for_each widths_row rows ws
  = if forallb (fun row => (length row <=? length ws)%nat) rows
    then Ok (fold_left widen rows ws) else Raise index_error.
Proof.
  induction rows as [|row rows IH]; intros ws; [done|].
  cbn [for_each forallb fold_left]. rewrite widths_row_spec.
  destruct (length row <=? length ws)%nat; [|done]. cbn.
  rewrite IH, length_widen. done.
Qed.

Lemma length_widths (rows : list (list string)) : forall ws,
  length (fold_left widen rows ws) = length ws.
Proof.
  induction rows as [|row rows IH]; intros ws; simpl; [done|].
  now rewrite IH, length_widen.
Qed.

Lemma widths_are_maxima (rows : list (list string)) : forall ws j w0 w,
  ws !! j = Some w0 ->
  fold_left widen rows ws !! j = Some w ->
  w0 <= w
  /\ (forall row cell, row ∈ rows -> row !! j = Some cell -> str_len cell <= w)
  /\ (w = w0 \/ exists row cell, row ∈ rows /\ row !! j = Some cell /\ str_len cell = w).
Proof.
  induction rows as [|row rows IH]; intros ws j w0 w Hw0 Hw; simpl in Hw.
  - assert (w = w0) by congruence. subst.
    split; [lia|]. split; [|now left].
    intros row cell Hin. now apply elem_of_nil in Hin.
  - assert (Hstep : exists w1, widen ws row !! j = Some w1 /\ w0 <= w1
              /\ (forall cell, row !! j = Some cell -> str_len cell <= w1)
              /\ (w1 = w0 \/ exists cell, row !! j = Some cell /\ str_len cell = w1)).
    { rewrite lookup_widen, Hw0. destruct (row !! j) as [cell|].
      - exists (Z.max w0 (str_len cell)). split; [done|]. split; [lia|]. split.
        + intros cell' [= <-]. lia.
        + destruct (Z.max_spec w0 (str_len cell)) as [[_ Hm]|[_ Hm]];
            [right; eauto | now left].
      - exists w0. split; [done|]. split; [lia|]. split; [done | now left]. }
    destruct Hstep as (w1 & Hw1 & Hle1 & Hrow & Hsrc).
    destruct (IH _ _ _ _ Hw1 Hw) as (Hle & Hall & Hsome).
    split; [lia|]. split.
    + intros row' cell [->|Hin]%elem_of_cons Hcell.
      * specialize (Hrow _ Hcell). lia.
      * now apply (Hall row').
    + destruct Hsome as [->|(row' & cell & Hin & Hcell & Hlen)].
      * destruct Hsrc as [->|(cell & Hcell & Hlen)]; [now left|].
        right. exists row, cell. split; [left | done].
      * right. exists row', cell. split; [now right | done].
Qed.

(** ** The lines *)

Lemma pad_loop (col_widths : list Z) (row : list string) : forall pre ws cells,
  col_widths = pre ++ ws ->
  (length row <= length ws)%nat ->
  for_each (pad_step col_widths) (enumerate_from (Z.of_nat (length pre)) row) cells
  = Ok (cells ++ zip_with ljust row ws).
Proof.
  induction row as [|cell row IH]; intros pre ws cells Hws Hlen.
  - simpl. now rewrite app_nil_r.
  - destruct ws as [|w ws]; [simpl in Hlen; lia|].
    cbn [enumerate_from for_each pad_step].
    rewrite Hws at 1. rewrite getitem_middle. cbn.
    rewrite (length_snoc_Z pre w).
    rewrite (IH (pre ++ [w]) ws).
    + now rewrite <- app_assoc.
    + now rewrite <- app_assoc.
    + simpl in Hlen. lia.
Qed.

Lemma format_row_spec (col_widths : list Z) (row : list string) :
  (length row <= length col_widths)%nat ->
  format_row col_widths row = Ok (join " | " (zip_with ljust row col_widths)).
Proof.
  intros Hlen. unfold format_row, enumerate.
  pose proof (pad_loop col_widths row [] col_widths [] eq_refl Hlen) as Hloop.
  cbn [length app] in Hloop. change (Z.of_nat 0) with 0 in Hloop. now rewrite Hloop.
Qed.

Lemma line_step_spec (col_widths : list Z) (lines : list string) (row : list string) :
  (length row <= length col_widths)%nat ->
  line_step col_widths lines row
  = Ok (lines ++ [join " | " (zip_with ljust row col_widths)]).
Proof. intros Hlen. unfold line_step. now rewrite format_row_spec. Qed.

Lemma lines_loop (col_widths : list Z) (rows : list (list string)) : forall lines,
  forallb (fun row => (length row <=? length col_widths)%nat) rows = true ->
  for_each (line_step col_widths) rows lines
  = Ok (lines ++ map (fun row => join " | " (zip_with ljust row col_widths)) rows).
Proof.
  induction rows as [|row rows IH]; intros lines Hfit.
  - simpl. now rewrite app_nil_r.
  - cbn [forallb] in Hfit. apply andb_prop in Hfit as [Hrow Hfit].
    apply Nat.leb_le in Hrow.
    cbn [for_each]. rewrite line_step_spec by done. cbn.
    rewrite IH by done. now rewrite <- app_assoc.
Qed.

Lemma length_clean_row (row : list (option string)) :
  length (clean_row row) = length row.
Proof. apply length_map. Qed.

Lemma fits_cleaned (n : nat) (rows : list (list (option string))) :
  forallb (fun row => (length row <=? n)%nat) (map clean_row rows)
  = forallb (fun row => (length row <=? n)%nat) rows.
Proof.
  induction rows as [|row rows IH]; [done|].
  cbn [map forallb]. now rewrite length_clean_row, IH.
Qed.

Lemma table_text_eq (table : list (list (option string))) :
  _table_to_text table
  = if fits_first_row table
    then Ok (join (String newline "") (map (line_of (column_widths table)) table))
    else Raise index_error.
Proof.
  destruct table as [|first rows]; [done|].
  unfold _table_to_text, fits_first_row, column_widths.
  cbn [map hd]. rewrite widths_loop, length_replicate, length_clean_row.
  assert (Hfits : forallb (fun row => (length row <=? length first)%nat)
                    (clean_row first :: map clean_row rows)
                  = forallb (fun row => (length row <=? length first)%nat) (first :: rows))
    by apply (fits_cleaned (length first) (first :: rows)).
  assert (Hlines : map (fun row => join " | "
                      (zip_with ljust row
                         (fold_left widen (clean_row first :: map clean_row rows)
                            (replicate (length first) 0))))
                     (clean_row first :: map clean_row rows)
                   = map (line_of (fold_left widen (clean_row first :: map clean_row rows)
                                     (replicate (length first) 0))) (first :: rows)).
  { rewrite <- (map_cons clean_row), map_map. done. }
  remember (clean_row first :: map clean_row rows) as cleaned eqn:Hcl.
  rewrite Hfits. destruct (forallb _ (first :: rows)) eqn:Hfit; [|done].
  change (mbind ?f (Ok ?x)) with (f x). cbv beta.
  rewrite lines_loop.
  - change (mbind ?f (Ok ?x)) with (f x). cbv beta. cbn [app]. now rewrite Hlines.
  - now rewrite length_widths, length_replicate, Hfits.
Qed.

Lemma column_widths_spec (table : list (list (option string))) :
  length (column_widths table) = length (hd [] table)
  /\ forall j w, column_widths table !! j = Some w ->
       (forall row cell, row ∈ table -> clean_row row !! j = Some cell ->
          str_len cell <= w)
       /\ (w = 0 \/ exists row cell,
             row ∈ table /\ clean_row row !! j = Some cell /\ str_len cell = w).
Proof.
  unfold column_widths. split.
  { now rewrite length_widths, length_replicate. }
  intros j w Hw.
  assert (Hj : (j < length (hd [] table))%nat).
  { apply lookup_lt_Some in Hw. now rewrite length_widths, length_replicate in Hw. }
  assert (H0 : replicate (length (hd [] table)) 0 !! j = Some 0).
  { now apply lookup_replicate_2. }
  destruct (widths_are_maxima _ _ _ _ _ H0 Hw) as (_ & Hall & Hsome).
  split.
  - intros row cell Hin Hcell. apply (Hall (clean_row row)); [|done].
    apply list_elem_of_fmap. eauto.
  - destruct Hsome as [->|(crow & cell & Hin & Hcell & Hlen)]; [now left|].
    right. apply list_elem_of_fmap in Hin as (row & -> & Hin). eauto.
Qed.

Lemma fits_rectangular (n : nat) (table : list (list (option string))) :
  Forall (fun row => length row = n) table -> fits_first_row table = true.
Proof.
  intros Hrect. unfold fits_first_row. apply forallb_forall. intros row Hin.
  apply Nat.leb_le. apply list_elem_of_In in Hin.
  assert (Hrow : length row = n) by now apply (proj1 (Forall_forall _ _) Hrect).
  destruct table as [|first rows]; [now apply elem_of_nil in Hin|].
  apply Forall_cons in Hrect as [Hfirst _]. simpl. lia.
Qed.

(** X28: [_table_to_text] returns a text when no row has more cells than the
    first row, and raises [IndexError] when some row has more. *)
Theorem table_text_needs_short_rows (table : list (list (option string))) :
  if fits_first_row table then is_ok (_table_to_text table) = true
  else _table_to_text table = Raise index_error.
Proof. rewrite table_text_eq. now destruct (fits_first_row table). Qed.

(** X29: for a table none of whose rows is longer than the first, the text
    has one line per row, in order: the row's cells ([None] as the empty
    string), each padded with spaces on the right to the width of its
    column and joined by [" | "]; there is a width for each cell of the
    first row, and it is the greatest length among the cells of the
    column. *)
Theorem table_text_lines (table : list (list (option string))) :
  fits_first_row table = true ->
  _table_to_text table
  = Ok (join (String newline "") (map (line_of (column_widths table)) table))
  /\ length (column_widths table) = length (hd [] table)
  /\ forall j w, column_widths table !! j = Some w ->
       (forall row cell, row ∈ table -> clean_row row !! j = Some cell ->
          str_len cell <= w)
       /\ (w = 0 \/ exists row cell,
             row ∈ table /\ clean_row row !! j = Some cell /\ str_len cell = w).
Proof.
  intros Hfit. rewrite table_text_eq, Hfit. split; [done|].
  apply column_widths_spec.
Qed.

Lemma table_text_lines_witness :
  _table_to_text sample_table
  = Ok (join (String newline "")
          (map (line_of (column_widths sample_table)) sample_table)).
Proof. apply (table_text_lines sample_table). reflexivity. Defined.

(** ** The lines of the text *)

Lemma append_snoc (acc : string) (c : ascii) (s : string) :
  String.append (String.append acc (String c "")) s = String.append acc (String c s).
Proof.
  induction acc as [|a acc IH]; [reflexivity|].
  change (String a (String.append (String.append acc (String c "")) s)
          = String a (String.append acc (String c s))).
  now rewrite IH.
Qed.

Lemma append_empty_r (s : string) : String.append s "" = s.
Proof.
  induction s as [|c s IH]; [reflexivity|].
  change (String c (String.append s "") = String c s). now rewrite IH.
Qed.

Lemma has_newline_append (s1 s2 : string) :
  has_newline (String.append s1 s2) = has_newline s1 || has_newline s2.
Proof.
  induction s1 as [|c s1 IH]; simpl; [done|]. now rewrite IH, orb_assoc.
Qed.

Lemma has_newline_spaces (n : nat) : has_newline (spaces n) = false.
Proof. induction n as [|n IH]; simpl; [done | exact IH]. Qed.

Lemma has_newline_ljust (s : string) (w : Z) :
  has_newline s = false -> has_newline (ljust s w) = false.
Proof.
  intros Hs. unfold ljust. now rewrite has_newline_append, Hs, has_newline_spaces.
Qed.

Lemma has_newline_padded_line (row : list string) : forall ws,
  Forall (fun cell => has_newline cell = false) row ->
  has_newline (join " | " (zip_with ljust row ws)) = false.
Proof.
  unfold join. induction row as [|cell row IH]; intros ws Hrow; [done|].
  apply Forall_cons in Hrow as [Hcell Hrow].
  destruct ws as [|w ws]; [done|]. cbn [zip_with].
  specialize (IH ws Hrow).
  destruct (zip_with ljust row ws) as [|p ps] eqn:Hz.
  - simpl. now apply has_newline_ljust.
  - rewrite concat_cons2, !has_newline_append, IH, has_newline_ljust by done.
    reflexivity.
Qed.

Lemma lines_go_app (s rest acc : string) :
  has_newline s = false ->
  lines_go (String.append s rest) acc = lines_go rest (String.append acc s).
Proof.
  revert acc. induction s as [|c s IH]; intros acc Hs; simpl.
  - now rewrite append_empty_r.
  - simpl in Hs. apply orb_false_elim in Hs as [Hc Hs].
    rewrite Hc, IH by done. now rewrite append_snoc.
Qed.

Lemma lines_go_newline (rest acc : string) :
  lines_go (String newline rest) acc = acc :: lines_go rest "".
Proof. reflexivity. Qed.

Lemma split_lines_join (l : string) (ls : list string) :
  Forall (fun line => has_newline line = false) (l :: ls) ->
  split_lines (join (String newline "") (l :: ls)) = l :: ls.
Proof.
  unfold split_lines, join. revert l. induction ls as [|l' ls IH]; intros l Hls.
  - apply Forall_cons in Hls as [Hl _]. simpl.
    rewrite <- (append_empty_r l) at 1. now rewrite lines_go_app.
  - apply Forall_cons in Hls as [Hl Hls].
    rewrite concat_cons2, lines_go_app by done.
    change (String.append (String newline "") ?s) with (String newline s).
    rewrite lines_go_newline, IH by done. reflexivity.
Qed.

(** X30: for a table with at least one row, whose rows all have the same
    number of cells and none of whose cells holds a newline character, the
    text, split at its newlines, has exactly one line per row, and all its
    lines have the same length, so the columns line up. *)
Theorem table_text_aligned (n : nat) (table : list (list (option string))) :
  table <> [] ->
  Forall (fun row => length row = n) table ->
  Forall (fun row => Forall (fun cell => has_newline cell = false) (clean_row row))
         table ->
  exists text,
    _table_to_text table = Ok text
    /\ length (split_lines text) = length table
    /\ forall l1 l2, l1 ∈ split_lines text -> l2 ∈ split_lines text ->
                     String.length l1 = String.length l2.
Proof.
  intros Hne Hrect Hcells.
  exists (join (String newline "") (map (line_of (column_widths table)) table)).
  rewrite table_text_eq, (fits_rectangular n) by done.
  split; [done|].
  assert (Hsplit : split_lines
                     (join (String newline "")
                        (map (line_of (column_widths table)) table))
                   = map (line_of (column_widths table)) table).
  { destruct table as [|first rows]; [done|]. cbn [map].
    apply split_lines_join. rewrite <- (map_cons (line_of _)).
    apply Forall_fmap, Forall_forall. intros row Hin. cbn.
    apply has_newline_padded_line.
    now apply (proj1 (Forall_forall _ _) Hcells). }
  rewrite Hsplit. split; [apply length_map|].
  destruct (column_widths_spec table) as [Hlen Hmax].
  assert (Hline : forall l, l ∈ map (line_of (column_widths table)) table ->
            String.length l
            = (sum_list (map Z.to_nat (column_widths table))
               + 3 * pred (length (column_widths table)))%nat).
  { intros l (row & -> & Hin)%list_elem_of_fmap.
    unfold line_of. apply length_padded_line.
    assert (Hrow : length row = n) by now apply (proj1 (Forall_forall _ _) Hrect).
    assert (Hhd : length (hd [] table) = n).
    { destruct table as [|first rows]; [now apply elem_of_nil in Hin|].
      now apply Forall_cons in Hrect as [Hfirst _]. }
    apply Forall2_same_length_lookup_2.
    - rewrite length_clean_row. lia.
    - intros j cell w Hcell Hw. destruct (Hmax j w Hw) as [Hall _].
      now apply (Hall row). }
  intros l1 l2 H1 H2. now rewrite (Hline l1), (Hline l2).
Qed.

Lemma table_text_aligned_witness :
  exists text,
    _table_to_text sample_table = Ok text
    /\ length (split_lines text) = length sample_table
    /\ forall l1 l2, l1 ∈ split_lines text -> l2 ∈ split_lines text ->
                     String.length l1 = String.length l2.
Proof.
  apply (table_text_aligned 2 sample_table).
  - discriminate.
  - repeat constructor.
  - repeat constructor.
Defined.

End TableTextFacts.
